(** * lamdera-websocket: the Wire3 codec, the session identifier and the
      connection state machine of [src/index.js], embedded in Rocq.

    JavaScript numbers are IEEE-754 doubles.  The codec only ever computes
    with integer-valued doubles, NaN and the two infinities, so a number is
    modelled as a [jsnum]: an integer in [Z] (the rounding of every
    operation whose result may leave the exactly-representable range is
    written out with [fl]), [NaN] or [Inf].  Negative zero is identified
    with zero: no operation of the codec tells them apart.  A Node [Buffer]
    is a list of bytes, a string a list of UTF-16 code units.  Code that
    throws returns a [result].  The connection object is a record; its
    methods and handlers are functions on a [World], which pairs the object
    with the timers the host holds for it and the trace of what it did to
    the socket and to the caller's callbacks.

    The definitions come first, in the order of the source; the statements
    about them follow. *)

From Stdlib Require Import ZArith List Lia Bool String Ascii.
From Stdlib Require Import Strings.Byte.
Import ListNotations.
Open Scope Z_scope.

(** ** Numbers *)

Module Num.

(** Round an integer to the nearest double (ties to even), 53 bits of
    significand.  Overflow to an infinity, from 2^1024 on, is left out: the
    decoders only halve what they read or add a small offset to it. *)
Definition fl (z : Z) : Z :=
  if Z.abs z <=? 2 ^ 53 then z
  else
    let e := Z.log2 (Z.abs z) - 52 in
    let q := Z.abs z / 2 ^ e in
    let r := Z.abs z mod 2 ^ e in
    let q' := if 2 * r <? 2 ^ e then q
              else if 2 ^ e <? 2 * r then q + 1
              else if Z.even q then q else q + 1 in
    Z.sgn z * q' * 2 ^ e.

Inductive jsnum : Type :=
| Fin (z : Z)
| NaN
| Inf (negative : bool).

(** [ToInt32], the conversion every bitwise operator applies first. *)
Definition toInt32 (z : Z) : Z := (z + 2 ^ 31) mod 2 ^ 32 - 2 ^ 31.

(** [x >> k], [x << k], [x & y], [x | y] on numbers. *)
Definition sar (x k : Z) : Z := Z.shiftr (toInt32 x) k.
Definition shl (x k : Z) : Z := toInt32 (Z.shiftl (toInt32 x) k).
Definition band (x y : Z) : Z := Z.land (toInt32 x) (toInt32 y).
Definition bor (x y : Z) : Z := Z.lor (toInt32 x) (toInt32 y).

(** [a + b] where [b] may be NaN or infinite. *)
Definition jadd (a : Z) (b : jsnum) : jsnum :=
  match b with
  | Fin z => Fin (fl (a + z))
  | NaN => NaN
  | Inf s => Inf s
  end.

(** [a > b] for a number [a] and an integer [b]; false on NaN. *)
Definition jgt (a : jsnum) (b : Z) : bool :=
  match a with
  | Fin z => b <? z
  | NaN => false
  | Inf s => negb s
  end.

End Num.
Import Num.

(** ** Errors and results *)

Inductive Error : Type :=
| NegativeInput (n : Z)              (* encodeUnsignedInt requires non-negative integer *)
| BufferTooShort (form : string)     (* Buffer too short for ... *)
| InvalidMarker (b0 : option Z)      (* Invalid Wire3 int marker *)
| StringTooShort (need : jsnum)      (* Buffer too short for string *)
| NotOpen (readyState : Z)           (* WebSocket is not open *)
| OutOfRange                         (* Buffer.readUInt8 outside the buffer *)
| NullDereference.                   (* method call on null *)

Inductive result (A : Type) : Type :=
| Ok (a : A)
| Throw (e : Error).
Arguments Ok {A} a.
Arguments Throw {A} e.

Definition bind {A B} (r : result A) (k : A -> result B) : result B :=
  match r with
  | Ok a => k a
  | Throw e => Throw e
  end.

Notation "'let*' x ':=' r 'in' k" := (bind r (fun x => k))
  (at level 10, x pattern, r at level 100, k at level 200).

Definition raises {A} (r : result A) : Prop := exists e, r = Throw e.
Definition returns {A} (r : result A) : Prop := exists a, r = Ok a.

(** ** Buffers *)

Definition Buffer : Type := list byte.

Definition byteVal (b : byte) : Z := Z.of_N (Byte.to_N b).

(** [ToUint8]: what storing a number into a Buffer cell keeps of it. *)
Definition toUint8 (z : Z) : byte :=
  match Byte.of_N (Z.to_N (z mod 256)) with
  | Some b => b
  | None => x00
  end.

Definition blen (buffer : Buffer) : Z := Z.of_nat (List.length buffer).

(** [Buffer.from(array)]. *)
Definition Buffer_from (values : list Z) : Buffer := map toUint8 values.

(** [Buffer.alloc(n)]. *)
Definition Buffer_alloc (n : nat) : Buffer := repeat x00 n.

(** [buffer[i]]: [None] is [undefined]. *)
Definition idx (buffer : Buffer) (i : Z) : option Z :=
  if i <? 0 then None else option_map byteVal (nth_error buffer (Z.to_nat i)).

(** [buffer[i]] used as an operand, after the bounds check that guards it. *)
Definition byteAt (buffer : Buffer) (i : Z) : Z :=
  match idx buffer i with
  | Some b => b
  | None => 0
  end.

(** [buffer[i] = v]; outside the buffer the store is dropped. *)
Fixpoint setAt (buffer : Buffer) (i : nat) (v : byte) : Buffer :=
  match buffer, i with
  | [], _ => []
  | _ :: rest, O => v :: rest
  | b :: rest, S i' => b :: setAt rest i' v
  end.

(** The [k] low bytes of [bits], least significant first. *)
Fixpoint leBytes (k : nat) (bits : Z) : list byte :=
  match k with
  | O => []
  | S k' => toUint8 bits :: leBytes k' (bits / 256)
  end.

Fixpoint leValue (bytes : list byte) : Z :=
  match bytes with
  | [] => 0
  | b :: rest => byteVal b + 256 * leValue rest
  end.

(** Copy [bytes] into [buffer] from position [i] on. *)
Fixpoint blit (buffer : Buffer) (i : nat) (bytes : list byte) : Buffer :=
  match bytes with
  | [] => buffer
  | b :: rest => blit (setAt buffer i b) (S i) rest
  end.

(** ** IEEE-754 binary64 *)

(** Bit pattern of the double holding the integer [n]. *)
Definition doubleBits (n : Z) : Z :=
  if n =? 0 then 0
  else
    let a := Z.abs (fl n) in
    let e := Z.log2 a in
    let m := if e <=? 52 then a * 2 ^ (52 - e) else a / 2 ^ (e - 52) in
    (if n <? 0 then 2 ^ 63 else 0) + (e + 1023) * 2 ^ 52 + (m - 2 ^ 52).

(** [buf.writeDoubleLE(value, offset)]. *)
Definition writeDoubleLE (buffer : Buffer) (value : Z) (offset : nat) : Buffer :=
  blit buffer offset (leBytes 8 (doubleBits value)).

(** A double read from memory: NaN, an infinity, or the finite value
    [significand * 2 ^ exponent] (the significand carries the sign). *)
Inductive double : Type :=
| DNaN
| DInf (negative : bool)
| DFin (significand exponent : Z).

(** The double with the given bit pattern: sign, 11 bits of biased
    exponent, 52 bits of fraction. *)
Definition doubleOfBits (bits : Z) : double :=
  let negative := Z.testbit bits 63 in
  let e := (bits / 2 ^ 52) mod 2 ^ 11 in
  let f := bits mod 2 ^ 52 in
  if e =? 2047 then (if f =? 0 then DInf negative else DNaN)
  else
    let m := if e =? 0 then f else f + 2 ^ 52 in
    DFin (if negative then - m else m) (Z.max e 1 - 1075).

(** [buffer.readDoubleLE(offset)]. *)
Definition readDoubleLE (buffer : Buffer) (offset : Z) : double :=
  doubleOfBits (leValue (firstn 8 (skipn (Z.to_nat offset) buffer))).

(** [Math.floor(value)]. *)
Definition Math_floor (value : double) : jsnum :=
  match value with
  | DNaN => NaN
  | DInf negative => Inf negative
  | DFin s x => if 0 <=? x then Fin (s * 2 ^ x) else Fin (s / 2 ^ (- x))
  end.

(** ** Wire3 integers *)

Definition WIRE3_ONE_BYTE_MAX : Z := 215.
Definition WIRE3_TWO_BYTE_MAX : Z := 9431.
Definition WIRE3_TWO_BYTE_OFFSET : Z := 216.
Definition WIRE3_MARKER_2_BYTES : Z := 252.
Definition WIRE3_MARKER_3_BYTES : Z := 253.
Definition WIRE3_MARKER_4_BYTES : Z := 254.
Definition WIRE3_MARKER_FLOAT64 : Z := 255.

(** ** Zigzag *)

Definition signedToUnsigned (i : Z) : Z :=
  if i <? 0 then fl (fl (-2 * i) - 1)
  else fl (2 * i).

(** [%] is the truncating remainder ([Z.rem]); on NaN and the infinities it
    yields NaN, which is not [1]. *)
Definition unsignedToSigned (i : jsnum) : jsnum :=
  match i with
  | Fin z =>
      if Z.rem z 2 =? 1 then Fin (- (fl (z + 1) / 2))
      else Fin (z / 2)
  | NaN => NaN
  | Inf s => Inf s
  end.

(** [Math.floor(adjusted / 256)] is [/] and [adjusted % 256] is [Z.rem]. *)
Definition encodeUnsignedInt (n : Z) : result Buffer :=
  if n <? 0 then Throw (NegativeInput n)
  else if n <=? WIRE3_ONE_BYTE_MAX then
    Ok (Buffer_from [n])
  else if n <=? WIRE3_TWO_BYTE_MAX then
    let adjusted := n - WIRE3_TWO_BYTE_OFFSET in
    let b0 := WIRE3_TWO_BYTE_OFFSET + adjusted / 256 in
    let b1 := Z.rem adjusted 256 in
    Ok (Buffer_from [b0; b1])
  else if n <? 256 * 256 then
    Ok (Buffer_from [WIRE3_MARKER_2_BYTES; band (sar n 8) 255; band n 255])
  else if n <? 256 * 256 * 256 then
    Ok (Buffer_from [WIRE3_MARKER_3_BYTES;
                     band (sar n 16) 255; band (sar n 8) 255; band n 255])
  else if n <? 256 * 256 * 256 * 256 then
    Ok (Buffer_from [WIRE3_MARKER_4_BYTES;
                     band (sar n 24) 255; band (sar n 16) 255;
                     band (sar n 8) 255; band n 255])
  else
    let buf := Buffer_alloc 9 in
    let buf := setAt buf 0 (toUint8 WIRE3_MARKER_FLOAT64) in
    Ok (writeDoubleLE buf n 1).

(** Returns [{ value, bytesRead }].  [undefined] (a read before the start of
    the buffer) fails every comparison and reaches the last [throw]. *)
Definition decodeUnsignedInt (buffer : Buffer) (offset : Z) : result (jsnum * Z) :=
  if offset >=? blen buffer then Throw (BufferTooShort "Wire3 int decode")
  else
    match idx buffer offset with
    | None => Throw (InvalidMarker None)
    | Some b0 =>
      if b0 <=? WIRE3_ONE_BYTE_MAX then Ok (Fin b0, 1)
      else if b0 <? WIRE3_MARKER_2_BYTES then
        if offset + 1 >=? blen buffer then Throw (BufferTooShort "2-byte Wire3 int")
        else
          let b1 := byteAt buffer (offset + 1) in
          Ok (Fin (WIRE3_TWO_BYTE_OFFSET + (b0 - WIRE3_TWO_BYTE_OFFSET) * 256 + b1), 2)
      else if b0 =? WIRE3_MARKER_2_BYTES then
        if offset + 2 >=? blen buffer then Throw (BufferTooShort "marker-252 Wire3 int")
        else
          Ok (Fin (bor (shl (byteAt buffer (offset + 1)) 8)
                       (byteAt buffer (offset + 2))), 3)
      else if b0 =? WIRE3_MARKER_3_BYTES then
        if offset + 3 >=? blen buffer then Throw (BufferTooShort "marker-253 Wire3 int")
        else
          Ok (Fin (bor (bor (shl (byteAt buffer (offset + 1)) 16)
                            (shl (byteAt buffer (offset + 2)) 8))
                       (byteAt buffer (offset + 3))), 4)
      else if b0 =? WIRE3_MARKER_4_BYTES then
        if offset + 4 >=? blen buffer then Throw (BufferTooShort "marker-254 Wire3 int")
        else
          Ok (Fin (byteAt buffer (offset + 1) * 16777216 +
                   byteAt buffer (offset + 2) * 65536 +
                   byteAt buffer (offset + 3) * 256 +
                   byteAt buffer (offset + 4)), 5)
      else if b0 =? WIRE3_MARKER_FLOAT64 then
        if offset + 8 >=? blen buffer then Throw (BufferTooShort "marker-255 Wire3 float64")
        else
          let value := readDoubleLE buffer (offset + 1) in
          Ok (Math_floor value, 9)
      else Throw (InvalidMarker (Some b0))
    end.

Definition encodeInt64 (signedValue : Z) : result Buffer :=
  let unsigned := signedToUnsigned signedValue in
  encodeUnsignedInt unsigned.

Definition decodeInt64 (buffer : Buffer) (offset : Z) : result (jsnum * Z) :=
  let* (unsigned, bytesRead) := decodeUnsignedInt buffer offset in
  Ok (unsignedToSigned unsigned, bytesRead).

(** The layout table read as a classification of first bytes: how many
    bytes follow the first byte in the form it declares. *)
Definition declaredExtra (b0 : Z) : Z :=
  if b0 <=? 215 then 0
  else if b0 <=? 251 then 1
  else if b0 =? 252 then 2
  else if b0 =? 253 then 3
  else if b0 =? 254 then 4
  else 8.

(** The form declared by the byte at [offset] lies within the buffer. *)
Definition formFits (buffer : Buffer) (offset : Z) : Prop :=
  exists b0, idx buffer offset = Some b0 /\ offset + declaredExtra b0 < blen buffer.

(** The first byte read is one of the 256 byte values. *)
Definition recognized (b : option Z) : Prop :=
  exists v, b = Some v /\ 0 <= v <= 255.

Definition isTruncation (e : Error) : Prop :=
  exists form, e = BufferTooShort form.

(** ** Strings *)

(** A JavaScript string is a sequence of UTF-16 code units. *)
Definition jsstring : Type := list Z.

(** A Rocq string literal as a JavaScript string. *)
Definition js (s : string) : jsstring :=
  map (fun c => Z.of_N (N_of_ascii c)) (list_ascii_of_string s).

Definition isHighSurrogate (u : Z) : bool := (55296 <=? u) && (u <=? 56319).
Definition isLowSurrogate (u : Z) : bool := (56320 <=? u) && (u <=? 57343).

(** No lone surrogate, every unit a 16-bit value. *)
Fixpoint wellFormed (s : jsstring) : bool :=
  match s with
  | [] => true
  | u :: rest =>
      if isHighSurrogate u then
        match rest with
        | lo :: rest' => isLowSurrogate lo && wellFormed rest'
        | [] => false
        end
      else if isLowSurrogate u then false
      else (0 <=? u) && (u <=? 65535) && wellFormed rest
  end.

Definition REPLACEMENT : list byte := [xef; xbf; xbd].

(** [Buffer.from(str, 'utf8')]: a surrogate pair becomes one four-byte
    sequence, a lone surrogate becomes U+FFFD. *)
Fixpoint Buffer_fromString (str : jsstring) : Buffer :=
  match str with
  | [] => []
  | u :: rest =>
      if u <? 128 then toUint8 u :: Buffer_fromString rest
      else if u <? 2048 then
        toUint8 (192 + u / 64) :: toUint8 (128 + u mod 64) :: Buffer_fromString rest
      else if isHighSurrogate u then
        match rest with
        | lo :: rest' =>
            if isLowSurrogate lo then
              let cp := 65536 + (u - 55296) * 1024 + (lo - 56320) in
              toUint8 (240 + cp / 262144) ::
              toUint8 (128 + (cp / 4096) mod 64) ::
              toUint8 (128 + (cp / 64) mod 64) ::
              toUint8 (128 + cp mod 64) :: Buffer_fromString rest'
            else REPLACEMENT ++ Buffer_fromString rest
        | [] => REPLACEMENT
        end
      else if isLowSurrogate u then REPLACEMENT ++ Buffer_fromString rest
      else
        toUint8 (224 + u / 4096) :: toUint8 (128 + (u / 64) mod 64) ::
        toUint8 (128 + u mod 64) :: Buffer_fromString rest
  end.

(** State of the UTF-8 decoder: continuation bytes still needed, the code
    point so far, and the range allowed for the next byte. *)
Record Utf8State : Type := mkUtf8 {
  needed : Z;
  codePoint : Z;
  lower : Z;
  upper : Z
}.

Definition utf8Init : Utf8State := mkUtf8 0 0 128 191.

(** A code point as UTF-16 code units. *)
Definition codeUnits (cp : Z) : jsstring :=
  if cp <? 65536 then [cp]
  else [55296 + (cp - 65536) / 1024; 56320 + (cp - 65536) mod 1024].

(** A byte met where a sequence may start. *)
Definition utf8Lead (b : Z) : Utf8State * jsstring :=
  if b <=? 127 then (utf8Init, [b])
  else if (194 <=? b) && (b <=? 223) then (mkUtf8 1 (b mod 32) 128 191, [])
  else if (224 <=? b) && (b <=? 239) then
    (mkUtf8 2 (b mod 16) (if b =? 224 then 160 else 128)
                         (if b =? 237 then 159 else 191), [])
  else if (240 <=? b) && (b <=? 244) then
    (mkUtf8 3 (b mod 8) (if b =? 240 then 144 else 128)
                        (if b =? 244 then 143 else 191), [])
  else (utf8Init, [65533]).

(** One byte of input.  A byte outside the expected range ends the pending
    sequence with U+FFFD and is then read again as a possible lead byte (the
    replacement policy of the WHATWG decoder, which Node follows). *)
Definition utf8Step (st : Utf8State) (b : Z) : Utf8State * jsstring :=
  if needed st =? 0 then utf8Lead b
  else if (lower st <=? b) && (b <=? upper st) then
    let cp := codePoint st * 64 + b mod 64 in
    if needed st =? 1 then (utf8Init, codeUnits cp)
    else (mkUtf8 (needed st - 1) cp 128 191, [])
  else
    let (st', out) := utf8Lead b in (st', 65533 :: out).

Fixpoint utf8Decode (st : Utf8State) (bytes : Buffer) : jsstring :=
  match bytes with
  | [] => if needed st =? 0 then [] else [65533]
  | b :: rest =>
      let (st', out) := utf8Step st (byteVal b) in
      out ++ utf8Decode st' rest
  end.

(** [buffer.toString('utf8')]. *)
Definition Buffer_toString (buffer : Buffer) : jsstring := utf8Decode utf8Init buffer.

(** Index adjustment of [Buffer.prototype.slice]. *)
Definition adjustOffset (offset : jsnum) (length : Z) : Z :=
  match offset with
  | NaN => 0
  | Inf true => 0
  | Inf false => length
  | Fin z => if z <? 0 then Z.max (z + length) 0 else Z.min z length
  end.

(** [buffer.slice(start, end)]. *)
Definition Buffer_slice (buffer : Buffer) (start end_ : jsnum) : Buffer :=
  let s := adjustOffset start (blen buffer) in
  let e := adjustOffset end_ (blen buffer) in
  firstn (Z.to_nat (e - s)) (skipn (Z.to_nat s) buffer).

(** [buffer.readUInt8(offset)]. *)
Definition readUInt8 (buffer : Buffer) (offset : Z) : result Z :=
  match idx buffer offset with
  | Some b => Ok b
  | None => Throw OutOfRange
  end.

(** ** Wire3 strings *)

Definition encodeString (str : jsstring) : result Buffer :=
  let strBuffer := Buffer_fromString str in
  let* lengthBuffer := encodeInt64 (blen strBuffer) in
  Ok (lengthBuffer ++ strBuffer).

(** Returns [{ value, bytesRead }]. *)
Definition decodeString (buffer : Buffer) (offset : Z) : result (jsstring * jsnum) :=
  let* (length, lengthBytes) := decodeInt64 buffer offset in
  let strStart := offset + lengthBytes in
  let strEnd := jadd strStart length in
  if jgt strEnd (blen buffer) then Throw (StringTooShort length)
  else
    let value := Buffer_toString (Buffer_slice buffer (Fin strStart) strEnd) in
    Ok (value, jadd lengthBytes length).

(** ** Messages: DU variant tag, then one string *)

Definition DEFAULT_DU_VARIANT : Z := 0.
Definition MIN_BUFFER_LENGTH : Z := 2.

Definition encodeMessage (message : jsstring) (duVariant : Z) : result Buffer :=
  let* stringEncoded := encodeString message in
  Ok (Buffer_from [duVariant] ++ stringEncoded).

(** [null] is [None].  The [try] block turns every error of [decodeString]
    into [null]; the logger is the default one, which does nothing. *)
Definition decodeMessage (buffer : Buffer) (expectedDuVariant : Z)
  : result (option jsstring) :=
  if blen buffer <? MIN_BUFFER_LENGTH then Ok None
  else
    let* actualDuVariant := readUInt8 buffer 0 in
    if negb (actualDuVariant =? expectedDuVariant) then Ok None
    else
      match decodeString buffer 1 with
      | Ok (message, bytesRead) => Ok (Some message)
      | Throw e => Ok None
      end.


(** ** Session identifiers *)

Definition SESSION_ID_MIN : Z := 10000.
Definition SESSION_ID_RANGE : Z := 990000.
Definition SESSION_ID_PADDING_LENGTH : nat := 40.
Definition SESSION_ID_PADDING_CHARS : jsstring :=
  js "c04b8f7b594cdeedebc2a8029b82943b0a620815".

(** Decimal digits of a non-negative integer, most significant first. *)
Fixpoint digitsFuel (fuel : nat) (n : Z) : jsstring :=
  match fuel with
  | O => []
  | S fuel' =>
      if n <? 10 then [48 + n]
      else digitsFuel fuel' (n / 10) ++ [48 + n mod 10]
  end.

(** [n.toString()] for an integer [n] below 10^21 in magnitude; the fuel
    suffices because a number has no more decimal digits than binary
    ones. *)
Definition Number_toString (n : Z) : jsstring :=
  if n <? 0 then 45 :: digitsFuel (S (Z.to_nat (Z.log2 (- n)))) (- n)
  else digitsFuel (S (Z.to_nat (Z.log2 n))) n.

(** [str.padEnd(targetLength, padString)]: the filler is repeated and cut
    to the missing length. *)
Definition padEnd (str : jsstring) (targetLength : nat) (padString : jsstring)
  : jsstring :=
  if (targetLength <=? List.length str)%nat then str
  else
    match padString with
    | [] => str
    | _ =>
        let fillLen := (targetLength - List.length str)%nat in
        str ++ firstn fillLen (List.concat (repeat padString fillLen))
    end.

(** [draw] is [Math.floor(Math.random() * SESSION_ID_RANGE)], an integer of
    [0, SESSION_ID_RANGE). *)
Definition generateSessionId (draw : Z) : jsstring :=
  let randomNum := draw + SESSION_ID_MIN in
  padEnd (Number_toString randomNum) SESSION_ID_PADDING_LENGTH SESSION_ID_PADDING_CHARS.

Definition createSessionCookie (sessionId : jsstring) : jsstring :=
  js "sid=" ++ sessionId.

(** The number a string of decimal digits denotes. *)
Definition decimalValue (digits : jsstring) : Z :=
  fold_left (fun acc c => acc * 10 + (c - 48)) digits 0.

Definition isDecimal (c : Z) : Prop := 48 <= c <= 57.

(** One of [0-9a-f]. *)
Definition isHex (c : Z) : Prop := 48 <= c <= 57 \/ 97 <= c <= 102.

(** ** Transport framing *)

Definition BASE64_ALPHABET : jsstring :=
  js "ABCDEFGHIJKLMNOPQRSTUVWXYZabcdefghijklmnopqrstuvwxyz0123456789+/".

Definition base64Char (i : Z) : Z := nth (Z.to_nat i) BASE64_ALPHABET 61.

(** [buffer.toString('base64')]: standard alphabet, padded. *)
Fixpoint Buffer_toBase64 (buffer : Buffer) : jsstring :=
  match buffer with
  | [] => []
  | [a] =>
      let a := byteVal a in
      [base64Char (a / 4); base64Char ((a mod 4) * 16); 61; 61]
  | [a; b] =>
      let a := byteVal a in let b := byteVal b in
      [base64Char (a / 4); base64Char ((a mod 4) * 16 + b / 16);
       base64Char ((b mod 16) * 4); 61]
  | a :: b :: c :: rest =>
      let a := byteVal a in let b := byteVal b in let c := byteVal c in
      base64Char (a / 4) :: base64Char ((a mod 4) * 16 + b / 16) ::
      base64Char ((b mod 16) * 4 + c / 64) :: base64Char (c mod 64) ::
      Buffer_toBase64 rest
  end.

Definition hexDigit (d : Z) : Z := if d <? 10 then 48 + d else 87 + d.

(** The escape [\uXXXX]. *)
Definition unicodeEscape (u : Z) : jsstring :=
  [92; 117; hexDigit (u / 4096); hexDigit ((u / 256) mod 16);
   hexDigit ((u / 16) mod 16); hexDigit (u mod 16)].

(** The body of [QuoteJSONString]. *)
Fixpoint jsonEscape (s : jsstring) : jsstring :=
  match s with
  | [] => []
  | u :: rest =>
      if u =? 8 then 92 :: 98 :: jsonEscape rest
      else if u =? 9 then 92 :: 116 :: jsonEscape rest
      else if u =? 10 then 92 :: 110 :: jsonEscape rest
      else if u =? 12 then 92 :: 102 :: jsonEscape rest
      else if u =? 13 then 92 :: 114 :: jsonEscape rest
      else if u =? 34 then 92 :: 34 :: jsonEscape rest
      else if u =? 92 then 92 :: 92 :: jsonEscape rest
      else if u <? 32 then unicodeEscape u ++ jsonEscape rest
      else if isHighSurrogate u then
        match rest with
        | lo :: rest' =>
            if isLowSurrogate lo then u :: lo :: jsonEscape rest'
            else unicodeEscape u ++ jsonEscape rest
        | [] => unicodeEscape u
        end
      else if isLowSurrogate u then unicodeEscape u ++ jsonEscape rest
      else u :: jsonEscape rest
  end.

Definition jsonQuote (s : jsstring) : jsstring := 34 :: jsonEscape s ++ [34].

(** Truthiness of a value that is a string or [null]. *)
Definition truthy (v : option jsstring) : bool :=
  match v with
  | Some (_ :: _) => true
  | _ => false
  end.

(** [a || b]. *)
Definition orElse (a : option jsstring) (b : jsstring) : jsstring :=
  match a with
  | Some (c :: s) => c :: s
  | _ => b
  end.

Definition jsonMember (key : string) (value : jsstring) : jsstring :=
  jsonQuote (js key) ++ [58] ++ jsonQuote value.

(** [JSON.stringify({ t: 'ToBackend', s, c, b })]. *)
Definition createTransportMessage (sessionId : jsstring) (connectionId : option jsstring)
    (message : jsstring) (duVariant : Z) : result jsstring :=
  let* encoded := encodeMessage message duVariant in
  Ok ([123] ++ jsonMember "t" (js "ToBackend") ++
      [44] ++ jsonMember "s" sessionId ++
      [44] ++ jsonMember "c" (orElse connectionId sessionId) ++
      [44] ++ jsonMember "b" (Buffer_toBase64 encoded) ++ [125]).

(** An inbound text frame after [JSON.parse]: either the parse (or the
    first property access, on [null]) throws, or it yields a value whose
    recognised keys are [t], [l], [b], [s], [c].  [frame_b] holds the bytes
    [Buffer.from(parsed.b, 'base64')] yields, when [parsed.b] is truthy. *)
Record JsonFrame : Type := mkFrame {
  frame_t : option jsstring;
  frame_l : option jsstring;
  frame_b : option Buffer;
  frame_s : option jsstring;
  frame_c : option jsstring
}.

Inductive Inbound : Type :=
| Malformed (raw : jsstring)
| Parsed (frame : JsonFrame).

(** The classification [parseTransportMessage] returns. *)
Inductive TransportMessage : Type :=
| TElection (leaderId : option jsstring)
| TMessage (data : jsstring) (sessionId connectionId : option jsstring)
| TProtocol (sessionId connectionId : option jsstring)
| TError (rawData : jsstring).

Definition jsstring_eqb (a b : jsstring) : bool :=
  if list_eq_dec Z.eq_dec a b then true else false.

(** [a === b] on values that are strings or [null]. *)
Definition strictEq (a b : option jsstring) : bool :=
  match a, b with
  | Some x, Some y => jsstring_eqb x y
  | None, None => true
  | _, _ => false
  end.

Definition parseTransportMessage (data : Inbound) (expectedDuVariant : Z)
  : TransportMessage :=
  match data with
  | Malformed raw => TError raw
  | Parsed parsed =>
      if strictEq (frame_t parsed) (Some (js "e")) then TElection (frame_l parsed)
      else
        match frame_b parsed with
        | Some binaryData =>
            match decodeMessage binaryData expectedDuVariant with
            | Ok (Some message) =>
                TMessage message (frame_s parsed) (frame_c parsed)
            | Ok None => TProtocol (frame_s parsed) (frame_c parsed)
            | Throw e => TError []
            end
        | None => TProtocol (frame_s parsed) (frame_c parsed)
        end
  end.

(** [extractSessionFromCookie]: the first match of [/sid=([^;]+)/]. *)
Fixpoint takeUntilSemicolon (s : jsstring) : jsstring :=
  match s with
  | [] => []
  | c :: rest => if c =? 59 then [] else c :: takeUntilSemicolon rest
  end.

Fixpoint extractSessionFromCookie (cookieString : jsstring) : option jsstring :=
  match cookieString with
  | [] => None
  | c :: rest =>
      match cookieString with
      | 115 :: 105 :: 100 :: 61 :: value =>
          match takeUntilSemicolon value with
          | [] => extractSessionFromCookie rest
          | sid => Some sid
          end
      | _ => extractSessionFromCookie rest
      end
  end.

(** ** The connection object *)

Inductive ReadyState : Type := CONNECTING | OPEN | CLOSING | CLOSED.

Definition readyStateCode (rs : ReadyState) : Z :=
  match rs with
  | CONNECTING => 0
  | OPEN => 1
  | CLOSING => 2
  | CLOSED => 3
  end.

(** The underlying WebSocket, as far as the adapter reads it. *)
Record Socket : Type := mkSocket {
  ws_readyState : ReadyState;
  ws_bufferedAmount : Z
}.

(** [this._state]. *)
Record RetryState : Type := mkRetryState {
  setupCalled : bool;
  isReady : bool;
  retryCount : Z;
  retryTimeout : option nat;
  messageQueue : list jsstring
}.

(** The callback slots: [true] when the caller has installed a handler. *)
Record Callbacks : Type := mkCallbacks {
  onopen : bool;
  onmessage : bool;
  onclose : bool;
  onerror : bool;
  onsetup : bool;
  onleaderdisconnect : bool
}.

Record LamderaWebSocket : Type := mkLamderaWebSocket {
  duVariant : Z;
  maxRetries : Z;
  callbacks : Callbacks;
  sessionId : jsstring;
  cookie : jsstring;
  connectionId : option jsstring;
  clientId : option jsstring;
  leaderId : option jsstring;
  readyState : ReadyState;
  bufferedAmount : Z;
  _ws : option Socket;
  _state : RetryState
}.

(** What the adapter does to the outside, in order. *)
Inductive Effect : Type :=
| SocketSend (frame : jsstring)
| SocketClose (code : option Z) (reason : option jsstring)
| SetTimeout (timer : nat)
| ClearTimeout (timer : nat)
| Fire_onopen
| Fire_onsetup (clientId leaderId : option jsstring) (isLeader : bool)
| Fire_onmessage (data : jsstring)
| Fire_onclose
| Fire_onerror
| Fire_onleaderdisconnect (retryCount : Z).

(** The object together with the host's side of it: the retry timers still
    pending, the next timer handle, whether the initial-connect timer is
    pending, whether [_initWebSocket] is suspended at its [await], and the
    effects so far. *)
Record World : Type := mkWorld {
  self : LamderaWebSocket;
  timers : list nat;
  nextTimer : nat;
  initialTimer : bool;
  initSuspended : bool;
  log : list Effect
}.

(** Field assignments.  [set_x v w] is [this.x = v]. *)

Definition world_self (v : LamderaWebSocket) (w : World) : World :=
  mkWorld v (timers w) (nextTimer w) (initialTimer w) (initSuspended w) (log w).

Definition world_timers (v : list nat) (w : World) : World :=
  mkWorld (self w) v (nextTimer w) (initialTimer w) (initSuspended w) (log w).

Definition world_nextTimer (v : nat) (w : World) : World :=
  mkWorld (self w) (timers w) v (initialTimer w) (initSuspended w) (log w).

Definition world_initialTimer (v : bool) (w : World) : World :=
  mkWorld (self w) (timers w) (nextTimer w) v (initSuspended w) (log w).

Definition world_initSuspended (v : bool) (w : World) : World :=
  mkWorld (self w) (timers w) (nextTimer w) (initialTimer w) v (log w).

Definition world_log (v : list Effect) (w : World) : World :=
  mkWorld (self w) (timers w) (nextTimer w) (initialTimer w) (initSuspended w) v.

Definition obj_callbacks (v : Callbacks) (o : LamderaWebSocket) : LamderaWebSocket :=
  mkLamderaWebSocket (duVariant o) (maxRetries o) v (sessionId o) (cookie o) (connectionId o) (clientId o) (leaderId o) (readyState o) (bufferedAmount o) (_ws o) (_state o).

Definition obj_sessionId (v : jsstring) (o : LamderaWebSocket) : LamderaWebSocket :=
  mkLamderaWebSocket (duVariant o) (maxRetries o) (callbacks o) v (cookie o) (connectionId o) (clientId o) (leaderId o) (readyState o) (bufferedAmount o) (_ws o) (_state o).

Definition obj_cookie (v : jsstring) (o : LamderaWebSocket) : LamderaWebSocket :=
  mkLamderaWebSocket (duVariant o) (maxRetries o) (callbacks o) (sessionId o) v (connectionId o) (clientId o) (leaderId o) (readyState o) (bufferedAmount o) (_ws o) (_state o).

Definition obj_connectionId (v : option jsstring) (o : LamderaWebSocket) : LamderaWebSocket :=
  mkLamderaWebSocket (duVariant o) (maxRetries o) (callbacks o) (sessionId o) (cookie o) v (clientId o) (leaderId o) (readyState o) (bufferedAmount o) (_ws o) (_state o).

Definition obj_clientId (v : option jsstring) (o : LamderaWebSocket) : LamderaWebSocket :=
  mkLamderaWebSocket (duVariant o) (maxRetries o) (callbacks o) (sessionId o) (cookie o) (connectionId o) v (leaderId o) (readyState o) (bufferedAmount o) (_ws o) (_state o).

Definition obj_leaderId (v : option jsstring) (o : LamderaWebSocket) : LamderaWebSocket :=
  mkLamderaWebSocket (duVariant o) (maxRetries o) (callbacks o) (sessionId o) (cookie o) (connectionId o) (clientId o) v (readyState o) (bufferedAmount o) (_ws o) (_state o).

Definition obj_readyState (v : ReadyState) (o : LamderaWebSocket) : LamderaWebSocket :=
  mkLamderaWebSocket (duVariant o) (maxRetries o) (callbacks o) (sessionId o) (cookie o) (connectionId o) (clientId o) (leaderId o) v (bufferedAmount o) (_ws o) (_state o).

Definition obj_bufferedAmount (v : Z) (o : LamderaWebSocket) : LamderaWebSocket :=
  mkLamderaWebSocket (duVariant o) (maxRetries o) (callbacks o) (sessionId o) (cookie o) (connectionId o) (clientId o) (leaderId o) (readyState o) v (_ws o) (_state o).

Definition obj_ws (v : option Socket) (o : LamderaWebSocket) : LamderaWebSocket :=
  mkLamderaWebSocket (duVariant o) (maxRetries o) (callbacks o) (sessionId o) (cookie o) (connectionId o) (clientId o) (leaderId o) (readyState o) (bufferedAmount o) v (_state o).

Definition obj_state (v : RetryState) (o : LamderaWebSocket) : LamderaWebSocket :=
  mkLamderaWebSocket (duVariant o) (maxRetries o) (callbacks o) (sessionId o) (cookie o) (connectionId o) (clientId o) (leaderId o) (readyState o) (bufferedAmount o) (_ws o) v.

Definition st_setupCalled (v : bool) (s : RetryState) : RetryState :=
  mkRetryState v (isReady s) (retryCount s) (retryTimeout s) (messageQueue s).

Definition st_isReady (v : bool) (s : RetryState) : RetryState :=
  mkRetryState (setupCalled s) v (retryCount s) (retryTimeout s) (messageQueue s).

Definition st_retryCount (v : Z) (s : RetryState) : RetryState :=
  mkRetryState (setupCalled s) (isReady s) v (retryTimeout s) (messageQueue s).

Definition st_retryTimeout (v : option nat) (s : RetryState) : RetryState :=
  mkRetryState (setupCalled s) (isReady s) (retryCount s) v (messageQueue s).

Definition st_messageQueue (v : list jsstring) (s : RetryState) : RetryState :=
  mkRetryState (setupCalled s) (isReady s) (retryCount s) (retryTimeout s) v.


Definition set_callbacks (v : Callbacks) (w : World) : World :=
  world_self (obj_callbacks v (self w)) w.

Definition set_sessionId (v : jsstring) (w : World) : World :=
  world_self (obj_sessionId v (self w)) w.

Definition set_cookie (v : jsstring) (w : World) : World :=
  world_self (obj_cookie v (self w)) w.

Definition set_connectionId (v : option jsstring) (w : World) : World :=
  world_self (obj_connectionId v (self w)) w.

Definition set_clientId (v : option jsstring) (w : World) : World :=
  world_self (obj_clientId v (self w)) w.

Definition set_leaderId (v : option jsstring) (w : World) : World :=
  world_self (obj_leaderId v (self w)) w.

Definition set_readyState (v : ReadyState) (w : World) : World :=
  world_self (obj_readyState v (self w)) w.

Definition set_bufferedAmount (v : Z) (w : World) : World :=
  world_self (obj_bufferedAmount v (self w)) w.

Definition set_ws (v : option Socket) (w : World) : World :=
  world_self (obj_ws v (self w)) w.

Definition set_setupCalled (v : bool) (w : World) : World :=
  world_self (obj_state (st_setupCalled v (_state (self w))) (self w)) w.

Definition set_isReady (v : bool) (w : World) : World :=
  world_self (obj_state (st_isReady v (_state (self w))) (self w)) w.

Definition set_retryCount (v : Z) (w : World) : World :=
  world_self (obj_state (st_retryCount v (_state (self w))) (self w)) w.

Definition set_retryTimeout (v : option nat) (w : World) : World :=
  world_self (obj_state (st_retryTimeout v (_state (self w))) (self w)) w.

Definition set_messageQueue (v : list jsstring) (w : World) : World :=
  world_self (obj_state (st_messageQueue v (_state (self w))) (self w)) w.

Definition emit (e : Effect) (w : World) : World := world_log (log w ++ [e]) w.

(** [setTimeout(callback, delay)] for the reconnect: a fresh handle, now
    pending.  The delay (a float with random jitter) is not modelled. *)
Definition setRetryTimer (w : World) : World * nat :=
  let t := nextTimer w in
  (emit (SetTimeout t) (world_nextTimer (S t) (world_timers (timers w ++ [t]) w)), t).

(** [clearTimeout(handle)]. *)
Definition clearTimeout (t : nat) (w : World) : World :=
  emit (ClearTimeout t) (world_timers (filter (fun x => negb (Nat.eqb x t)) (timers w)) w).

Definition DEFAULT_MAX_RETRIES : Z := 10.

(** Constructor options; [None] is [undefined]. *)
Record Options : Type := mkOptions {
  opt_duVariant : option Z;
  opt_maxRetries : option Z;
  opt_sessionId : option jsstring;
  opt_cookie : option jsstring
}.

(** [option || fallback] on numbers. *)
Definition numberOr (v : option Z) (fallback : Z) : Z :=
  match v with
  | Some n => if n =? 0 then fallback else n
  | None => fallback
  end.

(** [new LamderaWebSocket(url, protocols, options)]; [draw] feeds
    [generateSessionId] when no session is supplied.  The first connect is
    left to the initial-delay timer. *)
Definition construct (options : Options) (draw : Z) : World :=
  let session :=
    if truthy (opt_cookie options) then
      match opt_cookie options with
      | Some c =>
          (match extractSessionFromCookie c with
           | Some (x :: sid) => x :: sid
           | _ => generateSessionId draw
           end, c)
      | None => ([], [])
      end
    else if truthy (opt_sessionId options) then
      match opt_sessionId options with
      | Some sid => (sid, createSessionCookie sid)
      | None => ([], [])
      end
    else
      let sid := generateSessionId draw in (sid, createSessionCookie sid) in
  mkWorld
    (mkLamderaWebSocket
       (numberOr (opt_duVariant options) DEFAULT_DU_VARIANT)
       (numberOr (opt_maxRetries options) DEFAULT_MAX_RETRIES)
       (mkCallbacks false false false false false false)
       (fst session) (snd session)
       None None None
       CONNECTING 0
       None
       (mkRetryState false false 0 None []))
    [] 1%nat true false [].

(** The body of [_initWebSocket] after [await getWebSocketImpl()]: the
    socket is created, the handlers are attached and [syncReadyState] runs
    once; without an implementation the [catch] block closes the object. *)
Definition syncReadyState (w : World) : World :=
  match _ws (self w) with
  | Some ws => set_bufferedAmount (ws_bufferedAmount ws) (set_readyState (ws_readyState ws) w)
  | None => w
  end.

Definition _initWebSocket_resume (available : bool) (w : World) : World :=
  let w := world_initSuspended false w in
  if available then
    let w := set_ws (Some (mkSocket CONNECTING 0)) w in
    syncReadyState w
  else
    let w := set_readyState CLOSED w in
    if onerror (callbacks (self w)) then emit Fire_onerror w else w.

(** [_initWebSocket()] up to its first [await]. *)
Definition _initWebSocket (w : World) : World := world_initSuspended true w.

(** [this._ws.onopen]. *)
Definition ws_onopen (w : World) : World :=
  let w := set_readyState OPEN w in
  let w := set_isReady true w in
  let queued := messageQueue (_state (self w)) in
  let w := fold_left (fun w message => emit (SocketSend message) w) queued w in
  set_messageQueue [] w.

Definition _disconnectInternal (w : World) : World :=
  let w := match retryTimeout (_state (self w)) with
           | Some t => set_retryTimeout None (clearTimeout t w)
           | None => w
           end in
  let w := match _ws (self w) with
           | Some ws => set_ws None (emit (SocketClose None None) w)
           | None => w
           end in
  let w := set_isReady false w in
  let w := set_messageQueue [] w in
  let w := set_connectionId None w in
  let w := set_clientId None w in
  set_leaderId None w.

Definition _handleLeaderDisconnection (w : World) : World :=
  let w := set_retryCount (retryCount (_state (self w)) + 1) w in
  let w := set_readyState CONNECTING w in
  let w := _disconnectInternal w in
  if retryCount (_state (self w)) <=? maxRetries (self w) then
    let (w, t) := setRetryTimer w in
    set_retryTimeout (Some t) w
  else
    let w := set_readyState CLOSED w in
    if onleaderdisconnect (callbacks (self w))
    then emit (Fire_onleaderdisconnect (retryCount (_state (self w)))) w
    else w.

(** The result of [_evaluateLeaderStatus]; [None] is [null]. *)
Record Evaluation : Type := mkEvaluation {
  previousLeader : option jsstring;
  newLeader : option jsstring;
  iAmLeader : bool;
  actionDisconnect : bool
}.

Definition _evaluateLeaderStatus (newLeaderId : option jsstring) (w : World)
  : option Evaluation :=
  if negb (truthy newLeaderId) || negb (truthy (clientId (self w))) then None
  else
    Some (mkEvaluation (leaderId (self w)) newLeaderId
            (strictEq (clientId (self w)) newLeaderId)
            (strictEq (clientId (self w)) newLeaderId)).

(** Returns whether the caller must stop handling the frame. *)
Definition _applyLeaderStatusChange (evaluation : option Evaluation) (w : World)
  : World * bool :=
  match evaluation with
  | None => (w, false)
  | Some evaluation =>
      let w := set_leaderId (newLeader evaluation) w in
      if actionDisconnect evaluation then (_handleLeaderDisconnection w, true)
      else (w, false)
  end.

(** [this._ws.onmessage]. *)
Definition ws_onmessage (data : Inbound) (w : World) : World :=
  match parseTransportMessage data (duVariant (self w)) with
  | TProtocol sid cid =>
      if truthy cid then
        let wasInitialHandshake := negb (truthy (connectionId (self w))) in
        if wasInitialHandshake then
          let w := set_connectionId cid w in
          let w := set_clientId cid w in
          let w := if 0 <? retryCount (_state (self w))
                   then set_retryCount 0 w else w in
          let w := if onopen (callbacks (self w)) then emit Fire_onopen w else w in
          if onsetup (callbacks (self w)) && negb (setupCalled (_state (self w))) then
            let w := set_setupCalled true w in
            emit (Fire_onsetup (clientId (self w)) (leaderId (self w)) false) w
          else w
        else w
      else w
  | TElection leader =>
      fst (_applyLeaderStatusChange (_evaluateLeaderStatus leader w) w)
  | TMessage message sid cid =>
      if onmessage (callbacks (self w)) then emit (Fire_onmessage message) w else w
  | TError raw => w
  end.

(** [this._ws.onclose] and [this._ws.onerror]. *)
Definition ws_onclose (w : World) : World :=
  let w := set_readyState CLOSED w in
  if onclose (callbacks (self w)) then emit Fire_onclose w else w.

Definition ws_onerror (w : World) : World :=
  if onerror (callbacks (self w)) then emit Fire_onerror w else w.

(** The callback of the retry timer. *)
Definition retryTimerCallback (draw : Z) (w : World) : World :=
  let w := set_sessionId (generateSessionId draw) w in
  let w := set_cookie (createSessionCookie (sessionId (self w))) w in
  let w := set_setupCalled false w in
  _initWebSocket w.

(** [send(data)]. *)
Definition send (data : jsstring) (w : World) : result World :=
  if (0 <? retryCount (_state (self w))) &&
     (retryCount (_state (self w)) <=? maxRetries (self w)) then Ok w
  else
    match readyState (self w) with
    | CONNECTING =>
        let* transportMessage :=
          createTransportMessage (sessionId (self w)) (connectionId (self w)) data
            (duVariant (self w)) in
        Ok (set_messageQueue (messageQueue (_state (self w)) ++ [transportMessage]) w)
    | OPEN =>
        let* transportMessage :=
          createTransportMessage (sessionId (self w)) (connectionId (self w)) data
            (duVariant (self w)) in
        match _ws (self w) with
        | Some ws => Ok (emit (SocketSend transportMessage) w)
        | None => Throw NullDereference
        end
    | rs => Throw (NotOpen (readyStateCode rs))
    end.

(** [ws.close()] moves a socket that is not yet closed to CLOSING. *)
Definition socketClose (ws : Socket) : Socket :=
  match ws_readyState ws with
  | CLOSED => ws
  | _ => mkSocket CLOSING (ws_bufferedAmount ws)
  end.

(** [close(code, reason)]. *)
Definition close (code : option Z) (reason : option jsstring) (w : World) : World :=
  let w := match retryTimeout (_state (self w)) with
           | Some t => set_retryTimeout None (clearTimeout t w)
           | None => w
           end in
  let w := set_readyState CLOSING w in
  match _ws (self w) with
  | Some ws => set_ws (Some (socketClose ws)) (emit (SocketClose code reason) w)
  | None => set_readyState CLOSED w
  end.

(** ** The event loop *)

(** What can happen to the object: a timer fires, [_initWebSocket] resumes
    after its [await] (with or without a WebSocket implementation), the
    underlying socket reports something, the 100 ms poll runs, or the caller
    assigns callbacks or calls a method.  The bodies of the caller's
    callbacks are not part of the object; their calls to [send] and [close]
    appear as events of their own.  The host is not constrained further:
    the events may come in any order. *)
Inductive Event : Type :=
| InitialTimerFired
| RetryTimerFired (t : nat) (draw : Z)
| InitResumed (available : bool)
| SocketOpened
| SocketMessage (data : Inbound)
| SocketClosed
| SocketErrored
| SocketChanged (rs : ReadyState) (buffered : Z)
| SyncTick
| AssignCallbacks (cb : Callbacks)
| CallSend (data : jsstring)
| CallClose (code : option Z) (reason : option jsstring).

Definition removeTimer (t : nat) (w : World) : World :=
  world_timers (filter (fun x => negb (Nat.eqb x t)) (timers w)) w.

Definition hasTimer (t : nat) (w : World) : bool :=
  existsb (Nat.eqb t) (timers w).

(** An event that is not enabled (a timer that is not pending, a report of
    a socket whose handlers are detached) leaves the world as it is; a
    [send] that throws leaves it unchanged as well. *)
Definition step (e : Event) (w : World) : World :=
  match e with
  | InitialTimerFired =>
      if initialTimer w then _initWebSocket (world_initialTimer false w) else w
  | RetryTimerFired t draw =>
      if hasTimer t w then retryTimerCallback draw (removeTimer t w) else w
  | InitResumed available =>
      if initSuspended w then _initWebSocket_resume available w else w
  | SocketOpened =>
      match _ws (self w) with
      | Some ws => ws_onopen (set_ws (Some (mkSocket OPEN (ws_bufferedAmount ws))) w)
      | None => w
      end
  | SocketMessage data =>
      match _ws (self w) with
      | Some ws => ws_onmessage data w
      | None => w
      end
  | SocketClosed =>
      match _ws (self w) with
      | Some ws => ws_onclose (set_ws (Some (mkSocket CLOSED (ws_bufferedAmount ws))) w)
      | None => w
      end
  | SocketErrored =>
      match _ws (self w) with
      | Some ws => ws_onerror w
      | None => w
      end
  | SocketChanged rs buffered =>
      match _ws (self w) with
      | Some ws => set_ws (Some (mkSocket rs buffered)) w
      | None => w
      end
  | SyncTick => syncReadyState w
  | AssignCallbacks cb => set_callbacks cb w
  | CallSend data =>
      match send data w with
      | Ok w' => w'
      | Throw e => w
      end
  | CallClose code reason => close code reason w
  end.

Definition run (events : list Event) (w : World) : World :=
  fold_left (fun w e => step e w) events w.

Inductive reachable : World -> Prop :=
| reachable_construct options draw : reachable (construct options draw)
| reachable_step e w : reachable w -> reachable (step e w).

(** What holds of every reachable world. *)
Record Invariant (w : World) : Prop := mkInvariant {
  inv_open_socket : readyState (self w) = OPEN -> _ws (self w) <> None;
  inv_timer_handle :
    forall t, In t (timers w) -> retryTimeout (_state (self w)) = Some t;
  inv_timer_socket : timers w <> [] -> _ws (self w) = None;
  inv_suspended :
    initSuspended w = true -> _ws (self w) = None /\ timers w = [];
  inv_initial :
    initialTimer w = true ->
    _ws (self w) = None /\ timers w = [] /\ initSuspended w = false
}.

(** The retry counter in a reachable world. *)
Definition RetryInvariant (w : World) : Prop :=
  0 <= retryCount (_state (self w)) <= 1 /\
  (truthy (clientId (self w)) = true -> retryCount (_state (self w)) = 0).

(** ** Frames and scenarios used in the statements *)

(** The election frame [{t:"e", l:leader}]. *)
Definition electionFrame (leader : jsstring) : Inbound :=
  Parsed (mkFrame (Some (js "e")) (Some leader) None None None).

(** The handshake: a protocol frame carrying a connection id. *)
Definition handshakeFrame (connection : jsstring) : Inbound :=
  Parsed (mkFrame None None None None (Some connection)).

Definition allCallbacks : Callbacks := mkCallbacks true true true true true true.

(** A client with [maxRetries = 2] whose socket has opened; no handshake
    yet. *)
Definition connectedWorld : World :=
  run [AssignCallbacks allCallbacks; InitialTimerFired; InitResumed true; SocketOpened]
      (construct (mkOptions None (Some 2) None None) 0).

(** The same client after the handshake gave it the id [X1]. *)
Definition handshakenWorld : World :=
  step (SocketMessage (handshakeFrame (js "X1"))) connectedWorld.

Definition firedLeaderDisconnect (w : World) : bool :=
  existsb (fun e => match e with Fire_onleaderdisconnect _ => true | _ => false end)
          (log w).

(** ** Code of the test suite used in the statements *)

(** The loop of the sequential-decoding tests:
    [while (offset < combined.length) { decode at offset; push; advance }].
    [None] means the fuel ran out before the loop ended. *)
Fixpoint decodeInt64Sequence (fuel : nat) (combined : Buffer) (offset : Z)
  : option (result (list jsnum)) :=
  match fuel with
  | O => None
  | S fuel' =>
      if offset <? blen combined then
        match decodeInt64 combined offset with
        | Throw e => Some (Throw e)
        | Ok (value, bytesRead) =>
            match decodeInt64Sequence fuel' combined (offset + bytesRead) with
            | Some (Ok decoded) => Some (Ok (value :: decoded))
            | other => other
            end
        end
      else Some (Ok [])
  end.

(** [Buffer.concat(nums.map(n => encodeInt64(n)))]. *)
Fixpoint encodeInt64Sequence (nums : list Z) : result Buffer :=
  match nums with
  | [] => Ok []
  | n :: rest =>
      let* enc := encodeInt64 n in
      let* tail := encodeInt64Sequence rest in
      Ok (enc ++ tail)
  end.

(** The comparison of the monotonicity test: shorter first, then the first
    byte that differs decides; equal buffers pass. *)
Fixpoint firstDifference (encA encB : Buffer) : bool :=
  match encA, encB with
  | x :: restA, y :: restB =>
      if negb (byteVal x =? byteVal y) then byteVal x <? byteVal y
      else firstDifference restA restB
  | _, _ => true
  end.

Definition precedes (encA encB : Buffer) : bool :=
  if negb (blen encA =? blen encB) then blen encA <? blen encB
  else firstDifference encA encB.

(** The bytes of a buffer read as one big-endian number. *)
Definition beValue (buffer : Buffer) : Z :=
  fold_left (fun acc b => acc * 256 + byteVal b) buffer 0.

(** ** Hex dump *)

(** Hexadecimal digits of a non-negative integer, most significant first. *)
Fixpoint hexDigitsFuel (fuel : nat) (n : Z) : jsstring :=
  match fuel with
  | O => []
  | S fuel' =>
      if n <? 16 then [hexDigit n]
      else hexDigitsFuel fuel' (n / 16) ++ [hexDigit (n mod 16)]
  end.

(** [n.toString(16)] for a non-negative integer. *)
Definition Number_toString16 (n : Z) : jsstring :=
  hexDigitsFuel (S (Z.to_nat (Z.log2 n))) n.

(** [str.padStart(targetLength, padString)]. *)
Definition padStart (str : jsstring) (targetLength : nat) (padString : jsstring)
  : jsstring :=
  if (targetLength <=? List.length str)%nat then str
  else
    match padString with
    | [] => str
    | _ =>
        let fillLen := (targetLength - List.length str)%nat in
        firstn fillLen (List.concat (repeat padString fillLen)) ++ str
    end.

(** [array.join(separator)]. *)
Fixpoint join (separator : jsstring) (parts : list jsstring) : jsstring :=
  match parts with
  | [] => []
  | [part] => part
  | part :: rest => part ++ separator ++ join separator rest
  end.

Definition bufferToHex (buffer : Buffer) : jsstring :=
  join (js " ")
       (map (fun b => padStart (Number_toString16 (byteVal b)) 2 (js "0")) buffer).

(** What else holds of every reachable world: the two ids the handshake
    stores, the leader, and the state while a reconnect is pending. *)
Record Coherence (w : World) : Prop := mkCoherence {
  coh_ids : connectionId (self w) = clientId (self w);
  coh_client_socket : truthy (clientId (self w)) = true -> _ws (self w) <> None;
  coh_leader :
    forall L, leaderId (self w) = Some L ->
              L <> [] /\ truthy (clientId (self w)) = true /\
              clientId (self w) <> Some L;
  coh_retry_pending :
    timers w <> [] ->
    readyState (self w) = CONNECTING /\ retryCount (_state (self w)) = 1 /\
    1 <= maxRetries (self w)
}.

(** The session id and the cookie are those of [w]. *)
Definition sameSession (w' w : World) : Prop :=
  sessionId (self w') = sessionId (self w) /\ cookie (self w') = cookie (self w).

(** A client that has started to connect: the initial timer has fired and
    the socket exists but has not opened. *)
Definition connectingWorld : World :=
  run [AssignCallbacks allCallbacks; InitialTimerFired; InitResumed true]
      (construct (mkOptions None None None None) 0).


(** * Properties *)

(** ** The repository's own test vectors, evaluated on the embedding *)

Example zigzag_vectors :
  map signedToUnsigned [0; 1; -1; 2; -2; 100; -100] = [0; 2; 1; 4; 3; 200; 199].
Proof. reflexivity. Qed.

Example encodeInt64_vectors :
  map encodeInt64 [0; 1; -1; 100; -100; 107; 108] =
  [Ok [x00]; Ok [x02]; Ok [x01]; Ok [xc8]; Ok [xc7]; Ok [xd6]; Ok [xd8; x00]].
Proof. reflexivity. Qed.

Example encodeUnsignedInt_boundaries :
  map encodeUnsignedInt [9431; 9432; 65535; 65536] =
  [Ok [xfb; xff]; Ok [xfc; x24; xd8]; Ok [xfc; xff; xff]; Ok [xfd; x01; x00; x00]].
Proof. reflexivity. Qed.

Example encodeString_vectors :
  encodeString (js "") = Ok [x00] /\
  encodeString (js "hello") = Ok [x0a; x68; x65; x6c; x6c; x6f] /\
  encodeString [26085; 26412; 35486] =
    Ok [x12; xe6; x97; xa5; xe6; x9c; xac; xe8; xaa; x9e].
Proof. repeat split; reflexivity. Qed.

Example encodeMessage_vectors :
  encodeMessage (js "") 0 = Ok [x00; x00] /\
  encodeMessage (js "hi") 0 = Ok [x00; x04; x68; x69] /\
  encodeMessage (js "hello") 0 = Ok [x00; x0a; x68; x65; x6c; x6c; x6f].
Proof. repeat split; reflexivity. Qed.

Example truncated_integer_raises :
  decodeInt64 [xfc; x24] 0 = Throw (BufferTooShort "marker-252 Wire3 int").
Proof. reflexivity. Qed.

(** A surrogate pair travels as one four-byte sequence and comes back. *)
Example emoji_round_trip :
  Buffer_fromString [55357; 56832] = [xf0; x9f; x98; x80] /\
  Buffer_toString [xf0; x9f; x98; x80] = [55357; 56832].
Proof. split; reflexivity. Qed.

Example createTransportMessage_vector :
  createTransportMessage (js "abc") None (js "hi") 0 =
  Ok ([123] ++ jsonMember "t" (js "ToBackend") ++ [44] ++ jsonMember "s" (js "abc") ++
      [44] ++ jsonMember "c" (js "abc") ++ [44] ++ jsonMember "b" (js "AARoaQ==") ++ [125]).
Proof. reflexivity. Qed.

(** Scenario A: the handshake fires [onopen], then [onsetup], once. *)
Example scenario_handshake :
  log handshakenWorld = [Fire_onopen; Fire_onsetup (Some (js "X1")) None false] /\
  clientId (self handshakenWorld) = Some (js "X1") /\
  connectionId (self handshakenWorld) = Some (js "X1") /\
  log (step (SocketMessage (handshakeFrame (js "X9"))) handshakenWorld) =
    log handshakenWorld.
Proof. vm_compute. repeat split; reflexivity. Qed.

(** Scenario B: another client is elected; nothing is torn down. *)
Example scenario_follower :
  let w := step (SocketMessage (electionFrame (js "Y2"))) handshakenWorld in
  leaderId (self w) = Some (js "Y2") /\ readyState (self w) = OPEN /\
  _ws (self w) <> None /\ retryCount (_state (self w)) = 0.
Proof. vm_compute. repeat split; try reflexivity. discriminate. Qed.

(** Scenario C: the client itself is elected; it reconnects under a rotated
    session and the next handshake resets the counter. *)
Example scenario_self_election :
  let w1 := step (SocketMessage (electionFrame (js "X1"))) handshakenWorld in
  let w2 := run [RetryTimerFired 1 777; InitResumed true; SocketOpened] w1 in
  let w3 := step (SocketMessage (handshakeFrame (js "X2"))) w2 in
  retryCount (_state (self w1)) = 1 /\ _ws (self w1) = None /\
  readyState (self w1) = CONNECTING /\ clientId (self w1) = None /\
  sessionId (self w2) = generateSessionId 777 /\
  sessionId (self w2) <> sessionId (self w1) /\
  retryCount (_state (self w3)) = 0 /\ clientId (self w3) = Some (js "X2").
Proof. vm_compute. repeat split; try reflexivity. discriminate. Qed.

(** Scenario E: frames queued while CONNECTING reach the socket in order. *)
Example scenario_send_ordering :
  let w0 := run [InitialTimerFired; InitResumed true; CallSend (js "a"); CallSend (js "b")]
              (construct (mkOptions None None (Some (js "s")) None) 0) in
  let w1 := step SocketOpened w0 in
  exists a b,
    createTransportMessage (js "s") None (js "a") 0 = Ok a /\
    createTransportMessage (js "s") None (js "b") 0 = Ok b /\
    messageQueue (_state (self w0)) = [a; b] /\
    log w1 = [SocketSend a; SocketSend b] /\
    messageQueue (_state (self w1)) = [].
Proof. vm_compute. do 2 eexists. repeat split; reflexivity. Qed.
Ltac to_prop :=
  repeat match goal with
  | E : (_ <? _) = true |- _ => apply Z.ltb_lt in E
  | E : (_ <? _) = false |- _ => apply Z.ltb_ge in E
  | E : (_ <=? _) = true |- _ => apply Z.leb_le in E
  | E : (_ <=? _) = false |- _ => apply Z.leb_gt in E
  | E : (_ =? _) = true |- _ => apply Z.eqb_eq in E
  | E : (_ =? _) = false |- _ => apply Z.eqb_neq in E
  | E : (_ >=? _) = _ |- _ => rewrite Z.geb_leb in E
  end.

(** Decide the comparison at the head of the goal, outermost first. *)
Ltac head_case :=
  match goal with
  | |- (if ?c then _ else _) = _ => destruct c eqn:?
  | |- (if ?c then _ else _) = _ -> _ => destruct c eqn:?
  end; to_prop; try lia.

Ltac cmp_cases := repeat head_case.

(** Evaluate the bounds checks whose operands are literals. *)
Ltac closed_checks :=
  change (0 + 1) with 1; change (0 + 2) with 2; change (0 + 3) with 3;
  change (0 + 4) with 4; change (0 + 8) with 8;
  repeat match goal with
  | |- context [blen ?l] =>
      let v := eval cbv [blen List.length Z.of_nat Pos.of_succ_nat Pos.succ] in (blen l) in
      progress change (blen l) with v
  end;
  repeat match goal with
  | |- context [?a >=? ?b] =>
      let v := eval vm_compute in (a >=? b) in
      match v with
      | true => change (a >=? b) with true
      | false => change (a >=? b) with false
      end
  end; cbv iota.

(** ** Arithmetic facts about the number model *)

Lemma Ok_inj {A} (a b : A) : Ok a = Ok b -> a = b.
Proof. congruence. Qed.


Lemma fl_exact z : Z.abs z <= 2 ^ 53 -> fl z = z.
Proof.
  intros H. unfold fl.
  destruct (Z.abs z <=? 2 ^ 53) eqn:E; [reflexivity|].
  apply Z.leb_gt in E. lia.
Qed.

Lemma byteVal_range b : 0 <= byteVal b < 256.
Proof.
  unfold byteVal. pose proof (Byte.to_N_bounded b) as H.
  split; [apply N2Z.is_nonneg|].
  apply N2Z.inj_le in H. change (Z.of_N 255) with 255 in H. lia.
Qed.

Lemma byteVal_toUint8 z : byteVal (toUint8 z) = z mod 256.
Proof.
  unfold byteVal, toUint8.
  assert (Hr : 0 <= z mod 256 < 256) by (apply Z.mod_pos_bound; lia).
  destruct (Byte.of_N (Z.to_N (z mod 256))) as [b|] eqn:E.
  - apply Byte.to_of_N in E. rewrite E. apply Z2N.id; lia.
  - apply Byte.of_N_None_iff in E.
    apply N2Z.inj_lt in E. rewrite Z2N.id in E by lia.
    change (Z.of_N 255) with 255 in E. lia.
Qed.

Lemma byteVal_toUint8_small z : 0 <= z < 256 -> byteVal (toUint8 z) = z.
Proof. intros H. rewrite byteVal_toUint8. apply Z.mod_small; assumption. Qed.

Lemma toUint8_byteVal b : toUint8 (byteVal b) = b.
Proof.
  unfold toUint8. rewrite Z.mod_small by apply byteVal_range.
  unfold byteVal. rewrite N2Z.id, Byte.of_to_N. reflexivity.
Qed.

Lemma toInt32_small z : - 2 ^ 31 <= z < 2 ^ 31 -> toInt32 z = z.
Proof. intros H. unfold toInt32. rewrite Z.mod_small; lia. Qed.

Lemma toInt32_mod256 z : toInt32 z mod 256 = z mod 256.
Proof.
  unfold toInt32.
  pose proof (Z.div_mod (z + 2 ^ 31) (2 ^ 32) ltac:(lia)) as H.
  replace ((z + 2 ^ 31) mod 2 ^ 32 - 2 ^ 31)
    with (z + (- (16777216 * ((z + 2 ^ 31) / 2 ^ 32))) * 256) by lia.
  apply Z.mod_add. lia.
Qed.

Lemma band_255 x : band x 255 = x mod 256.
Proof.
  unfold band. rewrite (toInt32_small 255) by lia.
  change 255 with (Z.ones 8). rewrite Z.land_ones by lia.
  apply toInt32_mod256.
Qed.

(** The byte the encoder extracts with [(n >> k) & 0xFF], for [n] below
    2^32 (where [>>] sees [n - 2^32] once [n] reaches 2^31). *)
Lemma band_sar n j :
  0 <= n < 2 ^ 32 -> 0 <= j <= 3 ->
  band (sar n (8 * j)) 255 = (n / 2 ^ (8 * j)) mod 256.
Proof.
  intros Hn Hj. rewrite band_255. unfold sar.
  rewrite Z.shiftr_div_pow2 by lia.
  assert (Hc : toInt32 n = n \/ toInt32 n = n - 2 ^ 32).
  { unfold toInt32. destruct (Z_lt_le_dec n (2 ^ 31)).
    - left. rewrite Z.mod_small; lia.
    - right. replace (n + 2 ^ 31) with (n - 2 ^ 31 + 1 * 2 ^ 32) by lia.
      rewrite Z.mod_add by lia. rewrite Z.mod_small; lia. }
  destruct Hc as [-> | ->]; [reflexivity|].
  assert (Hj' : j = 0 \/ j = 1 \/ j = 2 \/ j = 3) by lia.
  destruct Hj' as [-> | [-> | [-> | ->]]]; cbn [Z.mul Pos.mul];
    [ replace (n - 2 ^ 32) with (n + (- 2 ^ 32) * 2 ^ 0) by lia
    | replace (n - 2 ^ 32) with (n + (- 2 ^ 24) * 2 ^ 8) by lia
    | replace (n - 2 ^ 32) with (n + (- 2 ^ 16) * 2 ^ 16) by lia
    | replace (n - 2 ^ 32) with (n + (- 2 ^ 8) * 2 ^ 24) by lia ];
    rewrite Z.div_add by lia;
    [ replace (- 2 ^ 32) with ((- 2 ^ 24) * 256) by lia
    | replace (- 2 ^ 24) with ((- 2 ^ 16) * 256) by lia
    | replace (- 2 ^ 16) with ((- 2 ^ 8) * 256) by lia
    | replace (- 2 ^ 8) with ((- 1) * 256) by lia ];
    apply Z.mod_add; lia.
Qed.

Lemma band_sar8 n : 0 <= n < 2 ^ 32 -> band (sar n 8) 255 = (n / 256) mod 256.
Proof. intros H. exact (band_sar n 1 H ltac:(lia)). Qed.

Lemma band_sar16 n : 0 <= n < 2 ^ 32 -> band (sar n 16) 255 = (n / 65536) mod 256.
Proof. intros H. exact (band_sar n 2 H ltac:(lia)). Qed.

Lemma band_sar24 n : 0 <= n < 2 ^ 32 -> band (sar n 24) 255 = (n / 16777216) mod 256.
Proof. intros H. exact (band_sar n 3 H ltac:(lia)). Qed.

Lemma lor_disjoint_add a b k :
  0 <= a -> 0 <= b < 2 ^ k -> 0 <= k ->
  Z.lor (a * 2 ^ k) b = a * 2 ^ k + b.
Proof.
  intros Ha Hb Hk.
  assert (Hz : Z.land (a * 2 ^ k) b = 0).
  { apply Z.bits_inj'. intros i Hi. rewrite Z.land_spec, Z.bits_0.
    destruct (Z_lt_le_dec i k).
    - rewrite Z.mul_pow2_bits_low by lia. reflexivity.
    - replace b with (b mod 2 ^ k) by (apply Z.mod_small; lia).
      rewrite Z.mod_pow2_bits_high by lia. apply andb_false_r. }
  rewrite <- Z.lxor_lor by exact Hz.
  symmetry. apply Z.add_nocarry_lxor. exact Hz.
Qed.

Lemma shl_byte b k : 0 <= b < 256 -> 0 <= k <= 16 -> shl b k = b * 2 ^ k.
Proof.
  intros Hb Hk. unfold shl.
  rewrite (toInt32_small b) by lia.
  rewrite Z.shiftl_mul_pow2 by lia.
  assert (2 ^ k <= 2 ^ 16) by (apply Z.pow_le_mono_r; lia).
  assert (0 < 2 ^ k) by (apply Z.pow_pos_nonneg; lia).
  apply toInt32_small. nia.
Qed.

Lemma bor_small a b :
  0 <= a < 2 ^ 31 -> 0 <= b < 2 ^ 31 -> bor a b = Z.lor a b.
Proof. intros. unfold bor. rewrite !toInt32_small by lia. reflexivity. Qed.

(** ** Reading inside a concatenation *)

Lemma blen_app a b : blen (a ++ b) = blen a + blen b.
Proof. unfold blen. rewrite length_app. lia. Qed.

Lemma blen_nonneg b : 0 <= blen b.
Proof. unfold blen. lia. Qed.

Lemma idx_app_r pre l k :
  0 <= k -> idx (pre ++ l) (blen pre + k) = idx l k.
Proof.
  intros Hk. unfold idx, blen.
  destruct (Z.of_nat (List.length pre) + k <? 0) eqn:E1; [apply Z.ltb_lt in E1; lia|].
  destruct (k <? 0) eqn:E2; [apply Z.ltb_lt in E2; lia|].
  rewrite Z2Nat.inj_add, Nat2Z.id by lia.
  rewrite nth_error_app2 by lia.
  replace (List.length pre + Z.to_nat k - List.length pre)%nat with (Z.to_nat k) by lia.
  reflexivity.
Qed.

Lemma idx_app_l l post k :
  k < blen l -> idx (l ++ post) k = idx l k.
Proof.
  intros Hk. unfold idx, blen in *.
  destruct (k <? 0) eqn:E; [reflexivity|]. apply Z.ltb_ge in E.
  rewrite nth_error_app1 by lia. reflexivity.
Qed.

Lemma idx_in pre l post k :
  0 <= k < blen l -> idx (pre ++ l ++ post) (blen pre + k) = idx l k.
Proof. intros Hk. rewrite idx_app_r by lia. apply idx_app_l. lia. Qed.

Lemma byteAt_in pre l post k :
  0 <= k < blen l -> byteAt (pre ++ l ++ post) (blen pre + k) = byteAt l k.
Proof. intros Hk. unfold byteAt. rewrite idx_in by exact Hk. reflexivity. Qed.

Lemma idx_some_iff buffer i :
  (exists b, idx buffer i = Some b) <-> 0 <= i < blen buffer.
Proof.
  unfold idx, blen. split.
  - intros [b Hb]. destruct (i <? 0) eqn:E; [discriminate|]. apply Z.ltb_ge in E.
    destruct (nth_error buffer (Z.to_nat i)) eqn:En; [|discriminate].
    assert (Z.to_nat i < List.length buffer)%nat
      by (apply nth_error_Some; congruence).
    lia.
  - intros [H0 H1]. destruct (i <? 0) eqn:E; [apply Z.ltb_lt in E; lia|].
    destruct (nth_error buffer (Z.to_nat i)) eqn:En.
    + eexists. reflexivity.
    + apply nth_error_None in En. lia.
Qed.

Lemma idx_range buffer i b : idx buffer i = Some b -> 0 <= b < 256.
Proof.
  unfold idx. destruct (i <? 0); [discriminate|].
  destruct (nth_error buffer (Z.to_nat i)); [|discriminate].
  cbn. intros [= <-]. apply byteVal_range.
Qed.

(** ** Little-endian bytes and the float64 form *)

Lemma leValue_leBytes k bits :
  leValue (leBytes k bits) = bits mod 2 ^ (8 * Z.of_nat k).
Proof.
  revert bits. induction k as [|k IH]; intros bits.
  - cbn. rewrite Z.mod_1_r. reflexivity.
  - cbn [leBytes leValue]. rewrite IH, byteVal_toUint8.
    replace (8 * Z.of_nat (S k)) with (8 + 8 * Z.of_nat k) by lia.
    rewrite Z.pow_add_r by lia. change (2 ^ 8) with 256.
    rewrite Z.rem_mul_r by (try apply Z.pow_nonzero; lia). reflexivity.
Qed.

Lemma length_leBytes k bits : List.length (leBytes k bits) = k.
Proof. revert bits. induction k; intros; cbn; [reflexivity|]. f_equal. auto. Qed.

(** The fields of the bit pattern of a positive integer of at most 53 bits:
    biased exponent [e + 1023] and fraction [m - 2^52], where
    [n = m * 2 ^ (e - 52)]. *)
Lemma doubleBits_fields n :
  0 < n <= 2 ^ 53 ->
  exists e m,
    doubleBits n = (m - 2 ^ 52) + (e + 1023) * 2 ^ 52 /\
    0 <= e <= 53 /\ 2 ^ 52 <= m < 2 ^ 53 /\
    (e <= 52 -> m = n * 2 ^ (52 - e)) /\ (e = 53 -> n = m * 2).
Proof.
  intros Hn. unfold doubleBits.
  destruct (n =? 0) eqn:E0; [apply Z.eqb_eq in E0; lia|].
  destruct (n <? 0) eqn:E1; [apply Z.ltb_lt in E1; lia|].
  rewrite fl_exact by lia. rewrite Z.abs_eq by lia.
  set (e := Z.log2 n).
  assert (He : 0 <= e <= 53).
  { split; [apply Z.log2_nonneg|].
    change 53 with (Z.log2 (2 ^ 53)). apply Z.log2_le_mono. lia. }
  assert (Hlog : 2 ^ e <= n < 2 ^ (e + 1)).
  { unfold e. replace (Z.log2 n + 1) with (Z.succ (Z.log2 n)) by lia.
    apply Z.log2_spec. lia. }
  exists e, (if e <=? 52 then n * 2 ^ (52 - e) else n / 2 ^ (e - 52)).
  split; [lia|]. split; [exact He|].
  destruct (e <=? 52) eqn:E52; to_prop.
  - assert (Hp : 2 ^ 52 = 2 ^ e * 2 ^ (52 - e))
      by (rewrite <- Z.pow_add_r by lia; f_equal; lia).
    assert (Hq : 2 ^ 53 = 2 ^ (e + 1) * 2 ^ (52 - e))
      by (rewrite <- Z.pow_add_r by lia; f_equal; lia).
    assert (0 < 2 ^ (52 - e)) by (apply Z.pow_pos_nonneg; lia).
    split; [nia|]. split; [reflexivity | lia].
  - assert (e = 53) by lia. clearbody e. subst e.
    assert (n = 2 ^ 53) by (change (2 ^ (53 + 1)) with (2 * 2 ^ 53) in Hlog; lia).
    subst n. cbn. lia.
Qed.

Lemma doubleBits_range n : 0 < n <= 2 ^ 53 -> 0 <= doubleBits n < 2 ^ 64.
Proof.
  intros Hn. destruct (doubleBits_fields n Hn) as (e & m & -> & He & Hm & _).
  lia.
Qed.

(** A positive integer that fits 53 bits survives the trip through its
    float64 bit pattern and [Math.floor]. *)
Lemma Math_floor_doubleBits n :
  0 < n <= 2 ^ 53 -> Math_floor (doubleOfBits (doubleBits n)) = Fin n.
Proof.
  intros Hn.
  destruct (doubleBits_fields n Hn) as (e & m & -> & He & Hm & Hlo & Hhi).
  unfold doubleOfBits.
  assert (Hbit : Z.testbit (m - 2 ^ 52 + (e + 1023) * 2 ^ 52) 63 = false).
  { apply Z.bits_above_log2; [lia|]. apply Z.log2_lt_pow2; lia. }
  rewrite Hbit.
  rewrite Z.div_add by lia. rewrite (Z.div_small (m - 2 ^ 52)) by lia.
  rewrite Z.mod_add by lia. rewrite (Z.mod_small (m - 2 ^ 52)) by lia.
  cbn [Z.add]. rewrite (Z.mod_small (e + 1023)) by lia.
  destruct (e + 1023 =? 2047) eqn:E2; [apply Z.eqb_eq in E2; lia|].
  destruct (e + 1023 =? 0) eqn:E3; [apply Z.eqb_eq in E3; lia|].
  rewrite Z.max_l by lia.
  replace (m - 2 ^ 52 + 2 ^ 52) with m by lia.
  replace (e + 1023 - 1075) with (e - 52) by lia.
  cbn [Math_floor].
  destruct (0 <=? e - 52) eqn:E4; to_prop.
  - assert (He' : e = 52 \/ e = 53) by lia.
    destruct He' as [-> | ->]; cbn; f_equal.
    + rewrite (Hlo ltac:(lia)). cbn. lia.
    + rewrite (Hhi eq_refl). lia.
  - replace (- (e - 52)) with (52 - e) by lia.
    rewrite (Hlo ltac:(lia)).
    rewrite Z.div_mul by (apply Z.pow_nonzero; lia). reflexivity.
Qed.

(** ** Zigzag *)

Lemma signedToUnsigned_exact n :
  Z.abs n <= 2 ^ 52 ->
  signedToUnsigned n = (if n <? 0 then - 2 * n - 1 else 2 * n).
Proof.
  intros Hn. unfold signedToUnsigned.
  destruct (n <? 0) eqn:E.
  - apply Z.ltb_lt in E. rewrite (fl_exact (-2 * n)) by lia.
    apply fl_exact. lia.
  - apply Z.ltb_ge in E. apply fl_exact. lia.
Qed.

Lemma signedToUnsigned_range n :
  Z.abs n <= 2 ^ 52 -> 0 <= signedToUnsigned n <= 2 ^ 53.
Proof.
  intros Hn. rewrite signedToUnsigned_exact by exact Hn.
  destruct (n <? 0) eqn:E; [apply Z.ltb_lt in E | apply Z.ltb_ge in E]; lia.
Qed.

Lemma zigzag_inverse n :
  Z.abs n <= 2 ^ 52 -> unsignedToSigned (Fin (signedToUnsigned n)) = Fin n.
Proof.
  intros Hn. rewrite signedToUnsigned_exact by exact Hn.
  unfold unsignedToSigned.
  destruct (n <? 0) eqn:E; [apply Z.ltb_lt in E | apply Z.ltb_ge in E].
  - replace (- 2 * n - 1) with (1 + (- n - 1) * 2) by lia.
    rewrite Z.rem_add by lia. cbn [Z.rem Z.quotrem fst snd Z.eqb Pos.eqb].
    change (Z.rem 1 2) with 1. cbn [Z.eqb Pos.eqb].
    rewrite fl_exact by lia. f_equal.
    replace (1 + (- n - 1) * 2 + 1) with ((- n) * 2) by lia.
    rewrite Z.div_mul by lia. lia.
  - replace (2 * n) with (0 + n * 2) by lia.
    rewrite Z.rem_add by lia. change (Z.rem 0 2 =? 1) with false. cbn iota.
    f_equal. rewrite Z.add_0_l. apply Z.div_mul. lia.
Qed.

(** ** Decoding is local: bytes before [offset] and after the form do not
       matter *)

Lemma skip_into (pre enc post : Buffer) k :
  (k + 8 <= List.length enc)%nat ->
  firstn 8 (skipn (List.length pre + k) (pre ++ enc ++ post)) =
  firstn 8 (skipn k enc).
Proof.
  intros Hk. rewrite skipn_app.
  rewrite (skipn_all2 pre) by lia. cbn [app].
  replace (List.length pre + k - List.length pre)%nat with k by lia.
  rewrite skipn_app, firstn_app.
  rewrite length_skipn.
  replace (8 - (List.length enc - k))%nat with 0%nat by lia.
  cbn [firstn]. apply app_nil_r.
Qed.

Lemma readDoubleLE_in pre enc post :
  9 <= blen enc ->
  readDoubleLE (pre ++ enc ++ post) (blen pre + 1) = readDoubleLE enc 1.
Proof.
  intros H. unfold readDoubleLE, blen in *.
  replace (Z.to_nat (Z.of_nat (List.length pre) + 1)) with (List.length pre + 1)%nat by lia.
  rewrite skip_into by lia. reflexivity.
Qed.

Ltac split_check H :=
  match type of H with
  | context [if ?c then _ else _] =>
      let E := fresh "E" in destruct c eqn:E; try discriminate H
  end.

Lemma decodeUnsignedInt_frame pre enc post r :
  decodeUnsignedInt enc 0 = Ok r ->
  decodeUnsignedInt (pre ++ enc ++ post) (blen pre) = Ok r.
Proof.
  unfold decodeUnsignedInt. intros H.
  pose proof (blen_nonneg pre) as Hpre. pose proof (blen_nonneg post) as Hpost.
  rewrite !blen_app.
  split_check H. rewrite Z.geb_leb in E. apply Z.leb_gt in E.
  replace (blen pre >=? blen pre + (blen enc + blen post)) with false
    by (symmetry; rewrite Z.geb_leb; apply Z.leb_gt; lia).
  replace (idx (pre ++ enc ++ post) (blen pre))
    with (idx enc 0)
    by (rewrite <- (Z.add_0_r (blen pre)) at 1; symmetry; apply idx_in; lia).
  destruct (idx enc 0) as [b0|]; [|discriminate].
  repeat match goal with
  | |- context [blen pre + ?k >=? blen pre + (blen enc + blen post)] =>
      replace (blen pre + k >=? blen pre + (blen enc + blen post))
        with (0 + k >=? blen enc + blen post)
        by (rewrite !Z.geb_leb; apply eq_true_iff_eq;
            rewrite !Z.leb_le; lia)
  end.
  cbn [Z.add] in *. rewrite ?Z.geb_leb in *.
  repeat (split_check H; try (apply Z.leb_gt in E));
    repeat match goal with
    | E : (blen enc <=? ?k) = false |- _ => apply Z.leb_gt in E
    end;
    repeat match goal with
    | |- context [blen enc + blen post <=? ?k] =>
        replace (blen enc + blen post <=? k) with false
          by (symmetry; apply Z.leb_gt; lia)
    end;
    rewrite ?byteAt_in by lia; rewrite ?readDoubleLE_in by lia;
    exact H.
Qed.

(** ** Unsigned round trip *)

Lemma idx_cons_0 b l : idx (b :: l) 0 = Some (byteVal b).
Proof. reflexivity. Qed.

Lemma byteAt_cons b l k : 0 < k -> byteAt (b :: l) k = byteAt l (k - 1).
Proof.
  intros Hk. unfold byteAt.
  replace k with (blen [b] + (k - 1)) at 1 by (change (blen [b]) with 1; lia).
  change (b :: l) with ([b] ++ l). rewrite idx_app_r by lia. reflexivity.
Qed.

Lemma byteAt_0 z l : byteAt (toUint8 z :: l) 0 = z mod 256.
Proof. unfold byteAt. rewrite idx_cons_0. apply byteVal_toUint8. Qed.

Lemma byteAt_1 a z l : byteAt (a :: toUint8 z :: l) 1 = z mod 256.
Proof. rewrite byteAt_cons by lia. apply byteAt_0. Qed.

Lemma byteAt_2 a b z l : byteAt (a :: b :: toUint8 z :: l) 2 = z mod 256.
Proof. rewrite byteAt_cons by lia. apply byteAt_1. Qed.

Lemma byteAt_3 a b c z l : byteAt (a :: b :: c :: toUint8 z :: l) 3 = z mod 256.
Proof. rewrite byteAt_cons by lia. apply byteAt_2. Qed.

Lemma byteAt_4 a b c d z l :
  byteAt (a :: b :: c :: d :: toUint8 z :: l) 4 = z mod 256.
Proof. rewrite byteAt_cons by lia. apply byteAt_3. Qed.

Lemma Ok_Fin_eq (a b k : Z) : a = b -> Ok (Fin a, k) = Ok (Fin b, k).
Proof. intros ->. reflexivity. Qed.

Lemma decodeUnsignedInt_encodeUnsignedInt u enc :
  0 <= u <= 2 ^ 53 ->
  encodeUnsignedInt u = Ok enc ->
  decodeUnsignedInt enc 0 = Ok (Fin u, blen enc).
Proof.
  intros Hu. unfold encodeUnsignedInt.
  unfold WIRE3_ONE_BYTE_MAX, WIRE3_TWO_BYTE_MAX, WIRE3_TWO_BYTE_OFFSET,
    WIRE3_MARKER_2_BYTES, WIRE3_MARKER_3_BYTES, WIRE3_MARKER_4_BYTES,
    WIRE3_MARKER_FLOAT64.
  cmp_cases; try lia; intros H%Ok_inj; subst enc;
    unfold decodeUnsignedInt, Buffer_from;
    cbn [map]; closed_checks; rewrite ?idx_cons_0.
  - (* one byte *)
    rewrite byteVal_toUint8_small by lia.
    unfold WIRE3_ONE_BYTE_MAX. cmp_cases; try lia. reflexivity.
  - (* two bytes *)
    assert (Hq : 0 <= (u - 216) / 256 <= 35).
    { split; [apply Z.div_pos; lia|].
      apply Z.lt_succ_r. apply Z.div_lt_upper_bound; lia. }
    rewrite byteVal_toUint8_small by lia.
    unfold WIRE3_ONE_BYTE_MAX, WIRE3_MARKER_2_BYTES, WIRE3_TWO_BYTE_OFFSET.
    cmp_cases. rewrite byteAt_1.
    rewrite Z.rem_mod_nonneg by lia.
    rewrite Z.mod_mod by lia.
    apply Ok_Fin_eq.
    pose proof (Z.div_mod (u - 216) 256 ltac:(lia)). lia.
  - (* marker 252 *)
    change (byteVal (toUint8 252)) with 252.
    unfold WIRE3_ONE_BYTE_MAX, WIRE3_MARKER_2_BYTES.
    cmp_cases. rewrite byteAt_1, byteAt_2.
    rewrite band_sar8, band_255 by lia.
    rewrite !Z.mod_mod by lia.
    rewrite (Z.mod_small (u / 256)) by (split; [apply Z.div_pos; lia | apply Z.div_lt_upper_bound; lia]).
    assert (H1 : 0 <= u / 256 < 256)
      by (split; [apply Z.div_pos; lia | apply Z.div_lt_upper_bound; lia]).
    assert (H0 : 0 <= u mod 256 < 256) by (apply Z.mod_pos_bound; lia).
    rewrite shl_byte by lia.
    rewrite bor_small by lia.
    rewrite lor_disjoint_add by lia.
    apply Ok_Fin_eq.
    pose proof (Z.div_mod u 256 ltac:(lia)). lia.
  - (* marker 253 *)
    change (byteVal (toUint8 253)) with 253.
    unfold WIRE3_ONE_BYTE_MAX, WIRE3_MARKER_2_BYTES, WIRE3_MARKER_3_BYTES.
    cmp_cases. rewrite byteAt_1, byteAt_2, byteAt_3.
    rewrite band_sar16, band_sar8, band_255 by lia.
    rewrite !Z.mod_mod by lia.
    rewrite (Z.mod_small (u / 65536)) by (split; [apply Z.div_pos; lia | apply Z.div_lt_upper_bound; lia]).
    assert (H2 : 0 <= u / 65536 < 256)
      by (split; [apply Z.div_pos; lia | apply Z.div_lt_upper_bound; lia]).
    assert (H1 : 0 <= (u / 256) mod 256 < 256) by (apply Z.mod_pos_bound; lia).
    assert (H0 : 0 <= u mod 256 < 256) by (apply Z.mod_pos_bound; lia).
    rewrite !shl_byte by lia.
    rewrite (bor_small (_ * 2 ^ 16)) by lia.
    rewrite (lor_disjoint_add (u / 65536) _ 16) by lia.
    replace (u / 65536 * 2 ^ 16 + (u / 256) mod 256 * 2 ^ 8)
      with ((u / 65536 * 256 + (u / 256) mod 256) * 2 ^ 8) by lia.
    rewrite bor_small by lia.
    rewrite lor_disjoint_add by lia.
    apply Ok_Fin_eq.
    pose proof (Z.div_mod u 256 ltac:(lia)).
    pose proof (Z.div_mod (u / 256) 256 ltac:(lia)).
    rewrite Z.div_div in * by lia. change (256 * 256) with 65536 in *. lia.
  - (* marker 254 *)
    change (byteVal (toUint8 254)) with 254.
    unfold WIRE3_ONE_BYTE_MAX, WIRE3_MARKER_2_BYTES, WIRE3_MARKER_3_BYTES,
      WIRE3_MARKER_4_BYTES.
    cmp_cases. rewrite byteAt_1, byteAt_2, byteAt_3, byteAt_4.
    rewrite band_sar24, band_sar16, band_sar8, band_255 by lia.
    rewrite !Z.mod_mod by lia.
    rewrite (Z.mod_small (u / 16777216)) by (split; [apply Z.div_pos; lia | apply Z.div_lt_upper_bound; lia]).
    apply Ok_Fin_eq.
    pose proof (Z.div_mod u 256 ltac:(lia)).
    pose proof (Z.div_mod (u / 256) 256 ltac:(lia)).
    pose proof (Z.div_mod (u / 65536) 256 ltac:(lia)).
    rewrite !Z.div_div in * by lia.
    change (256 * 256) with 65536 in *. change (65536 * 256) with 16777216 in *.
    lia.
  - (* float64 *)
    unfold writeDoubleLE, Buffer_alloc.
    cbn [repeat setAt blit leBytes].
    closed_checks. rewrite ?idx_cons_0.
    change (byteVal (toUint8 255)) with 255.
    unfold WIRE3_ONE_BYTE_MAX, WIRE3_MARKER_2_BYTES, WIRE3_MARKER_3_BYTES,
      WIRE3_MARKER_4_BYTES, WIRE3_MARKER_FLOAT64.
    cmp_cases. f_equal. f_equal.
    unfold readDoubleLE.
    change (Z.to_nat 1) with 1%nat. cbn [skipn firstn].
    match goal with
    | |- Math_floor (doubleOfBits (leValue ?l)) = _ =>
        change l with (leBytes 8 (doubleBits u))
    end.
    rewrite leValue_leBytes. change (2 ^ (8 * Z.of_nat 8)) with (2 ^ 64).
    rewrite Z.mod_small by (apply doubleBits_range; lia).
    apply Math_floor_doubleBits. lia.
Qed.

(** ** The encoder on non-negative input *)

Lemma encodeUnsignedInt_returns n : 0 <= n -> returns (encodeUnsignedInt n).
Proof.
  intros Hn. unfold returns, encodeUnsignedInt.
  destruct (n <? 0) eqn:E; to_prop; [lia|].
  repeat match goal with
  | |- exists a, (if ?c then _ else _) = Ok a => destruct c
  end; eexists; reflexivity.
Qed.

Lemma encodeUnsignedInt_raises_iff n : raises (encodeUnsignedInt n) <-> n < 0.
Proof.
  split.
  - intros [e He]. destruct (Z_lt_le_dec n 0) as [|Hn]; [assumption|].
    destruct (encodeUnsignedInt_returns n Hn) as [a Ha]. congruence.
  - intros Hn. unfold raises, encodeUnsignedInt.
    destruct (n <? 0) eqn:E; to_prop; [|lia]. eexists. reflexivity.
Qed.

(** C1. For every signed integer [n] with [|n| <= 2^52],
    [decodeInt64(encodeInt64(n), 0)] returns [value = n] and [bytesRead]
    equal to the byte length of the encoding, and
    [unsignedToSigned(signedToUnsigned(n)) = n]. *)
Theorem decodeInt64_encodeInt64 (n : Z) :
  Z.abs n <= 2 ^ 52 ->
  (exists enc,
      encodeInt64 n = Ok enc /\
      decodeInt64 enc 0 = Ok (Fin n, blen enc)) /\
  unsignedToSigned (Fin (signedToUnsigned n)) = Fin n.
Proof.
  intros Hn. split; [| apply zigzag_inverse; exact Hn].
  pose proof (signedToUnsigned_range n Hn) as Hu.
  unfold encodeInt64, decodeInt64.
  destruct (encodeUnsignedInt_returns (signedToUnsigned n) ltac:(lia)) as [enc Henc].
  exists enc. split; [exact Henc|].
  rewrite (decodeUnsignedInt_encodeUnsignedInt _ _ Hu Henc).
  cbn [bind]. rewrite zigzag_inverse by exact Hn. reflexivity.
Qed.

Lemma decodeInt64_encodeInt64_witness :
  (exists enc,
      encodeInt64 (- 2 ^ 52) = Ok enc /\
      decodeInt64 enc 0 = Ok (Fin (- 2 ^ 52), blen enc)) /\
  unsignedToSigned (Fin (signedToUnsigned (- 2 ^ 52))) = Fin (- 2 ^ 52).
Proof. apply (decodeInt64_encodeInt64 (- 2 ^ 52)). vm_compute. discriminate. Defined.

(** C2. For every non-negative integer [n < 2^53], [encodeUnsignedInt(n)]
    has the length and first byte of the range table: one byte [n] up to
    215; two bytes, the first in 216..251, up to 9431; three bytes after 252
    below 65536; four bytes after 253 below 2^24; five bytes after 254
    below 2^32; nine bytes, 255 then the little-endian float64, from 2^32
    on; and the two boundary vectors at 215 and 216. *)
Theorem encodeUnsignedInt_range_table (n : Z) :
  0 <= n < 2 ^ 53 ->
  (exists enc b0,
      encodeUnsignedInt n = Ok enc /\ idx enc 0 = Some b0 /\
      (n <= 215 -> map byteVal enc = [n]) /\
      (216 <= n <= 9431 -> blen enc = 2 /\ 216 <= b0 <= 251) /\
      (9432 <= n < 65536 -> blen enc = 3 /\ b0 = 252) /\
      (65536 <= n < 2 ^ 24 -> blen enc = 4 /\ b0 = 253) /\
      (2 ^ 24 <= n < 2 ^ 32 -> blen enc = 5 /\ b0 = 254) /\
      (2 ^ 32 <= n ->
       blen enc = 9 /\ b0 = 255 /\ skipn 1 enc = leBytes 8 (doubleBits n))) /\
  encodeUnsignedInt 215 = Ok [xd7] /\
  encodeUnsignedInt 216 = Ok [xd8; x00].
Proof.
  intros Hn. split; [| split; reflexivity].
  unfold encodeUnsignedInt.
  unfold WIRE3_ONE_BYTE_MAX, WIRE3_TWO_BYTE_MAX, WIRE3_TWO_BYTE_OFFSET,
    WIRE3_MARKER_2_BYTES, WIRE3_MARKER_3_BYTES, WIRE3_MARKER_4_BYTES,
    WIRE3_MARKER_FLOAT64.
  repeat match goal with
  | |- exists enc b0, (if ?c then _ else _) = _ /\ _ => destruct c eqn:?; to_prop; try lia
  end.
  - eexists. exists n. split; [reflexivity|].
    split; [cbn [Buffer_from map]; rewrite idx_cons_0, byteVal_toUint8_small by lia; reflexivity|].
    repeat split; try lia.
    intros _. cbn [Buffer_from map]. rewrite byteVal_toUint8_small by lia. reflexivity.
  - assert (Hq : 0 <= (n - 216) / 256 <= 35).
    { split; [apply Z.div_pos; lia|].
      apply Z.lt_succ_r. apply Z.div_lt_upper_bound; lia. }
    eexists. exists (216 + (n - 216) / 256). split; [reflexivity|].
    split; [cbn [Buffer_from map]; rewrite idx_cons_0, byteVal_toUint8_small by lia; reflexivity|].
    repeat split; try lia.
  - eexists. exists 252. split; [reflexivity|]. split; [reflexivity|].
    repeat split; try lia.
  - eexists. exists 253. split; [reflexivity|]. split; [reflexivity|].
    repeat split; try lia.
  - eexists. exists 254. split; [reflexivity|]. split; [reflexivity|].
    repeat split; try lia.
  - eexists. exists 255. split; [reflexivity|]. split; [reflexivity|].
    repeat split; try lia.
Qed.

Lemma encodeUnsignedInt_range_table_witness :
  (exists enc b0,
      encodeUnsignedInt 9431 = Ok enc /\ idx enc 0 = Some b0 /\
      (9431 <= 215 -> map byteVal enc = [9431]) /\
      (216 <= 9431 <= 9431 -> blen enc = 2 /\ 216 <= b0 <= 251) /\
      (9432 <= 9431 < 65536 -> blen enc = 3 /\ b0 = 252) /\
      (65536 <= 9431 < 2 ^ 24 -> blen enc = 4 /\ b0 = 253) /\
      (2 ^ 24 <= 9431 < 2 ^ 32 -> blen enc = 5 /\ b0 = 254) /\
      (2 ^ 32 <= 9431 ->
       blen enc = 9 /\ b0 = 255 /\ skipn 1 enc = leBytes 8 (doubleBits 9431))) /\
  encodeUnsignedInt 215 = Ok [xd7] /\
  encodeUnsignedInt 216 = Ok [xd8; x00].
Proof. apply (encodeUnsignedInt_range_table 9431). lia. Defined.

(** ** When the unsigned decoder raises *)

Lemma result_cases {A} (r : result A) : returns r \/ raises r.
Proof. destruct r; [left | right]; eexists; reflexivity. Qed.

Lemma returns_not_raises {A} (r : result A) : returns r -> ~ raises r.
Proof. intros [a ->] [e He]. discriminate. Qed.

Ltac unfold_wire3 :=
  unfold WIRE3_ONE_BYTE_MAX, WIRE3_TWO_BYTE_MAX, WIRE3_TWO_BYTE_OFFSET,
    WIRE3_MARKER_2_BYTES, WIRE3_MARKER_3_BYTES, WIRE3_MARKER_4_BYTES,
    WIRE3_MARKER_FLOAT64 in *.

Lemma decodeUnsignedInt_returns_iff buffer offset :
  returns (decodeUnsignedInt buffer offset) <-> formFits buffer offset.
Proof.
  unfold returns, formFits, decodeUnsignedInt, declaredExtra. unfold_wire3.
  rewrite !Z.geb_leb. split.
  - intros [a H].
    destruct (blen buffer <=? offset) eqn:E0; [discriminate|]. to_prop.
    destruct (idx buffer offset) as [b0|] eqn:Eb; [|discriminate].
    exists b0. split; [reflexivity|].
    pose proof (idx_range _ _ _ Eb) as Hb.
    repeat match type of H with
    | (if ?c then _ else _) = _ => destruct c eqn:?; to_prop; try discriminate H
    end;
    repeat match goal with
    | |- context [if ?c then _ else _] => destruct c eqn:?; to_prop
    end; lia.
  - intros (b0 & Eb & Hfit).
    pose proof (idx_range _ _ _ Eb) as Hb.
    assert (Hoff : 0 <= offset < blen buffer)
      by (apply idx_some_iff; eexists; exact Eb).
    rewrite Eb.
    destruct (blen buffer <=? offset) eqn:E0; to_prop; [lia|].
    repeat match goal with
    | H : context [if ?c then _ else _] |- _ => destruct c eqn:?; to_prop
    end;
    repeat match goal with
    | |- exists a, (if ?c then _ else _) = Ok a => destruct c eqn:?; to_prop; try lia
    end; eexists; reflexivity.
Qed.

Lemma decodeUnsignedInt_raises_iff buffer offset :
  raises (decodeUnsignedInt buffer offset) <-> ~ formFits buffer offset.
Proof.
  rewrite <- decodeUnsignedInt_returns_iff. split.
  - intros Hr Hok. exact (returns_not_raises _ Hok Hr).
  - intros Hn. destruct (result_cases (decodeUnsignedInt buffer offset)); tauto.
Qed.

(** Inside the buffer every failure is a truncation. *)
Lemma decodeUnsignedInt_error_kind buffer offset e :
  0 <= offset -> decodeUnsignedInt buffer offset = Throw e -> isTruncation e.
Proof.
  intros Hoff. unfold decodeUnsignedInt, isTruncation. unfold_wire3.
  rewrite !Z.geb_leb. intros H.
  destruct (blen buffer <=? offset) eqn:E0; to_prop;
    [injection H as <-; eexists; reflexivity|].
  destruct (idx buffer offset) as [b0|] eqn:Eb.
  - pose proof (idx_range _ _ _ Eb) as Hb.
    repeat match type of H with
    | (if ?c then _ else _) = _ => destruct c eqn:?; to_prop
    end; try discriminate H; try lia;
    injection H as <-; eexists; reflexivity.
  - exfalso. assert (Hs : exists b, idx buffer offset = Some b)
      by (apply idx_some_iff; lia).
    destruct Hs as [b Hs]. congruence.
Qed.

(** The last [throw] is reached exactly by a first byte that is no byte
    value, which only a read before the start of the buffer yields. *)
Lemma decodeUnsignedInt_invalid_marker buffer offset :
  offset < blen buffer -> ~ recognized (idx buffer offset) ->
  decodeUnsignedInt buffer offset = Throw (InvalidMarker (idx buffer offset)).
Proof.
  intros Hoff Hnr. unfold decodeUnsignedInt. rewrite Z.geb_leb.
  destruct (blen buffer <=? offset) eqn:E0; to_prop; [lia|].
  destruct (idx buffer offset) as [b0|] eqn:Eb; [|reflexivity].
  exfalso. apply Hnr. exists b0. split; [reflexivity|].
  pose proof (idx_range _ _ _ Eb). lia.
Qed.

(** C4. [encodeUnsignedInt(N)] raises iff [N < 0] (negative input);
    [decodeUnsignedInt(buffer, offset)] raises iff the form declared by the
    first byte extends past the buffer end, and then with a truncation
    error; it raises the invalid-marker error on a first byte that is not
    recognized; and whenever the declared form lies within the buffer the
    decode returns. *)
Theorem wire3_int_failures :
  (forall N, raises (encodeUnsignedInt N) <-> N < 0) /\
  (forall N, N < 0 -> encodeUnsignedInt N = Throw (NegativeInput N)) /\
  (forall buffer offset,
      0 <= offset ->
      (raises (decodeUnsignedInt buffer offset) <-> ~ formFits buffer offset) /\
      (forall e, decodeUnsignedInt buffer offset = Throw e -> isTruncation e)) /\
  (forall buffer offset,
      offset < blen buffer -> ~ recognized (idx buffer offset) ->
      decodeUnsignedInt buffer offset = Throw (InvalidMarker (idx buffer offset))) /\
  (forall buffer offset,
      formFits buffer offset -> returns (decodeUnsignedInt buffer offset)).
Proof.
  split; [exact encodeUnsignedInt_raises_iff|].
  split.
  { intros N HN. unfold encodeUnsignedInt.
    destruct (N <? 0) eqn:E; to_prop; [reflexivity | lia]. }
  split.
  { intros buffer offset Hoff. split.
    - apply decodeUnsignedInt_raises_iff.
    - intros e. apply decodeUnsignedInt_error_kind. exact Hoff. }
  split; [exact decodeUnsignedInt_invalid_marker|].
  intros buffer offset. apply decodeUnsignedInt_returns_iff.
Qed.

Lemma wire3_int_failures_witness :
  raises (encodeUnsignedInt (-1)) /\
  raises (decodeUnsignedInt [xfc; x01] 0) /\
  returns (decodeUnsignedInt [xfc; x01; x02] 0) /\
  decodeUnsignedInt [x05] (-1) = Throw (InvalidMarker None).
Proof.
  destruct wire3_int_failures as (Henc & _ & Hdec & Hinv & Hfit).
  split; [apply Henc; lia|].
  split.
  - apply (proj1 (Hdec [xfc; x01] 0 ltac:(lia))).
    intros (b0 & Hb & Hlt). vm_compute in Hb. injection Hb as <-.
    vm_compute in Hlt. discriminate.
  - split.
    + apply Hfit. exists 252. split; reflexivity.
    + apply (Hinv [x05] (-1)); [reflexivity|].
      intros (v & Hv & _). discriminate.
Defined.

(** ** UTF-8 round trip on well-formed strings *)

Ltac bool_prop :=
  repeat match goal with
  | E : andb _ _ = true |- _ => apply andb_true_iff in E; destruct E
  | E : andb _ _ = false |- _ => apply andb_false_iff in E; destruct E
  | E : negb _ = true |- _ => apply negb_true_iff in E
  | E : negb _ = false |- _ => apply negb_false_iff in E
  end; to_prop.

Ltac arith := Z.div_mod_to_equations; lia.

(** Decide every comparison in the goal; the branch the arithmetic excludes
    is closed on the spot. *)
Ltac decide_ifs :=
  repeat match goal with
  | H : context [if ?c then _ else _] |- _ =>
      let E := fresh "E" in
      destruct c eqn:E; bool_prop; try (exfalso; arith)
  | |- context [if ?c then _ else _] =>
      let E := fresh "E" in
      destruct c eqn:E; bool_prop; try (exfalso; arith)
  end.

Ltac same_state :=
  match goal with
  | |- (mkUtf8 _ ?a _ _, _) = (mkUtf8 _ ?b _ _, _) =>
      replace a with b by arith; reflexivity
  end.

Ltac same_units :=
  match goal with
  | |- (_, [?a]) = (_, [?b]) => replace a with b by arith; reflexivity
  end.

Lemma utf8Decode_step st z rest st' out :
  0 <= z < 256 -> utf8Step st z = (st', out) ->
  utf8Decode st (toUint8 z :: rest) = out ++ utf8Decode st' rest.
Proof.
  intros Hz H. cbn [utf8Decode]. rewrite byteVal_toUint8_small by exact Hz.
  rewrite H. reflexivity.
Qed.

Lemma utf8_one u rest :
  0 <= u < 128 ->
  utf8Decode utf8Init (toUint8 u :: rest) = u :: utf8Decode utf8Init rest.
Proof.
  intros Hu. rewrite (utf8Decode_step _ _ _ utf8Init [u]); [reflexivity | lia |].
  unfold utf8Step, utf8Lead. cbn [needed utf8Init Z.eqb].
  decide_ifs; reflexivity.
Qed.

Lemma utf8_two u rest :
  128 <= u < 2048 ->
  utf8Decode utf8Init
    (toUint8 (192 + u / 64) :: toUint8 (128 + u mod 64) :: rest) =
  u :: utf8Decode utf8Init rest.
Proof.
  intros Hu.
  rewrite (utf8Decode_step _ _ _ (mkUtf8 1 (u / 64) 128 191) []); [| arith |].
  2:{ unfold utf8Step, utf8Lead. cbn [needed utf8Init Z.eqb].
      decide_ifs; same_state. }
  rewrite (utf8Decode_step _ _ _ utf8Init [u]); [reflexivity | arith |].
  unfold utf8Step, codeUnits. cbn [needed lower upper codePoint Z.eqb Pos.eqb].
  decide_ifs; same_units.
Qed.

Lemma utf8_three u rest :
  2048 <= u < 65536 -> isHighSurrogate u = false -> isLowSurrogate u = false ->
  utf8Decode utf8Init
    (toUint8 (224 + u / 4096) :: toUint8 (128 + (u / 64) mod 64) ::
     toUint8 (128 + u mod 64) :: rest) =
  u :: utf8Decode utf8Init rest.
Proof.
  intros Hu Hh Hl.
  assert (Hns : u < 55296 \/ 57343 < u)
    by (unfold isHighSurrogate, isLowSurrogate in *; bool_prop; lia).
  clear Hh Hl.
  rewrite (utf8Decode_step _ _ _
             (mkUtf8 2 (u / 4096) (if u / 4096 =? 0 then 160 else 128)
                                  (if u / 4096 =? 13 then 159 else 191)) []);
    [| arith |].
  2:{ unfold utf8Step, utf8Lead. cbn [needed utf8Init Z.eqb].
      decide_ifs; same_state. }
  rewrite (utf8Decode_step _ _ _ (mkUtf8 1 (u / 64) 128 191) []); [| arith |].
  2:{ unfold utf8Step. cbn [needed lower upper codePoint].
      decide_ifs; same_state. }
  rewrite (utf8Decode_step _ _ _ utf8Init [u]); [reflexivity | arith |].
  unfold utf8Step, codeUnits. cbn [needed lower upper codePoint Z.eqb Pos.eqb].
  decide_ifs; same_units.
Qed.

Lemma utf8_four hi lo rest :
  isHighSurrogate hi = true -> isLowSurrogate lo = true ->
  let cp := 65536 + (hi - 55296) * 1024 + (lo - 56320) in
  utf8Decode utf8Init
    (toUint8 (240 + cp / 262144) :: toUint8 (128 + (cp / 4096) mod 64) ::
     toUint8 (128 + (cp / 64) mod 64) :: toUint8 (128 + cp mod 64) :: rest) =
  hi :: lo :: utf8Decode utf8Init rest.
Proof.
  intros Hh Hl cp. unfold isHighSurrogate, isLowSurrogate in *. bool_prop.
  assert (Hcp : 65536 <= cp < 1114112) by (unfold cp; lia).
  assert (Hhi : hi = 55296 + (cp - 65536) / 1024) by (unfold cp; arith).
  assert (Hlo : lo = 56320 + (cp - 65536) mod 1024) by (unfold cp; arith).
  clearbody cp.
  rewrite (utf8Decode_step _ _ _
             (mkUtf8 3 (cp / 262144) (if cp / 262144 =? 0 then 144 else 128)
                                     (if cp / 262144 =? 4 then 143 else 191)) []);
    [| arith |].
  2:{ unfold utf8Step, utf8Lead. cbn [needed utf8Init Z.eqb].
      decide_ifs; same_state. }
  rewrite (utf8Decode_step _ _ _ (mkUtf8 2 (cp / 4096) 128 191) []); [| arith |].
  2:{ unfold utf8Step. cbn [needed lower upper codePoint].
      decide_ifs; same_state. }
  rewrite (utf8Decode_step _ _ _ (mkUtf8 1 (cp / 64) 128 191) []); [| arith |].
  2:{ unfold utf8Step. cbn [needed lower upper codePoint].
      decide_ifs; same_state. }
  rewrite (utf8Decode_step _ _ _ utf8Init [hi; lo]); [reflexivity | arith |].
  unfold utf8Step, codeUnits. cbn [needed lower upper codePoint Z.eqb Pos.eqb].
  decide_ifs; f_equal;
    replace (cp / 64 * 64 + (128 + cp mod 64) mod 64) with cp by arith;
    rewrite <- Hhi, <- Hlo; reflexivity.
Qed.

Lemma utf8_round_trip_bounded (n : nat) :
  forall s, (List.length s <= n)%nat -> wellFormed s = true ->
            utf8Decode utf8Init (Buffer_fromString s) = s.
Proof.
  induction n as [|n IH]; intros s Hlen Hwf.
  - destruct s; [reflexivity | cbn in Hlen; lia].
  - destruct s as [|u rest]; [reflexivity|].
    cbn [List.length] in Hlen. cbn [wellFormed] in Hwf. cbn [Buffer_fromString].
    destruct (isHighSurrogate u) eqn:Eh.
    + (* surrogate pair *)
      destruct rest as [|lo rest']; [discriminate|].
      apply andb_true_iff in Hwf. destruct Hwf as [El Hwf].
      rewrite El. cbn [List.length] in Hlen.
      assert (Hu : 55296 <= u <= 56319)
        by (unfold isHighSurrogate in Eh; bool_prop; lia).
      destruct (u <? 128) eqn:E1; to_prop; [lia|].
      destruct (u <? 2048) eqn:E2; to_prop; [lia|].
      rewrite utf8_four by assumption.
      rewrite IH by (assumption || lia). reflexivity.
    + destruct (isLowSurrogate u) eqn:El; [discriminate|].
      apply andb_true_iff in Hwf. destruct Hwf as [Hr Hwf]. bool_prop.
      destruct (u <? 128) eqn:E1; to_prop.
      * rewrite utf8_one by lia. rewrite IH by (assumption || lia). reflexivity.
      * destruct (u <? 2048) eqn:E2; to_prop.
        -- rewrite utf8_two by lia. rewrite IH by (assumption || lia). reflexivity.
        -- rewrite utf8_three by (assumption || lia).
           rewrite IH by (assumption || lia). reflexivity.
Qed.

(** [toString('utf8')] undoes [Buffer.from(_, 'utf8')] on every string
    without a lone surrogate. *)
Lemma Buffer_toString_fromString s :
  wellFormed s = true -> Buffer_toString (Buffer_fromString s) = s.
Proof. intros H. exact (utf8_round_trip_bounded (List.length s) s (le_n _) H). Qed.

(** ** The message envelope *)

Lemma fl_nonneg z : 0 <= z -> 0 <= fl z.
Proof.
  intros Hz. unfold fl. destruct (Z.abs z <=? 2 ^ 53); [exact Hz|].
  assert (Hs : 0 <= Z.sgn z) by (apply Z.sgn_nonneg; exact Hz).
  set (e := Z.log2 (Z.abs z) - 52).
  assert (Hp : 0 <= 2 ^ e) by apply Z.pow_nonneg, Z.lt_le_incl, Z.lt_0_2.
  assert (Hq : 0 <= Z.abs z / 2 ^ e).
  { destruct (Z.eq_dec (2 ^ e) 0) as [-> | Hne].
    - rewrite Z.div_0_r. lia.
    - apply Z.div_pos; [apply Z.abs_nonneg | lia]. }
  apply Z.mul_nonneg_nonneg; [apply Z.mul_nonneg_nonneg; [exact Hs|] | exact Hp].
  repeat match goal with |- context [if ?c then _ else _] => destruct c end; lia.
Qed.

Lemma encodeUnsignedInt_length n enc :
  encodeUnsignedInt n = Ok enc -> 1 <= blen enc <= 9.
Proof.
  unfold encodeUnsignedInt.
  repeat match goal with
  | |- (if ?c then _ else _) = _ -> _ => destruct c
  end; intros He; try discriminate He;
  apply Ok_inj in He; subst enc; unfold blen; cbn; lia.
Qed.

Lemma encodeInt64_length_returns (strBuffer : Buffer) :
  returns (encodeInt64 (blen strBuffer)).
Proof.
  unfold encodeInt64. apply encodeUnsignedInt_returns.
  pose proof (blen_nonneg strBuffer) as H. unfold signedToUnsigned.
  destruct (blen strBuffer <? 0) eqn:E; to_prop; [lia|].
  apply fl_nonneg. lia.
Qed.

Lemma encodeMessage_shape message duVariant :
  exists lengthBuffer,
    encodeInt64 (blen (Buffer_fromString message)) = Ok lengthBuffer /\
    encodeMessage message duVariant =
      Ok (toUint8 duVariant :: lengthBuffer ++ Buffer_fromString message).
Proof.
  destruct (encodeInt64_length_returns (Buffer_fromString message)) as [lb Hlb].
  exists lb. split; [exact Hlb|].
  unfold encodeMessage, encodeString. rewrite Hlb. reflexivity.
Qed.

Lemma decodeMessage_returns buffer expectedDuVariant :
  returns (decodeMessage buffer expectedDuVariant).
Proof.
  unfold returns, decodeMessage, MIN_BUFFER_LENGTH, readUInt8.
  destruct (blen buffer <? 2) eqn:E; to_prop; [eexists; reflexivity|].
  destruct (proj2 (idx_some_iff buffer 0) ltac:(lia)) as [b Hb]. rewrite Hb.
  cbn [bind].
  destruct (negb (b =? expectedDuVariant)); [eexists; reflexivity|].
  destruct (decodeString buffer 1) as [[message bytesRead]|e]; eexists; reflexivity.
Qed.

Lemma decodeMessage_short buffer expectedDuVariant :
  blen buffer < 2 -> decodeMessage buffer expectedDuVariant = Ok None.
Proof.
  intros H. unfold decodeMessage, MIN_BUFFER_LENGTH.
  destruct (blen buffer <? 2) eqn:E; to_prop; [reflexivity | lia].
Qed.

Lemma decodeMessage_string_error buffer expectedDuVariant :
  raises (decodeString buffer 1) -> decodeMessage buffer expectedDuVariant = Ok None.
Proof.
  intros [e He]. unfold decodeMessage, MIN_BUFFER_LENGTH, readUInt8.
  destruct (blen buffer <? 2) eqn:E; to_prop; [reflexivity|].
  destruct (proj2 (idx_some_iff buffer 0) ltac:(lia)) as [b Hb]. rewrite Hb.
  cbn [bind]. rewrite He.
  destruct (negb (b =? expectedDuVariant)); reflexivity.
Qed.

Lemma decodeMessage_other_tag k k' rest :
  0 <= k <= 255 -> k <> k' -> decodeMessage (toUint8 k :: rest) k' = Ok None.
Proof.
  intros Hk Hne. unfold decodeMessage, readUInt8.
  destruct (blen (toUint8 k :: rest) <? MIN_BUFFER_LENGTH); [reflexivity|].
  rewrite idx_cons_0. cbn [bind]. rewrite byteVal_toUint8_small by lia.
  destruct (k =? k') eqn:E; to_prop; [contradiction | reflexivity].
Qed.

Lemma Buffer_slice_middle (pre mid : Buffer) :
  Buffer_slice (pre ++ mid) (Fin (blen pre)) (Fin (blen pre + blen mid)) = mid.
Proof.
  pose proof (blen_nonneg pre). pose proof (blen_nonneg mid).
  unfold Buffer_slice, adjustOffset. rewrite blen_app.
  destruct (blen pre <? 0) eqn:E1; to_prop; [lia|].
  destruct (blen pre + blen mid <? 0) eqn:E2; to_prop; [lia|].
  rewrite !Z.min_l by lia.
  replace (blen pre + blen mid - blen pre) with (blen mid) by lia.
  unfold blen. rewrite !Nat2Z.id.
  rewrite skipn_app, skipn_all, Nat.sub_diag. cbn [app skipn].
  apply firstn_all.
Qed.

Lemma decodeString_encoded k lengthBuffer message :
  Z.abs (blen (Buffer_fromString message)) <= 2 ^ 52 ->
  encodeInt64 (blen (Buffer_fromString message)) = Ok lengthBuffer ->
  decodeString (toUint8 k :: lengthBuffer ++ Buffer_fromString message) 1 =
  Ok (Buffer_toString (Buffer_fromString message),
      Fin (blen lengthBuffer + blen (Buffer_fromString message))).
Proof.
  intros Hlen Henc. set (strBuffer := Buffer_fromString message) in *.
  pose proof (blen_nonneg strBuffer) as Hs.
  pose proof (blen_nonneg lengthBuffer) as Hl.
  pose proof (signedToUnsigned_range _ Hlen) as Hu.
  unfold encodeInt64 in Henc.
  pose proof (decodeUnsignedInt_encodeUnsignedInt _ _ Hu Henc) as Hdec.
  pose proof (encodeUnsignedInt_length _ _ Henc) as Hlb.
  unfold decodeString, decodeInt64.
  change (toUint8 k :: lengthBuffer ++ strBuffer)
    with ([toUint8 k] ++ lengthBuffer ++ strBuffer).
  change 1 with (blen [toUint8 k]) at 1.
  rewrite (decodeUnsignedInt_frame _ _ _ _ Hdec). cbn [bind].
  rewrite zigzag_inverse by exact Hlen.
  unfold jadd. rewrite !fl_exact by lia.
  unfold jgt. rewrite !blen_app. change (blen [toUint8 k]) with 1.
  destruct (1 + (blen lengthBuffer + blen strBuffer) <? 1 + blen lengthBuffer + blen strBuffer) eqn:E;
    to_prop; [lia|].
  rewrite app_assoc.
  replace (1 + blen lengthBuffer) with (blen ([toUint8 k] ++ lengthBuffer))
    by (rewrite blen_app; reflexivity).
  rewrite Buffer_slice_middle. reflexivity.
Qed.

(** C3, as amended.  For every string [s] without a lone surrogate (of at
    most 2^52 UTF-8 bytes) and every tag byte [k], decoding the encoded
    message with [k] returns [s]; for every string at all and every other
    tag byte [k'] it returns [null] without raising; and [decodeMessage]
    never raises, returning [null] on a buffer shorter than two bytes and
    whenever [decodeString] raises. *)
Theorem decodeMessage_contract :
  (forall s k,
      wellFormed s = true -> blen (Buffer_fromString s) <= 2 ^ 52 ->
      0 <= k <= 255 ->
      exists enc, encodeMessage s k = Ok enc /\ decodeMessage enc k = Ok (Some s)) /\
  (forall s k k',
      0 <= k <= 255 -> 0 <= k' <= 255 -> k' <> k ->
      exists enc, encodeMessage s k = Ok enc /\ decodeMessage enc k' = Ok None) /\
  (forall buffer k,
      returns (decodeMessage buffer k) /\
      (blen buffer < 2 -> decodeMessage buffer k = Ok None) /\
      (raises (decodeString buffer 1) -> decodeMessage buffer k = Ok None)).
Proof.
  split; [| split].
  - intros s k Hwf Hlen Hk.
    destruct (encodeMessage_shape s k) as (lb & Hlb & Henc).
    eexists. split; [exact Henc|].
    pose proof (blen_nonneg (Buffer_fromString s)) as Hs.
    pose proof (encodeUnsignedInt_length _ _ Hlb) as Hl.
    unfold decodeMessage, MIN_BUFFER_LENGTH, readUInt8.
    change (toUint8 k :: lb ++ Buffer_fromString s)
      with ([toUint8 k] ++ lb ++ Buffer_fromString s) at 1.
    rewrite !blen_app. change (blen [toUint8 k]) with 1.
    destruct (1 + (blen lb + blen (Buffer_fromString s)) <? 2) eqn:E; to_prop; [lia|].
    rewrite idx_cons_0. cbn [bind]. rewrite byteVal_toUint8_small by lia.
    rewrite Z.eqb_refl. cbn [negb].
    rewrite decodeString_encoded by (try exact Hlb; lia).
    rewrite Buffer_toString_fromString by exact Hwf. reflexivity.
  - intros s k k' Hk Hk' Hne.
    destruct (encodeMessage_shape s k) as (lb & Hlb & Henc).
    eexists. split; [exact Henc|].
    apply decodeMessage_other_tag; [exact Hk | congruence].
  - intros buffer k. split; [apply decodeMessage_returns|].
    split; [apply decodeMessage_short | apply decodeMessage_string_error].
Qed.

Lemma decodeMessage_contract_witness :
  exists enc,
    encodeMessage (js "hello") 0 = Ok enc /\
    decodeMessage enc 0 = Ok (Some (js "hello")).
Proof.
  apply (proj1 decodeMessage_contract (js "hello") 0).
  - reflexivity.
  - vm_compute. discriminate.
  - lia.
Defined.

(** C3 as stated fails on a lone surrogate: [Buffer.from] writes U+FFFD for
    it, so the message that comes back is not the one that went in. *)
Lemma decodeMessage_lone_surrogate :
  exists enc,
    encodeMessage [55296] 0 = Ok enc /\
    enc = [x00; x06; xef; xbf; xbd] /\
    decodeMessage enc 0 = Ok (Some [65533]) /\
    decodeMessage enc 0 <> Ok (Some [55296]).
Proof.
  exists [x00; x06; xef; xbf; xbd].
  repeat split; try reflexivity. vm_compute. discriminate.
Qed.

(** C10. The length prefix is a zigzag signed integer and a negative one is
    not rejected: [decodeString([0x01], 0)] (declared length -1) returns
    the empty string with [bytesRead = 0], and [decodeMessage([k, 0x01], k)]
    returns the empty string, not [null], for every tag byte [k]. *)
Theorem decodeString_negative_length :
  decodeInt64 [x01] 0 = Ok (Fin (-1), 1) /\
  decodeString [x01] 0 = Ok ([], Fin 0) /\
  forall k : byte, decodeMessage [k; x01] (byteVal k) = Ok (Some []).
Proof.
  split; [reflexivity|]. split; [reflexivity|].
  intros k. unfold decodeMessage, readUInt8.
  change (blen [k; x01] <? MIN_BUFFER_LENGTH) with false. cbv iota.
  rewrite idx_cons_0. cbn [bind]. rewrite Z.eqb_refl. cbn [negb].
  reflexivity.
Qed.

(** ** Session identifiers *)

Lemma decimalValue_snoc digits c :
  decimalValue (digits ++ [c]) = decimalValue digits * 10 + (c - 48).
Proof. unfold decimalValue. rewrite fold_left_app. reflexivity. Qed.

Lemma digitsFuel_spec (k : nat) :
  forall fuel n,
    (S k <= fuel)%nat -> 0 <= n < 10 ^ Z.of_nat (S k) ->
    decimalValue (digitsFuel fuel n) = n /\
    Forall isDecimal (digitsFuel fuel n) /\
    (10 ^ Z.of_nat k <= n -> List.length (digitsFuel fuel n) = S k).
Proof.
  induction k as [|k IH]; intros fuel n Hfuel Hn.
  - destruct fuel as [|fuel]; [lia|]. cbn [digitsFuel].
    change (10 ^ Z.of_nat 1) with 10 in Hn.
    destruct (n <? 10) eqn:E; to_prop; [|lia].
    split; [unfold decimalValue; cbn [fold_left]; lia|].
    split; [constructor; [unfold isDecimal; lia | constructor] | reflexivity].
  - destruct fuel as [|fuel]; [lia|]. cbn [digitsFuel].
    assert (Hpow : 10 ^ Z.of_nat (S (S k)) = 10 * 10 ^ Z.of_nat (S k))
      by (rewrite (Nat2Z.inj_succ (S k)), Z.pow_succ_r by lia; reflexivity).
    assert (Hpow' : 10 ^ Z.of_nat (S k) = 10 * 10 ^ Z.of_nat k)
      by (rewrite (Nat2Z.inj_succ k), Z.pow_succ_r by lia; reflexivity).
    assert (Hpos : 0 < 10 ^ Z.of_nat k) by (apply Z.pow_pos_nonneg; lia).
    destruct (n <? 10) eqn:E; to_prop.
    + split; [unfold decimalValue; cbn [fold_left]; lia|].
      split; [constructor; [unfold isDecimal; lia | constructor] | lia].
    + assert (Hq : 0 <= n / 10 < 10 ^ Z.of_nat (S k))
        by (split; [apply Z.div_pos; lia | apply Z.div_lt_upper_bound; lia]).
      destruct (IH fuel (n / 10) ltac:(lia) Hq) as (Hv & Hd & Hl).
      pose proof (Z.div_mod n 10 ltac:(lia)) as Hdm.
      pose proof (Z.mod_pos_bound n 10 ltac:(lia)) as Hm.
      split; [rewrite decimalValue_snoc, Hv; lia|].
      split.
      * apply Forall_app. split; [exact Hd|].
        constructor; [unfold isDecimal; lia | constructor].
      * intros Hlow. rewrite length_app, Hl; [cbn; lia|].
        apply Z.div_le_lower_bound; lia.
Qed.

Lemma isDecimal_isHex c : isDecimal c -> isHex c.
Proof. unfold isDecimal, isHex. lia. Qed.

Lemma Forall_firstn_keep {A} (P : A -> Prop) (n : nat) (l : list A) :
  Forall P l -> Forall P (firstn n l).
Proof.
  intros H. revert n. induction H as [|x l Hx Hl IH]; intros [|n]; cbn;
    constructor; auto.
Qed.

Lemma padding_isHex : Forall isHex SESSION_ID_PADDING_CHARS.
Proof.
  let v := eval vm_compute in SESSION_ID_PADDING_CHARS in
  change SESSION_ID_PADDING_CHARS with v.
  repeat (constructor; [unfold isHex; lia|]). constructor.
Qed.

(** The digits of a positive number start with a digit that is not 0. *)
Lemma digitsFuel_leading (k : nat) :
  forall fuel n,
    (S k <= fuel)%nat -> 1 <= n < 10 ^ Z.of_nat (S k) ->
    exists d rest, digitsFuel fuel n = d :: rest /\ 49 <= d <= 57.
Proof.
  induction k as [|k IH]; intros fuel n Hfuel Hn.
  - destruct fuel as [|fuel]; [lia|]. cbn [digitsFuel].
    change (10 ^ Z.of_nat 1) with 10 in Hn.
    destruct (n <? 10) eqn:E; to_prop; [|lia].
    exists (48 + n), []. split; [reflexivity | lia].
  - destruct fuel as [|fuel]; [lia|]. cbn [digitsFuel].
    assert (Hpow : 10 ^ Z.of_nat (S (S k)) = 10 * 10 ^ Z.of_nat (S k))
      by (rewrite (Nat2Z.inj_succ (S k)), Z.pow_succ_r by lia; reflexivity).
    destruct (n <? 10) eqn:E; to_prop.
    + exists (48 + n), []. split; [reflexivity | lia].
    + assert (Hq : 1 <= n / 10 < 10 ^ Z.of_nat (S k))
        by (split; [apply Z.div_le_lower_bound; lia
                   | apply Z.div_lt_upper_bound; lia]).
      destruct (IH fuel (n / 10) ltac:(lia) Hq) as (d & rest & Heq & Hd).
      exists d, (rest ++ [48 + n mod 10]). rewrite Heq. split; [reflexivity | exact Hd].
Qed.

(** C9. For every random draw [r] in [10000, 1000000),
    [generateSessionId()] is a string of exactly 40 characters: the decimal
    digits of [r] (all decimal, denoting [r], the first one not 0, so five
    of them when [r < 100000] and six otherwise), then the prefix of the
    fixed seed that fills it to length 40; every character is one of
    [0-9a-f]. *)
Theorem generateSessionId_layout (draw : Z) :
  0 <= draw < SESSION_ID_RANGE ->
  let r := draw + SESSION_ID_MIN in
  10000 <= r < 1000000 /\
  exists digits,
    generateSessionId draw =
      digits ++ firstn (40 - List.length digits) SESSION_ID_PADDING_CHARS /\
    (List.length digits = 5%nat \/ List.length digits = 6%nat) /\
    Forall isDecimal digits /\ decimalValue digits = r /\
    (exists d rest, digits = d :: rest /\ 49 <= d <= 57) /\
    (List.length digits = 5%nat <-> r < 100000) /\
    List.length (generateSessionId draw) = 40%nat /\
    Forall isHex (generateSessionId draw).
Proof.
  intros Hd r. unfold SESSION_ID_RANGE in Hd. unfold SESSION_ID_MIN in r.
  assert (Hr : 10000 <= r < 1000000) by (unfold r; lia).
  split; [exact Hr|].
  unfold generateSessionId. change (draw + SESSION_ID_MIN) with r. cbv zeta.
  unfold Number_toString. destruct (r <? 0) eqn:E; to_prop; [lia|].
  set (fuel := S (Z.to_nat (Z.log2 r))).
  assert (Hfuel : (14 <= fuel)%nat).
  { unfold fuel. assert (13 <= Z.log2 r); [|lia].
    apply Z.log2_le_pow2; lia. }
  set (digits := digitsFuel fuel r).
  assert (Hlead : exists d rest, digits = d :: rest /\ 49 <= d <= 57).
  { apply (digitsFuel_leading 5 fuel r); [lia | cbn; lia]. }
  assert (Hspec : decimalValue digits = r /\ Forall isDecimal digits /\
                  (List.length digits = 5%nat \/ List.length digits = 6%nat) /\
                  (List.length digits = 5%nat <-> r < 100000)).
  { destruct (Z_lt_le_dec r 100000) as [Hlt | Hge].
    - destruct (digitsFuel_spec 4 fuel r ltac:(lia) ltac:(cbn; lia)) as (Hv & Hf & Hl).
      assert (Hl5 : List.length digits = 5%nat) by (apply Hl; cbn; lia).
      split; [exact Hv|]. split; [exact Hf|]. split; [left; exact Hl5|].
      split; intros _; assumption.
    - destruct (digitsFuel_spec 5 fuel r ltac:(lia) ltac:(cbn; lia)) as (Hv & Hf & Hl).
      assert (Hl6 : List.length digits = 6%nat) by (apply Hl; cbn; lia).
      split; [exact Hv|]. split; [exact Hf|]. split; [right; exact Hl6|].
      split; [intros H5; rewrite Hl6 in H5; discriminate H5 | lia]. }
  destruct Hspec as (Hv & Hf & Hl & Hfive). clearbody digits. clear fuel Hfuel.
  exists digits.
  assert (Hpad : padEnd digits SESSION_ID_PADDING_LENGTH SESSION_ID_PADDING_CHARS =
                 digits ++ firstn (40 - List.length digits) SESSION_ID_PADDING_CHARS).
  { unfold padEnd, SESSION_ID_PADDING_LENGTH.
    destruct Hl as [Hl | Hl]; rewrite Hl; reflexivity. }
  rewrite Hpad.
  split; [reflexivity|]. split; [exact Hl|]. split; [exact Hf|]. split; [exact Hv|].
  split; [exact Hlead|]. split; [exact Hfive|].
  split.
  - rewrite length_app. destruct Hl as [Hl | Hl]; rewrite Hl; reflexivity.
  - apply Forall_app. split.
    + eapply Forall_impl; [|exact Hf]. exact isDecimal_isHex.
    + apply Forall_firstn_keep. exact padding_isHex.
Qed.

Lemma generateSessionId_layout_witness :
  let r := 2345 + SESSION_ID_MIN in
  10000 <= r < 1000000 /\
  exists digits,
    generateSessionId 2345 =
      digits ++ firstn (40 - List.length digits) SESSION_ID_PADDING_CHARS /\
    (List.length digits = 5%nat \/ List.length digits = 6%nat) /\
    Forall isDecimal digits /\ decimalValue digits = r /\
    (exists d rest, digits = d :: rest /\ 49 <= d <= 57) /\
    (List.length digits = 5%nat <-> r < 100000) /\
    List.length (generateSessionId 2345) = 40%nat /\
    Forall isHex (generateSessionId 2345).
Proof. apply (generateSessionId_layout 2345). unfold SESSION_ID_RANGE. lia. Defined.

(** ** Invariants of the connection object *)

Ltac open_world w :=
  destruct w as
    [[duVariant' maxRetries' callbacks' sessionId' cookie' connectionId'
      clientId' leaderId' readyState' bufferedAmount' ws'
      [setupCalled' isReady' retryCount' retryTimeout' messageQueue']]
     timers' nextTimer' initialTimer' initSuspended' log'].

Lemma filter_timer_handle (ts : list nat) t0 :
  (forall t, In t ts -> Some t0 = Some t) ->
  filter (fun x => negb (Nat.eqb x t0)) ts = [].
Proof.
  intros H. induction ts as [|a ts IH]; [reflexivity|].
  cbn [filter]. assert (Ha : Some t0 = Some a) by (apply H; left; reflexivity).
  injection Ha as <-. rewrite Nat.eqb_refl. cbn [negb].
  apply IH. intros t Ht. apply H. right. exact Ht.
Qed.

Lemma no_handle_no_timer (ts : list nat) :
  (forall t, In t ts -> @None nat = Some t) -> ts = [].
Proof.
  destruct ts as [|a ts]; [reflexivity|]. intros H.
  specialize (H a (or_introl eq_refl)). discriminate.
Qed.

Lemma invariant_construct options draw : Invariant (construct options draw).
Proof.
  unfold construct. constructor; cbn; try discriminate; try tauto.
Qed.

(** Evaluate the field assignments, innermost first. *)
Ltac world_simpl :=
  cbv [set_callbacks set_sessionId set_cookie set_connectionId set_clientId
       set_leaderId set_readyState set_bufferedAmount set_ws set_setupCalled
       set_isReady set_retryCount set_retryTimeout set_messageQueue
       emit clearTimeout setRetryTimer removeTimer
       world_self world_timers world_nextTimer world_initialTimer
       world_initSuspended world_log
       obj_callbacks obj_sessionId obj_cookie obj_connectionId obj_clientId
       obj_leaderId obj_readyState obj_bufferedAmount obj_ws obj_state
       st_setupCalled st_isReady st_retryCount st_retryTimeout st_messageQueue
       self timers nextTimer initialTimer initSuspended log
       duVariant maxRetries callbacks sessionId cookie connectionId clientId
       leaderId readyState bufferedAmount _ws _state
       setupCalled isReady retryCount retryTimeout messageQueue fst snd] in *.

(** Close the five parts of the invariant once the world is a literal. *)
Ltac inv_close :=
  constructor; world_simpl; cbn [In app] in *; intros;
  repeat match goal with
  | H : ?x = ?x -> _ |- _ => specialize (H eq_refl)
  | H : _ /\ _ |- _ => destruct H
  end;
  subst; cbn [In app] in *; eauto;
  try discriminate; try tauto; try congruence;
  try solve [intuition (subst; try congruence; eauto)].

(** After the teardown nothing of the old connection is left: no socket, no
    pending retry timer, no handle. *)
Lemma _disconnectInternal_clears w :
  Invariant w ->
  let w' := _disconnectInternal w in
  _ws (self w') = None /\ timers w' = [] /\
  retryTimeout (_state (self w')) = None /\
  readyState (self w') = readyState (self w) /\
  initialTimer w' = initialTimer w /\ initSuspended w' = initSuspended w /\
  retryCount (_state (self w')) = retryCount (_state (self w)) /\
  maxRetries (self w') = maxRetries (self w) /\
  callbacks (self w') = callbacks (self w) /\
  clientId (self w') = None /\ leaderId (self w') = None /\
  connectionId (self w') = None /\ messageQueue (_state (self w')) = [].
Proof.
  intros [H1 H2 H3 H4 H5]. open_world w. unfold _disconnectInternal.
  world_simpl.
  destruct retryTimeout' as [t0|]; destruct ws' as [ws|]; world_simpl;
    rewrite ?(filter_timer_handle _ _ H2); rewrite ?(no_handle_no_timer _ H2);
    repeat split; reflexivity.
Qed.

Lemma drain_queue (queue : list jsstring) w :
  fold_left (fun w message => emit (SocketSend message) w) queue w =
  world_log (log w ++ map SocketSend queue) w.
Proof.
  revert w. induction queue as [|m queue IH]; intros w; cbn [fold_left map].
  - rewrite app_nil_r. destruct w. reflexivity.
  - rewrite IH. destruct w. unfold emit, world_log. cbn.
    rewrite <- app_assoc. reflexivity.
Qed.

Lemma invariant_handleLeaderDisconnection w :
  Invariant w -> initSuspended w = false -> initialTimer w = false ->
  Invariant (_handleLeaderDisconnection w).
Proof.
  intros Hinv Hs Hi. unfold _handleLeaderDisconnection.
  set (w1 := set_readyState CONNECTING (set_retryCount _ w)).
  assert (Hinv1 : Invariant w1).
  { destruct Hinv as [H1 H2 H3 H4 H5]. subst w1. open_world w. world_simpl.
    constructor; world_simpl; try discriminate; assumption. }
  assert (Hs1 : initSuspended w1 = false) by (subst w1; open_world w; exact Hs).
  assert (Hi1 : initialTimer w1 = false) by (subst w1; open_world w; exact Hi).
  assert (Hrs1 : readyState (self w1) = CONNECTING) by (subst w1; open_world w; reflexivity).
  clearbody w1. clear Hinv Hs Hi w.
  pose proof (_disconnectInternal_clears w1 Hinv1) as Hc. cbv zeta in Hc.
  destruct Hc as (Hws & Ht & Hrt & Hrs & Hit & Hsu & _).
  set (w2 := _disconnectInternal w1) in *. clearbody w2.
  rewrite Hi1 in Hit. rewrite Hs1 in Hsu. rewrite Hrs1 in Hrs.
  clear Hinv1 Hs1 Hi1 Hrs1 w1.
  destruct (retryCount (_state (self w2)) <=? maxRetries (self w2)).
  - open_world w2. world_simpl. subst. inv_close.
  - destruct (onleaderdisconnect _); open_world w2; world_simpl; subst; inv_close.
Qed.

Lemma invariant_step e w : Invariant w -> Invariant (step e w).
Proof.
  intros Hinv. pose proof Hinv as [H1 H2 H3 H4 H5].
  destruct e; unfold step.
  - (* the initial timer *)
    destruct (initialTimer w) eqn:E; [|exact Hinv].
    unfold _initWebSocket. open_world w. world_simpl. subst. inv_close.
  - (* a retry timer *)
    destruct (hasTimer t w) eqn:E; [|exact Hinv].
    unfold hasTimer in E. apply existsb_exists in E. destruct E as (t' & Hin & Heq).
    apply Nat.eqb_eq in Heq. subst t'.
    assert (Hws : _ws (self w) = None)
      by (apply H3; intros Hn; rewrite Hn in Hin; exact Hin).
    pose proof (H2 t Hin) as Hrt.
    assert (Hf : filter (fun x => negb (Nat.eqb x t)) (timers w) = [])
      by (apply filter_timer_handle; intros t' Ht'; rewrite <- Hrt; apply H2; exact Ht').
    assert (Hi : initialTimer w = false).
    { destruct (initialTimer w); [|reflexivity].
      destruct (H5 eq_refl) as (_ & Hc & _). rewrite Hc in Hin. destruct Hin. }
    unfold retryTimerCallback, _initWebSocket. open_world w. world_simpl.
    rewrite Hf. subst. inv_close.
  - (* _initWebSocket resumes *)
    destruct (initSuspended w) eqn:E; [|exact Hinv].
    destruct (H4 eq_refl) as (Hws & Ht).
    assert (Hi : initialTimer w = false).
    { destruct (initialTimer w); [|reflexivity].
      destruct (H5 eq_refl) as (_ & _ & Hc). discriminate. }
    unfold _initWebSocket_resume, syncReadyState.
    destruct available; [| destruct (onerror _)];
      open_world w; world_simpl; subst; inv_close.
  - (* the socket opens *)
    destruct (_ws (self w)) as [ws|] eqn:Ews; [|exact Hinv].
    unfold ws_onopen. rewrite drain_queue.
    open_world w. world_simpl. subst. inv_close.
  - (* a frame arrives *)
    destruct (_ws (self w)) as [ws|] eqn:Ews; [|exact Hinv].
    assert (Hs : initSuspended w = false).
    { destruct (initSuspended w); [|reflexivity].
      destruct (H4 eq_refl). congruence. }
    assert (Hi : initialTimer w = false).
    { destruct (initialTimer w); [|reflexivity].
      destruct (H5 eq_refl). congruence. }
    unfold ws_onmessage.
    destruct (parseTransportMessage data (duVariant (self w)))
      as [leader | message sid cid | sid cid | raw].
    + (* election *)
      unfold _applyLeaderStatusChange.
      destruct (_evaluateLeaderStatus leader w) as [ev|]; [|exact Hinv].
      destruct (actionDisconnect ev); cbn [fst].
      * apply invariant_handleLeaderDisconnection.
        -- open_world w. world_simpl. inv_close.
        -- open_world w. exact Hs.
        -- open_world w. exact Hi.
      * open_world w. world_simpl. inv_close.
    + (* application message *)
      destruct (onmessage _); [|exact Hinv].
      open_world w. world_simpl. inv_close.
    + (* protocol *)
      destruct (truthy cid); [|exact Hinv].
      destruct (negb (truthy (connectionId (self w)))); [|exact Hinv].
      open_world w. world_simpl.
      destruct (0 <? retryCount'); world_simpl;
        destruct (onopen callbacks'); world_simpl;
        destruct (onsetup callbacks' && negb setupCalled'); world_simpl;
        inv_close.
    + exact Hinv.
  - (* the socket closes *)
    destruct (_ws (self w)) as [ws|] eqn:Ews; [|exact Hinv].
    unfold ws_onclose. open_world w. world_simpl.
    destruct (onclose callbacks'); world_simpl; subst; inv_close.
  - (* the socket reports an error *)
    destruct (_ws (self w)) as [ws|] eqn:Ews; [|exact Hinv].
    unfold ws_onerror. destruct (onerror _); [|exact Hinv].
    open_world w. world_simpl. inv_close.
  - (* the socket changes state *)
    destruct (_ws (self w)) as [ws|] eqn:Ews; [|exact Hinv].
    open_world w. world_simpl. subst. inv_close.
  - (* the poll *)
    unfold syncReadyState.
    destruct (_ws (self w)) as [ws|] eqn:Ews; [|exact Hinv].
    open_world w. world_simpl. subst. inv_close.
  - (* callbacks are assigned *)
    open_world w. world_simpl. inv_close.
  - (* send *)
    destruct (send data w) as [w'|err] eqn:Es; [|exact Hinv].
    unfold send in Es.
    destruct (_ && _); [apply Ok_inj in Es; subst w'; exact Hinv|].
    destruct (readyState (self w)) eqn:Ers; try discriminate Es;
      destruct (createTransportMessage _ _ _ _) as [tm|]; try discriminate Es;
      cbn [bind] in Es.
    + apply Ok_inj in Es. subst w'.
      open_world w. world_simpl. inv_close.
    + destruct (_ws (self w)) eqn:Ews; [|discriminate Es].
      apply Ok_inj in Es. subst w'.
      open_world w. world_simpl. inv_close.
  - (* close *)
    unfold close. open_world w. world_simpl.
    destruct retryTimeout' as [t0|]; destruct ws' as [ws|]; world_simpl;
      rewrite ?(filter_timer_handle _ _ H2); rewrite ?(no_handle_no_timer _ H2);
      inv_close.
Qed.

Theorem reachable_invariant w : reachable w -> Invariant w.
Proof.
  induction 1 as [options draw | e w Hr IH].
  - apply invariant_construct.
  - apply invariant_step. exact IH.
Qed.

(** ** The retry counter in reachable worlds *)

Lemma retryInvariant_construct options draw : RetryInvariant (construct options draw).
Proof. unfold construct. split; cbn; [lia | discriminate]. Qed.

Ltac retry_close :=
  split; world_simpl; intros;
  repeat match goal with
  | H : ?x = ?x -> _ |- _ => specialize (H eq_refl)
  end;
  try discriminate; try lia; auto.

Lemma retryInvariant_handleLeaderDisconnection w :
  retryCount (_state (self w)) = 0 -> RetryInvariant (_handleLeaderDisconnection w).
Proof.
  intros Hrc. unfold _handleLeaderDisconnection, _disconnectInternal.
  open_world w. world_simpl. subst.
  destruct retryTimeout'; destruct ws'; world_simpl;
    destruct (_ <=? _); world_simpl;
    try destruct (onleaderdisconnect callbacks'); retry_close.
Qed.

Lemma retryInvariant_step e w : RetryInvariant w -> RetryInvariant (step e w).
Proof.
  intros Hinv. pose proof Hinv as [Hr Hc].
  destruct e; unfold step.
  - destruct (initialTimer w); [|exact Hinv].
    unfold _initWebSocket. open_world w. world_simpl. retry_close.
  - destruct (hasTimer t w); [|exact Hinv].
    unfold retryTimerCallback, _initWebSocket. open_world w. world_simpl. retry_close.
  - destruct (initSuspended w); [|exact Hinv].
    unfold _initWebSocket_resume, syncReadyState.
    destruct available; [| destruct (onerror _)];
      open_world w; world_simpl; retry_close.
  - destruct (_ws (self w)) as [ws|]; [|exact Hinv].
    unfold ws_onopen. rewrite drain_queue. open_world w. world_simpl. retry_close.
  - destruct (_ws (self w)) as [ws|]; [|exact Hinv].
    unfold ws_onmessage.
    destruct (parseTransportMessage data (duVariant (self w)))
      as [leader | message sid cid | sid cid | raw].
    + unfold _applyLeaderStatusChange, _evaluateLeaderStatus.
      destruct (truthy leader); cbn [negb orb]; [|exact Hinv].
      destruct (truthy (clientId (self w))) eqn:Et; cbn [negb]; [|exact Hinv].
      cbn [actionDisconnect newLeader].
      destruct (strictEq (clientId (self w)) leader); cbn [fst].
      * apply retryInvariant_handleLeaderDisconnection.
        open_world w. world_simpl. auto.
      * open_world w. world_simpl. retry_close.
    + destruct (onmessage _); [|exact Hinv].
      open_world w. world_simpl. retry_close.
    + destruct (truthy cid); [|exact Hinv].
      destruct (negb (truthy (connectionId (self w)))); [|exact Hinv].
      open_world w. world_simpl.
      destruct (0 <? retryCount') eqn:E; to_prop; world_simpl;
        destruct (onopen callbacks'); world_simpl;
        destruct (onsetup callbacks' && negb setupCalled'); world_simpl;
        retry_close.
    + exact Hinv.
  - destruct (_ws (self w)) as [ws|]; [|exact Hinv].
    unfold ws_onclose. open_world w. world_simpl.
    destruct (onclose callbacks'); world_simpl; retry_close.
  - destruct (_ws (self w)) as [ws|]; [|exact Hinv].
    unfold ws_onerror. destruct (onerror _); [|exact Hinv].
    open_world w. world_simpl. retry_close.
  - destruct (_ws (self w)) as [ws|]; [|exact Hinv].
    open_world w. world_simpl. retry_close.
  - unfold syncReadyState. destruct (_ws (self w)) as [ws|]; [|exact Hinv].
    open_world w. world_simpl. retry_close.
  - open_world w. world_simpl. retry_close.
  - destruct (send data w) as [w'|err] eqn:Es; [|exact Hinv].
    unfold send in Es.
    destruct (_ && _); [apply Ok_inj in Es; subst w'; exact Hinv|].
    destruct (readyState (self w)); try discriminate Es;
      destruct (createTransportMessage _ _ _ _) as [tm|]; try discriminate Es;
      cbn [bind] in Es.
    + apply Ok_inj in Es. subst w'. open_world w. world_simpl. retry_close.
    + destruct (_ws (self w)); [|discriminate Es].
      apply Ok_inj in Es. subst w'. open_world w. world_simpl. retry_close.
  - unfold close. open_world w. world_simpl.
    destruct retryTimeout'; destruct ws'; world_simpl; retry_close.
Qed.

(** A self-election needs a clientId, which only the handshake stores, and
    the handshake resets the counter: in every reachable world
    [retryCount] is 0 or 1, and 0 while a clientId is stored. *)
Theorem reachable_retryCount w : reachable w -> RetryInvariant w.
Proof.
  induction 1 as [options draw | e w Hr IH].
  - apply retryInvariant_construct.
  - apply retryInvariant_step. exact IH.
Qed.

(** ** Election frames *)

Lemma jsstring_eqb_eq a b : jsstring_eqb a b = true <-> a = b.
Proof.
  unfold jsstring_eqb. destruct (list_eq_dec Z.eq_dec a b); split; congruence.
Qed.

Lemma jsstring_eqb_refl a : jsstring_eqb a a = true.
Proof. apply jsstring_eqb_eq. reflexivity. Qed.

Lemma parse_election leader expected :
  parseTransportMessage (electionFrame leader) expected = TElection (Some leader).
Proof. reflexivity. Qed.

(** C5 as stated fails before the handshake: with no clientId stored, an
    election frame naming [Y2] leaves [leaderId] at [null]. *)
Lemma election_before_handshake :
  clientId (self connectedWorld) = None /\
  leaderId (self (step (SocketMessage (electionFrame (js "Y2"))) connectedWorld)) = None /\
  leaderId (self (step (SocketMessage (electionFrame (js "Y2"))) connectedWorld))
    <> Some (js "Y2").
Proof. repeat split; try reflexivity. vm_compute. discriminate. Qed.

(** C5, as amended.  An election frame carrying a non-empty leader id [L]
    sets [leaderId := L] whenever a clientId is stored, also when [L] is
    already the current leader; when [L] is the client's own id the teardown
    that follows clears [leaderId] again; and while no clientId is stored
    the frame changes nothing. *)
Theorem election_sets_leader (w : World) (L : jsstring) :
  L <> [] ->
  let w' := ws_onmessage (electionFrame L) w in
  (truthy (clientId (self w)) = false -> w' = w) /\
  (forall c, clientId (self w) = Some c -> c <> [] -> c <> L ->
             w' = set_leaderId (Some L) w /\ leaderId (self w') = Some L) /\
  (clientId (self w) = Some L ->
   w' = _handleLeaderDisconnection (set_leaderId (Some L) w) /\
   leaderId (self w') = None).
Proof.
  intros HL w'. subst w'. unfold ws_onmessage. rewrite parse_election.
  unfold _applyLeaderStatusChange, _evaluateLeaderStatus.
  assert (HtL : truthy (Some L) = true) by (destruct L; [contradiction | reflexivity]).
  rewrite HtL. cbn [negb orb].
  split; [| split].
  - intros ->. reflexivity.
  - intros c Hc Hne Hdiff. rewrite Hc.
    assert (Htc : truthy (Some c) = true) by (destruct c; [contradiction | reflexivity]).
    rewrite Htc. cbn [negb actionDisconnect newLeader strictEq].
    destruct (jsstring_eqb c L) eqn:E; [apply jsstring_eqb_eq in E; contradiction|].
    cbn [fst]. split; [reflexivity|]. open_world w. reflexivity.
  - intros Hc. rewrite Hc, HtL. cbn [negb actionDisconnect newLeader strictEq].
    rewrite jsstring_eqb_refl. cbn [fst]. split; [reflexivity|].
    unfold _handleLeaderDisconnection, _disconnectInternal.
    open_world w. world_simpl.
    destruct retryTimeout'; destruct ws'; world_simpl;
      destruct (_ <=? _); world_simpl;
      try destruct (onleaderdisconnect callbacks'); reflexivity.
Qed.

Lemma election_sets_leader_witness :
  let w' := ws_onmessage (electionFrame (js "Y2")) handshakenWorld in
  (truthy (clientId (self handshakenWorld)) = false -> w' = handshakenWorld) /\
  (forall c, clientId (self handshakenWorld) = Some c -> c <> [] -> c <> js "Y2" ->
             w' = set_leaderId (Some (js "Y2")) handshakenWorld /\
             leaderId (self w') = Some (js "Y2")) /\
  (clientId (self handshakenWorld) = Some (js "Y2") ->
   w' = _handleLeaderDisconnection (set_leaderId (Some (js "Y2")) handshakenWorld) /\
   leaderId (self w') = None).
Proof. apply (election_sets_leader handshakenWorld (js "Y2")). discriminate. Defined.

(** ** The leader-avoidance loop *)



(** ** [send] and [close] *)

Lemma createTransportMessage_returns sid cid data variant :
  returns (createTransportMessage sid cid data variant).
Proof.
  unfold createTransportMessage.
  destruct (encodeMessage_shape data variant) as (lb & _ & ->).
  cbn [bind]. eexists. reflexivity.
Qed.

(** C8 as stated fails when no socket exists: during the initial-connect
    delay right after construction, and after a leader teardown, [close()]
    leaves the object CLOSED, not CLOSING. *)
Lemma close_without_socket :
  (let w := construct (mkOptions None None None None) 0 in
   _ws (self w) = None /\ initialTimer w = true /\
   readyState (self (close None None w)) = CLOSED /\
   readyState (self (close None None w)) <> CLOSING) /\
  (let w := step (SocketMessage (electionFrame (js "X1"))) handshakenWorld in
   _ws (self w) = None /\ timers w = [1%nat] /\
   readyState (self (close None None w)) = CLOSED /\
   readyState (self (close None None w)) <> CLOSING).
Proof. vm_compute. repeat split; try reflexivity; discriminate. Qed.

Section PublicSurface.

Variable w : World.
Hypothesis Hreach : reachable w.

(** C7. [send(data)] by case: during the retry window
    ([0 < retryCount <= maxRetries]) it returns without sending or queuing;
    otherwise, CONNECTING appends the framed transport message to the
    queue, OPEN sends it on the socket at once, and any other state
    raises. *)
Theorem send_cases (data : jsstring) :
  let rc := retryCount (_state (self w)) in
  let framed := createTransportMessage (sessionId (self w)) (connectionId (self w))
                  data (duVariant (self w)) in
  (0 < rc <= maxRetries (self w) -> send data w = Ok w) /\
  (~ (0 < rc <= maxRetries (self w)) ->
   exists transportMessage,
     framed = Ok transportMessage /\
     match readyState (self w) with
     | CONNECTING =>
         send data w =
         Ok (set_messageQueue (messageQueue (_state (self w)) ++ [transportMessage]) w)
     | OPEN => send data w = Ok (emit (SocketSend transportMessage) w)
     | CLOSING => send data w = Throw (NotOpen 2)
     | CLOSED => send data w = Throw (NotOpen 3)
     end).
Proof.
  intros rc framed. pose proof (reachable_invariant w Hreach) as [H1 _ _ _ _].
  unfold send. fold rc. split.
  - intros Hrc.
    destruct (0 <? rc) eqn:E1; destruct (rc <=? maxRetries (self w)) eqn:E2;
      to_prop; try lia. reflexivity.
  - intros Hrc.
    replace ((0 <? rc) && (rc <=? maxRetries (self w))) with false.
    2:{ destruct (0 <? rc) eqn:E1; destruct (rc <=? maxRetries (self w)) eqn:E2;
          to_prop; try reflexivity. lia. }
    destruct (createTransportMessage_returns (sessionId (self w))
                (connectionId (self w)) data (duVariant (self w))) as [tm Htm].
    exists tm. split; [exact Htm|]. fold framed. unfold framed. rewrite Htm.
    destruct (readyState (self w)) eqn:Ers; cbn [bind readyStateCode]; try reflexivity.
    destruct (_ws (self w)) eqn:Ews; [reflexivity|].
    exfalso. apply (H1 eq_refl). reflexivity.
Qed.

(** C8, as amended.  After [close(code, reason)] returns no retry timer is
    pending and the handle is dropped; [readyState] is CLOSING when an
    underlying socket exists (and the socket has been asked to close), and
    CLOSED when none does. *)
Theorem close_cancels_and_closes (code : option Z) (reason : option jsstring) :
  let w' := close code reason w in
  timers w' = [] /\ retryTimeout (_state (self w')) = None /\
  (forall ws, _ws (self w) = Some ws ->
              readyState (self w') = CLOSING /\
              exists effects, log w' = effects ++ [SocketClose code reason]) /\
  (_ws (self w) = None -> readyState (self w') = CLOSED).
Proof.
  intros w'. subst w'.
  pose proof (reachable_invariant w Hreach) as [_ H2 _ _ _].
  clear Hreach. unfold close. open_world w. world_simpl.
  destruct retryTimeout' as [t0|]; destruct ws' as [ws0|]; world_simpl;
    rewrite ?(filter_timer_handle _ _ H2); rewrite ?(no_handle_no_timer _ H2);
    repeat split; try reflexivity; try discriminate;
    try (intros; eexists; reflexivity).
Qed.

End PublicSurface.

Lemma reachable_handshakenWorld : reachable handshakenWorld.
Proof.
  unfold handshakenWorld, connectedWorld, run. cbn [fold_left].
  repeat apply reachable_step. apply reachable_construct.
Qed.

Lemma send_cases_witness :
  let w := handshakenWorld in
  let data := js "ping" in
  let rc := retryCount (_state (self w)) in
  let framed := createTransportMessage (sessionId (self w)) (connectionId (self w))
                  data (duVariant (self w)) in
  (0 < rc <= maxRetries (self w) -> send data w = Ok w) /\
  (~ (0 < rc <= maxRetries (self w)) ->
   exists transportMessage,
     framed = Ok transportMessage /\
     match readyState (self w) with
     | CONNECTING =>
         send data w =
         Ok (set_messageQueue (messageQueue (_state (self w)) ++ [transportMessage]) w)
     | OPEN => send data w = Ok (emit (SocketSend transportMessage) w)
     | CLOSING => send data w = Throw (NotOpen 2)
     | CLOSED => send data w = Throw (NotOpen 3)
     end).
Proof. exact (send_cases handshakenWorld reachable_handshakenWorld (js "ping")). Defined.

Lemma close_cancels_and_closes_witness :
  let w := step (SocketMessage (electionFrame (js "X1"))) handshakenWorld in
  let w' := close (Some 1000) None w in
  timers w' = [] /\ retryTimeout (_state (self w')) = None /\
  (forall ws, _ws (self w) = Some ws ->
              readyState (self w') = CLOSING /\
              exists effects, log w' = effects ++ [SocketClose (Some 1000) None]) /\
  (_ws (self w) = None -> readyState (self w') = CLOSED).
Proof.
  exact (close_cancels_and_closes _
           (reachable_step (SocketMessage (electionFrame (js "X1"))) _
              reachable_handshakenWorld)
           (Some 1000) None).
Defined.

(** * Further properties of the codec *)

(** ** Zigzag *)

(** X1. Within the exactly-representable range the zigzag map sends the
    non-negative integers to the even numbers and the negative ones to the
    odd numbers, never more than twice the magnitude away from zero, and no
    two integers to the same number. *)
Theorem signedToUnsigned_interleaves (n : Z) :
  Z.abs n <= 2 ^ 52 ->
  0 <= signedToUnsigned n <= 2 * Z.abs n /\
  (Z.even (signedToUnsigned n) = true <-> 0 <= n) /\
  (forall m, Z.abs m <= 2 ^ 52 ->
             signedToUnsigned n = signedToUnsigned m -> n = m) /\
  (forall m, 0 <= n < m -> m <= 2 ^ 52 ->
             signedToUnsigned n < signedToUnsigned m).
Proof.
  intros Hn. rewrite signedToUnsigned_exact by exact Hn.
  split; [| split; [| split]].
  - destruct (n <? 0) eqn:E; to_prop; lia.
  - destruct (n <? 0) eqn:E; to_prop.
    + replace (- 2 * n - 1) with (1 + 2 * (- n - 1)) by lia.
      rewrite Z.even_add_mul_2. cbn. split; [discriminate | lia].
    + rewrite Z.even_mul. cbn. split; [lia | reflexivity].
  - intros m Hm. rewrite (signedToUnsigned_exact m) by exact Hm.
    destruct (n <? 0) eqn:E; destruct (m <? 0) eqn:E'; to_prop; lia.
  - intros m Hnm Hm. rewrite (signedToUnsigned_exact m) by lia.
    destruct (n <? 0) eqn:E; destruct (m <? 0) eqn:E'; to_prop; lia.
Qed.

Lemma signedToUnsigned_interleaves_witness :
  0 <= signedToUnsigned (-3) <= 2 * Z.abs (-3) /\
  (Z.even (signedToUnsigned (-3)) = true <-> 0 <= -3) /\
  (forall m, Z.abs m <= 2 ^ 52 ->
             signedToUnsigned (-3) = signedToUnsigned m -> -3 = m) /\
  (forall m, 0 <= -3 < m -> m <= 2 ^ 52 ->
             signedToUnsigned (-3) < signedToUnsigned m).
Proof. apply (signedToUnsigned_interleaves (-3)). vm_compute. discriminate. Defined.

(** ** Lengths of the integer forms *)

Lemma encodeUnsignedInt_blen n enc :
  0 <= n -> encodeUnsignedInt n = Ok enc ->
  blen enc = (if n <=? 215 then 1 else if n <=? 9431 then 2
              else if n <? 65536 then 3 else if n <? 16777216 then 4
              else if n <? 4294967296 then 5 else 9).
Proof.
  intros Hn. unfold encodeUnsignedInt. unfold_wire3.
  change (256 * 256 * 256 * 256) with 4294967296.
  change (256 * 256 * 256) with 16777216. change (256 * 256) with 65536.
  destruct (n <? 0) eqn:E0; to_prop; [lia|].
  repeat match goal with
  | |- (if ?c then _ else _) = _ -> _ => destruct c
  end; intros He; apply Ok_inj in He; subst enc; reflexivity.
Qed.

(** X2. A signed integer is encoded in a single byte exactly when it lies
    in [-108, 107]. *)
Theorem encodeInt64_one_byte (n : Z) (enc : Buffer) :
  Z.abs n <= 2 ^ 52 -> encodeInt64 n = Ok enc ->
  (blen enc = 1 <-> -108 <= n <= 107).
Proof.
  intros Hn Henc. unfold encodeInt64 in Henc.
  pose proof (signedToUnsigned_range n Hn) as Hu.
  rewrite (encodeUnsignedInt_blen _ _ (proj1 Hu) Henc).
  rewrite signedToUnsigned_exact by exact Hn.
  destruct (n <? 0) eqn:E; to_prop;
    repeat match goal with
    | |- context [if ?c then _ else _] => destruct c eqn:?; to_prop
    end; lia.
Qed.

Lemma encodeInt64_one_byte_witness :
  blen [xd7] = 1 <-> -108 <= -108 <= 107.
Proof.
  apply (encodeInt64_one_byte (-108) [xd7]).
  - vm_compute. discriminate.
  - reflexivity.
Defined.

(** ** Decoding inside a stream *)

Lemma decodeInt64_frame n pre post :
  Z.abs n <= 2 ^ 52 ->
  exists enc,
    encodeInt64 n = Ok enc /\ 1 <= blen enc /\
    decodeInt64 (pre ++ enc ++ post) (blen pre) = Ok (Fin n, blen enc).
Proof.
  intros Hn. pose proof (signedToUnsigned_range n Hn) as Hu.
  destruct (encodeUnsignedInt_returns _ (proj1 Hu)) as [enc Henc].
  exists enc. split; [exact Henc|]. split.
  - apply (encodeUnsignedInt_length _ _ Henc).
  - unfold decodeInt64.
    rewrite (decodeUnsignedInt_frame pre enc post _
               (decodeUnsignedInt_encodeUnsignedInt _ _ Hu Henc)).
    cbn [bind]. rewrite zigzag_inverse by exact Hn. reflexivity.
Qed.

Lemma decodeInt64Sequence_from nums :
  Forall (fun n => Z.abs n <= 2 ^ 52) nums ->
  exists combined,
    encodeInt64Sequence nums = Ok combined /\
    forall pre fuel,
      (List.length combined < fuel)%nat ->
      decodeInt64Sequence fuel (pre ++ combined) (blen pre) =
      Some (Ok (map Fin nums)).
Proof.
  induction 1 as [|n rest Hn _ IH].
  - exists []. split; [reflexivity|]. intros pre fuel Hf.
    destruct fuel as [|fuel]; [cbn in Hf; lia|].
    cbn [decodeInt64Sequence]. rewrite app_nil_r, Z.ltb_irrefl. reflexivity.
  - destruct IH as [tail [Htail IH]].
    destruct (decodeInt64_frame n [] [] Hn) as [enc [Henc [Hlen _]]].
    exists (enc ++ tail). split.
    + cbn [encodeInt64Sequence]. rewrite Henc. cbn [bind]. rewrite Htail.
      reflexivity.
    + intros pre fuel Hf. rewrite length_app in Hf.
      destruct fuel as [|fuel]; [lia|].
      cbn [decodeInt64Sequence].
      pose proof (blen_nonneg tail) as Ht.
      replace (blen pre <? blen (pre ++ enc ++ tail)) with true
        by (symmetry; apply Z.ltb_lt; rewrite !blen_app; lia).
      destruct (decodeInt64_frame n pre tail Hn) as [enc' [Henc' [_ Hdec]]].
      assert (enc' = enc) by congruence. subst enc'.
      rewrite Hdec.
      replace (blen pre + blen enc) with (blen (pre ++ enc))
        by apply blen_app.
      replace (pre ++ enc ++ tail) with ((pre ++ enc) ++ tail)
        by (symmetry; apply app_assoc).
      rewrite IH by (unfold blen in Hlen; lia).
      reflexivity.
Qed.

(** X3. Signed integers encoded back to back decode one after the other:
    on the concatenation of the encodings of a list of integers of
    magnitude at most 2^52, the loop that decodes at the running offset and
    advances by [bytesRead] ends, without raising, with exactly the list. *)
Theorem decodeInt64Sequence_encodeInt64Sequence (nums : list Z) :
  Forall (fun n => Z.abs n <= 2 ^ 52) nums ->
  exists combined,
    encodeInt64Sequence nums = Ok combined /\
    decodeInt64Sequence (S (List.length combined)) combined 0 =
    Some (Ok (map Fin nums)).
Proof.
  intros H. destruct (decodeInt64Sequence_from nums H) as [combined [Henc Hdec]].
  exists combined. split; [exact Henc|].
  apply (Hdec [] (S (List.length combined))). lia.
Qed.

Lemma decodeInt64Sequence_encodeInt64Sequence_witness :
  exists combined,
    encodeInt64Sequence [0; -1; 108; -1000000; 2 ^ 52] = Ok combined /\
    decodeInt64Sequence (S (List.length combined)) combined 0 =
    Some (Ok (map Fin [0; -1; 108; -1000000; 2 ^ 52])).
Proof.
  apply (decodeInt64Sequence_encodeInt64Sequence [0; -1; 108; -1000000; 2 ^ 52]).
  repeat constructor; vm_compute; discriminate.
Defined.

(** X4. No encoding of an unsigned integer is the beginning of the encoding
    of another: if the encoding of [b] starts with the encoding of [a], the
    two integers are equal.  In particular the encoder is injective on
    [0, 2^53]. *)
Theorem encodeUnsignedInt_prefix_free (a b : Z) (encA encB rest : Buffer) :
  0 <= a <= 2 ^ 53 -> 0 <= b <= 2 ^ 53 ->
  encodeUnsignedInt a = Ok encA -> encodeUnsignedInt b = Ok encB ->
  encB = encA ++ rest ->
  a = b /\ rest = [].
Proof.
  intros Ha Hb HA HB Heq.
  pose proof (decodeUnsignedInt_encodeUnsignedInt _ _ Hb HB) as DB.
  pose proof (decodeUnsignedInt_frame [] encA rest _
                (decodeUnsignedInt_encodeUnsignedInt _ _ Ha HA)) as DA.
  cbn [app] in DA. change (blen []) with 0 in DA.
  rewrite Heq in DB. rewrite DA in DB. apply Ok_inj in DB.
  assert (a = b) by congruence.
  assert (blen encA = blen (encA ++ rest)) as Hl by congruence.
  split; [assumption|].
  rewrite blen_app in Hl. destruct rest; [reflexivity|].
  unfold blen in Hl. cbn [List.length] in Hl. lia.
Qed.

Lemma encodeUnsignedInt_prefix_free_witness :
  216 = 216 /\ @nil byte = [].
Proof.
  apply (encodeUnsignedInt_prefix_free 216 216 [xd8; x00] [xd8; x00] []);
    try reflexivity; vm_compute; split; discriminate.
Defined.

(** ** Truncation *)

(** The first byte of an encoding declares the encoding's own length. *)
Lemma encodeUnsignedInt_declares n enc :
  encodeUnsignedInt n = Ok enc ->
  exists b0, idx enc 0 = Some b0 /\ declaredExtra b0 = blen enc - 1.
Proof.
  unfold encodeUnsignedInt. unfold_wire3.
  destruct (n <? 0) eqn:E0; [discriminate|]. to_prop.
  cmp_cases; intros H%Ok_inj; subst enc;
    unfold Buffer_from; cbn [map]; rewrite ?idx_cons_0;
    (eexists; split; [reflexivity|]); rewrite ?byteVal_toUint8.
  - rewrite Z.mod_small by lia. unfold declaredExtra.
    destruct (n <=? 215) eqn:E; to_prop; [reflexivity | lia].
  - assert (0 <= (n - 216) / 256 <= 35) by arith.
    rewrite Z.mod_small by lia. unfold declaredExtra.
    destruct (216 + (n - 216) / 256 <=? 215) eqn:E1; to_prop; [lia|].
    destruct (216 + (n - 216) / 256 <=? 251) eqn:E2; to_prop; [reflexivity | lia].
  - reflexivity.
  - reflexivity.
  - reflexivity.
  - reflexivity.
Qed.

Lemma idx_firstn k buffer i :
  i < Z.of_nat k -> idx (firstn k buffer) i = idx buffer i.
Proof.
  intros Hi. unfold idx. destruct (i <? 0) eqn:E; [reflexivity|]. to_prop.
  rewrite nth_error_firstn.
  destruct (Nat.ltb (Z.to_nat i) k) eqn:En; [reflexivity|].
  apply Nat.ltb_ge in En. lia.
Qed.

Lemma blen_firstn k buffer :
  (k <= List.length buffer)%nat -> blen (firstn k buffer) = Z.of_nat k.
Proof. intros H. unfold blen. rewrite length_firstn. lia. Qed.

Lemma decodeUnsignedInt_truncated n enc k :
  encodeUnsignedInt n = Ok enc -> (k < List.length enc)%nat ->
  raises (decodeUnsignedInt (firstn k enc) 0).
Proof.
  intros Henc Hk. apply decodeUnsignedInt_raises_iff.
  intros [b0 [Hb0 Hfit]].
  destruct (encodeUnsignedInt_declares _ _ Henc) as [c0 [Hc0 Hdecl]].
  rewrite blen_firstn in Hfit by lia.
  rewrite idx_firstn in Hb0.
  - assert (b0 = c0) by congruence. subst c0. unfold blen in Hdecl. lia.
  - destruct k; [|lia].
    cbn [firstn] in Hb0. discriminate Hb0.
Qed.

(** X5. Cutting any number of bytes off the end of the encoding of an
    integer, signed or unsigned, makes both decoders raise: a truncated
    integer is never taken for a shorter one. *)
Theorem truncated_integer_rejected (n : Z) (enc : Buffer) (k : nat) :
  encodeUnsignedInt n = Ok enc \/ encodeInt64 n = Ok enc ->
  (k < List.length enc)%nat ->
  raises (decodeUnsignedInt (firstn k enc) 0) /\
  raises (decodeInt64 (firstn k enc) 0).
Proof.
  intros Henc Hk.
  assert (H : raises (decodeUnsignedInt (firstn k enc) 0)).
  { destruct Henc as [Henc | Henc].
    - exact (decodeUnsignedInt_truncated _ _ _ Henc Hk).
    - unfold encodeInt64 in Henc.
      exact (decodeUnsignedInt_truncated _ _ _ Henc Hk). }
  split; [exact H|].
  destruct H as [e He]. exists e. unfold decodeInt64. rewrite He. reflexivity.
Qed.

Lemma truncated_integer_rejected_witness :
  raises (decodeUnsignedInt (firstn 3 [xfd; x01; x11; x70]) 0) /\
  raises (decodeInt64 (firstn 3 [xfd; x01; x11; x70]) 0).
Proof.
  apply (truncated_integer_rejected 70000 [xfd; x01; x11; x70] 3).
  - left. reflexivity.
  - cbn. lia.
Defined.

(** ** The shortest form *)

Lemma be16 b1 b2 :
  0 <= b1 < 256 -> 0 <= b2 < 256 -> bor (shl b1 8) b2 = b1 * 256 + b2.
Proof.
  intros H1 H2. rewrite shl_byte by lia.
  rewrite bor_small by lia. rewrite lor_disjoint_add by lia. lia.
Qed.

Lemma be24 b1 b2 b3 :
  0 <= b1 < 256 -> 0 <= b2 < 256 -> 0 <= b3 < 256 ->
  bor (bor (shl b1 16) (shl b2 8)) b3 = b1 * 65536 + b2 * 256 + b3.
Proof.
  intros H1 H2 H3. rewrite !shl_byte by lia.
  rewrite (bor_small (_ * 2 ^ 16)) by lia.
  rewrite (lor_disjoint_add b1 _ 16) by lia.
  replace (b1 * 2 ^ 16 + b2 * 2 ^ 8) with ((b1 * 256 + b2) * 2 ^ 8) by lia.
  rewrite bor_small by lia. rewrite lor_disjoint_add by lia. lia.
Qed.

Lemma byteAt_range buffer i : 0 <= byteAt buffer i < 256.
Proof.
  unfold byteAt. destruct (idx buffer i) as [b|] eqn:E; [|lia].
  exact (idx_range _ _ _ E).
Qed.

Lemma Ok_pair_inv {A B} (a b : A) (j k : B) :
  Ok (a, j) = Ok (b, k) -> a = b /\ j = k.
Proof. intros H. inversion H. split; reflexivity. Qed.

Lemma Fin_inj a b : Fin a = Fin b -> a = b.
Proof. intros H. inversion H. reflexivity. Qed.

(** X6. The encoder always picks the shortest form: whatever bytes decode
    to a non-negative integer [v], consuming [k] of them, the encoding of
    [v] has at most [k] bytes. *)
Theorem encodeUnsignedInt_shortest (buffer : Buffer) (offset v k : Z) :
  decodeUnsignedInt buffer offset = Ok (Fin v, k) -> 0 <= v ->
  exists enc, encodeUnsignedInt v = Ok enc /\ blen enc <= k.
Proof.
  intros Hdec Hv.
  destruct (encodeUnsignedInt_returns v Hv) as [enc Henc].
  exists enc. split; [exact Henc|].
  rewrite (encodeUnsignedInt_blen _ _ Hv Henc).
  revert Hdec. unfold decodeUnsignedInt. unfold_wire3.
  destruct (offset >=? blen buffer); [discriminate|].
  destruct (idx buffer offset) as [b0|] eqn:Eb; [|discriminate].
  pose proof (idx_range _ _ _ Eb) as Hb0.
  pose proof (byteAt_range buffer (offset + 1)) as H1.
  pose proof (byteAt_range buffer (offset + 2)) as H2.
  pose proof (byteAt_range buffer (offset + 3)) as H3.
  pose proof (byteAt_range buffer (offset + 4)) as H4.
  rewrite ?be16, ?be24 by assumption.
  repeat match goal with
  | |- (if ?c then _ else _) = _ -> _ => destruct c eqn:?; to_prop
  end; intros Hd; try discriminate Hd; cbv zeta in Hd;
  apply Ok_pair_inv in Hd; destruct Hd as [Hval Hk]; subst k;
  try apply Fin_inj in Hval;
  repeat match goal with
  | |- context [if ?c then _ else _] => destruct c eqn:?; to_prop
  end; lia.
Qed.

Lemma encodeUnsignedInt_shortest_witness :
  exists enc, encodeUnsignedInt 5 = Ok enc /\ blen enc <= 3.
Proof.
  apply (encodeUnsignedInt_shortest [xfc; x00; x05] 0 5 3).
  - reflexivity.
  - lia.
Defined.

(** ** Order *)

Lemma beValue_acc l acc :
  fold_left (fun acc b => acc * 256 + byteVal b) l acc =
  acc * 256 ^ blen l + beValue l.
Proof.
  unfold beValue. revert acc. induction l as [|x l IH]; intros acc.
  - cbn [fold_left]. change (blen []) with 0. lia.
  - cbn [fold_left]. rewrite IH. rewrite (IH (0 * 256 + byteVal x)).
    replace (blen (x :: l)) with (1 + blen l)
      by (unfold blen; cbn [List.length]; lia).
    rewrite Z.pow_add_r by (try apply blen_nonneg; lia). lia.
Qed.

Lemma beValue_cons x l :
  beValue (x :: l) = byteVal x * 256 ^ blen l + beValue l.
Proof.
  unfold beValue at 1. cbn [fold_left]. rewrite beValue_acc. lia.
Qed.

Lemma beValue_range l : 0 <= beValue l < 256 ^ blen l.
Proof.
  induction l as [|x l IH].
  - vm_compute. split; [discriminate | reflexivity].
  - rewrite beValue_cons.
    replace (blen (x :: l)) with (1 + blen l)
      by (unfold blen; cbn [List.length]; lia).
    rewrite Z.pow_add_r by (try apply blen_nonneg; lia).
    pose proof (byteVal_range x). nia.
Qed.

Lemma firstDifference_beValue encA encB :
  List.length encA = List.length encB -> beValue encA <= beValue encB ->
  firstDifference encA encB = true.
Proof.
  revert encB. induction encA as [|x restA IH]; intros [|y restB] Hl Hv;
    try reflexivity.
  cbn [List.length] in Hl. injection Hl as Hl.
  rewrite !beValue_cons in Hv.
  assert (blen restA = blen restB) as Hb by (unfold blen; lia).
  rewrite Hb in Hv.
  pose proof (beValue_range restA) as HA. pose proof (beValue_range restB) as HB.
  rewrite Hb in HA.
  cbn [firstDifference].
  destruct (byteVal x =? byteVal y) eqn:E; to_prop; cbn [negb].
  - apply IH; [exact Hl|]. rewrite E in Hv. lia.
  - apply Z.ltb_lt. nia.
Qed.

Lemma beValue_encodeUnsignedInt n enc :
  0 <= n < 2 ^ 32 -> encodeUnsignedInt n = Ok enc ->
  beValue enc =
  (if n <=? 215 then n else if n <=? 9431 then 216 * 256 + (n - 216)
   else if n <? 65536 then 252 * 65536 + n
   else if n <? 16777216 then 253 * 16777216 + n
   else 254 * 4294967296 + n).
Proof.
  intros Hn. unfold encodeUnsignedInt. unfold_wire3.
  change (256 * 256 * 256 * 256) with 4294967296.
  change (256 * 256 * 256) with 16777216. change (256 * 256) with 65536.
  destruct (n <? 0) eqn:E0; to_prop; [lia|].
  destruct (n <=? 215) eqn:E1; [|destruct (n <=? 9431) eqn:E2;
    [|destruct (n <? 65536) eqn:E3; [|destruct (n <? 16777216) eqn:E4;
      [|destruct (n <? 4294967296) eqn:E5]]]]; to_prop; try lia;
    intros H%Ok_inj; subst enc; unfold beValue, Buffer_from;
    cbn [map fold_left]; rewrite ?byteVal_toUint8;
    rewrite ?band_sar24, ?band_sar16, ?band_sar8, ?band_255 by lia;
    rewrite ?Z.rem_mod_nonneg by lia; rewrite ?Z.mod_mod by lia.
  - rewrite Z.mod_small by lia. lia.
  - arith.
  - change (252 mod 256) with 252. arith.
  - change (253 mod 256) with 253.
    pose proof (Z.div_mod n 256 ltac:(lia)).
    pose proof (Z.div_mod (n / 256) 256 ltac:(lia)).
    pose proof (Z.mod_small (n / 65536) 256).
    rewrite !Z.div_div in * by lia. change (256 * 256) with 65536 in *.
    assert (0 <= n / 65536 < 256) by arith. lia.
  - change (254 mod 256) with 254.
    pose proof (Z.div_mod n 256 ltac:(lia)).
    pose proof (Z.div_mod (n / 256) 256 ltac:(lia)).
    pose proof (Z.div_mod (n / 65536) 256 ltac:(lia)).
    pose proof (Z.mod_small (n / 16777216) 256).
    rewrite !Z.div_div in * by lia.
    change (256 * 256) with 65536 in *. change (65536 * 256) with 16777216 in *.
    assert (0 <= n / 16777216 < 256) by arith. lia.
Qed.

(** X7. Below 2^32 the encoding preserves order: for [a < b] the encoding
    of [a] is shorter than that of [b], or as long and smaller at the first
    byte where they differ (and they do differ).  This is the comparison of
    the monotonicity test, which samples it up to 10000. *)
Theorem encodeUnsignedInt_monotone (a b : Z) (encA encB : Buffer) :
  0 <= a -> a < b -> b < 2 ^ 32 ->
  encodeUnsignedInt a = Ok encA -> encodeUnsignedInt b = Ok encB ->
  precedes encA encB = true /\ encA <> encB.
Proof.
  intros Ha Hab Hb HA HB.
  pose proof (encodeUnsignedInt_blen _ _ Ha HA) as LA.
  pose proof (encodeUnsignedInt_blen b _ ltac:(lia) HB) as LB.
  pose proof (beValue_encodeUnsignedInt a _ ltac:(lia) HA) as VA.
  pose proof (beValue_encodeUnsignedInt b _ ltac:(lia) HB) as VB.
  assert (Hlt : blen encA < blen encB \/
                (blen encA = blen encB /\ beValue encA < beValue encB)).
  { rewrite LA, LB, VA, VB.
    repeat match goal with
    | |- context [if ?c then _ else _] => destruct c eqn:?; to_prop
    end; lia. }
  split.
  - unfold precedes. destruct Hlt as [Hlt | [Heq Hlt]].
    + destruct (blen encA =? blen encB) eqn:E; to_prop; [lia|].
      cbn [negb]. apply Z.ltb_lt. exact Hlt.
    + rewrite Heq, Z.eqb_refl. cbn [negb].
      apply firstDifference_beValue; [unfold blen in Heq; lia | lia].
  - intros Heq. subst encB. lia.
Qed.

Lemma encodeUnsignedInt_monotone_witness :
  precedes [xd7] [xd8; x00] = true /\ [xd7] <> [xd8; x00].
Proof.
  apply (encodeUnsignedInt_monotone 215 216 [xd7] [xd8; x00]);
    try reflexivity; lia.
Defined.

(** Beyond 2^32 the order is lost: the float64 form is little-endian. *)
Example precedes_float64_form :
  (let* encA := encodeUnsignedInt (2 ^ 32 + 1) in
   let* encB := encodeUnsignedInt (2 ^ 32 + 4096) in
   Ok (precedes encA encB)) = Ok false.
Proof. vm_compute. reflexivity. Qed.

(** ** What decoding consumes *)

(** X8. A successful decode consumes exactly the form its first byte
    declares, and that form lies within the buffer; the value of every
    form but the float64 one is an integer of the range of the form: the
    byte itself up to 215, 216..9431 for two bytes, below 2^16, 2^24 and
    2^32 for the markers 252, 253 and 254. *)
Theorem decodeUnsignedInt_consumes (buffer : Buffer) (offset : Z) (v : jsnum) (k : Z) :
  decodeUnsignedInt buffer offset = Ok (v, k) ->
  exists b0,
    idx buffer offset = Some b0 /\ k = declaredExtra b0 + 1 /\
    0 <= offset /\ offset + k <= blen buffer /\
    (b0 < 255 ->
     exists z, v = Fin z /\ 0 <= z < 2 ^ 32 /\
               (b0 <= 215 -> z = b0) /\
               (216 <= b0 <= 251 -> 216 <= z <= 9431) /\
               (b0 = 252 -> z < 2 ^ 16) /\ (b0 = 253 -> z < 2 ^ 24)).
Proof.
  unfold decodeUnsignedInt, declaredExtra. unfold_wire3.
  destruct (offset >=? blen buffer) eqn:E0; [discriminate|]. to_prop.
  destruct (idx buffer offset) as [b0|] eqn:Eb; [|discriminate].
  pose proof (idx_range _ _ _ Eb) as Hb0.
  assert (Hoff : 0 <= offset).
  { apply (proj1 (idx_some_iff buffer offset)). exists b0. exact Eb. }
  pose proof (byteAt_range buffer (offset + 1)) as H1.
  pose proof (byteAt_range buffer (offset + 2)) as H2.
  pose proof (byteAt_range buffer (offset + 3)) as H3.
  pose proof (byteAt_range buffer (offset + 4)) as H4.
  rewrite ?be16, ?be24 by assumption.
  intros Hd. exists b0. split; [reflexivity|].
  revert Hd.
  repeat match goal with
  | |- (if ?c then _ else _) = _ -> _ => destruct c eqn:?; to_prop
  end; intros Hd; try discriminate Hd; cbv zeta in Hd;
  apply Ok_pair_inv in Hd; destruct Hd as [Hval Hk]; subst k;
  repeat match goal with
  | |- context [if ?c then _ else _] => destruct c eqn:?; to_prop
  end; try lia;
  (split; [lia|]); (split; [exact Hoff|]); (split; [lia|]);
  intros Hlt; try lia;
  (eexists; split; [symmetry; exact Hval|]); lia.
Qed.

Lemma decodeUnsignedInt_consumes_witness :
  exists b0,
    idx [x00; xfc; x12; x34; x00] 1 = Some b0 /\ 3 = declaredExtra b0 + 1 /\
    0 <= 1 /\ 1 + 3 <= blen [x00; xfc; x12; x34; x00] /\
    (b0 < 255 ->
     exists z, Fin 4660 = Fin z /\ 0 <= z < 2 ^ 32 /\
               (b0 <= 215 -> z = b0) /\
               (216 <= b0 <= 251 -> 216 <= z <= 9431) /\
               (b0 = 252 -> z < 2 ^ 16) /\ (b0 = 253 -> z < 2 ^ 24)).
Proof.
  apply (decodeUnsignedInt_consumes [x00; xfc; x12; x34; x00] 1 (Fin 4660) 3).
  reflexivity.
Defined.

(** ** The encoders of signed integers and of strings never raise *)

Lemma fl_positive z : 1 <= z -> 1 <= fl z.
Proof.
  intros Hz. unfold fl. destruct (Z.abs z <=? 2 ^ 53) eqn:E; [exact Hz|].
  to_prop. rewrite Z.abs_eq in * by lia. rewrite Z.sgn_pos by lia.
  set (e := Z.log2 z - 52).
  assert (Hlog : 53 <= Z.log2 z) by (apply Z.log2_le_pow2; lia).
  assert (He : 0 <= e) by (unfold e; lia).
  assert (Hpe : 1 <= 2 ^ e) by (pose proof (Z.pow_pos_nonneg 2 e); lia).
  assert (Hle : 2 ^ e <= z).
  { pose proof (Z.log2_spec z ltac:(lia)) as [Hlo _].
    assert (2 ^ e <= 2 ^ Z.log2 z) by (apply Z.pow_le_mono_r; unfold e; lia).
    lia. }
  assert (Hq : 1 <= z / 2 ^ e) by (apply Z.div_le_lower_bound; lia).
  assert (Hq' : 1 <= (if 2 * (z mod 2 ^ e) <? 2 ^ e then z / 2 ^ e
                      else if 2 ^ e <? 2 * (z mod 2 ^ e) then z / 2 ^ e + 1
                      else if Z.even (z / 2 ^ e) then z / 2 ^ e
                      else z / 2 ^ e + 1)).
  { repeat match goal with |- context [if ?c then _ else _] => destruct c end; lia. }
  nia.
Qed.

Lemma signedToUnsigned_nonneg n : 0 <= signedToUnsigned n.
Proof.
  unfold signedToUnsigned. destruct (n <? 0) eqn:E; to_prop.
  - apply fl_nonneg. pose proof (fl_positive (-2 * n) ltac:(lia)). lia.
  - apply fl_nonneg. lia.
Qed.

(** X9. Although [encodeUnsignedInt] raises on a negative number, nothing
    built on it does: [encodeInt64] returns for every integer, and
    [encodeString], [encodeMessage] and [createTransportMessage] return for
    every string, tag and pair of ids. *)
Theorem encoders_never_raise :
  (forall n, returns (encodeInt64 n)) /\
  (forall s, returns (encodeString s)) /\
  (forall s k, returns (encodeMessage s k)) /\
  (forall sid cid message k, returns (createTransportMessage sid cid message k)).
Proof.
  split; [|split; [|split]].
  - intros n. unfold encodeInt64. apply encodeUnsignedInt_returns.
    apply signedToUnsigned_nonneg.
  - intros s. unfold encodeString.
    destruct (encodeInt64_length_returns (Buffer_fromString s)) as [lb Hlb].
    rewrite Hlb. eexists. reflexivity.
  - intros s k. destruct (encodeMessage_shape s k) as (lb & _ & Henc).
    eexists. exact Henc.
  - intros sid cid message k. apply createTransportMessage_returns.
Qed.

(** X10. Zigzag is onto: every unsigned integer below 2^53 is the image of
    the signed integer [unsignedToSigned] gives for it, which lies in
    [-2^52, 2^52). *)
Theorem signedToUnsigned_unsignedToSigned (u : Z) :
  0 <= u < 2 ^ 53 ->
  exists n, unsignedToSigned (Fin u) = Fin n /\ - 2 ^ 52 <= n < 2 ^ 52 /\
            signedToUnsigned n = u.
Proof.
  intros Hu. unfold unsignedToSigned.
  rewrite Z.rem_mod_nonneg by lia.
  destruct (u mod 2 =? 1) eqn:E; to_prop.
  - rewrite fl_exact by lia.
    assert (Hh : u + 1 = 2 * ((u + 1) / 2)) by arith.
    assert (Hr : 1 <= (u + 1) / 2 <= 2 ^ 52) by arith.
    eexists. split; [reflexivity|]. split; [lia|].
    rewrite signedToUnsigned_exact by lia.
    destruct (- ((u + 1) / 2) <? 0) eqn:E'; to_prop; lia.
  - assert (Hh : u = 2 * (u / 2)) by arith.
    assert (Hr : 0 <= u / 2 < 2 ^ 52) by arith.
    eexists. split; [reflexivity|]. split; [lia|].
    rewrite signedToUnsigned_exact by lia.
    destruct (u / 2 <? 0) eqn:E'; to_prop; lia.
Qed.

Lemma signedToUnsigned_unsignedToSigned_witness :
  exists n, unsignedToSigned (Fin 7) = Fin n /\ - 2 ^ 52 <= n < 2 ^ 52 /\
            signedToUnsigned n = 7.
Proof.
  apply (signedToUnsigned_unsignedToSigned 7). vm_compute.
  split; [discriminate | reflexivity].
Defined.

(** ** Strings inside a stream *)

Lemma Buffer_slice_in (pre mid post : Buffer) :
  Buffer_slice (pre ++ mid ++ post) (Fin (blen pre)) (Fin (blen pre + blen mid)) = mid.
Proof.
  pose proof (blen_nonneg pre). pose proof (blen_nonneg mid).
  pose proof (blen_nonneg post).
  unfold Buffer_slice, adjustOffset. rewrite !blen_app.
  destruct (blen pre <? 0) eqn:E1; to_prop; [lia|].
  destruct (blen pre + blen mid <? 0) eqn:E2; to_prop; [lia|].
  rewrite !Z.min_l by lia.
  replace (blen pre + blen mid - blen pre) with (blen mid) by lia.
  unfold blen. rewrite !Nat2Z.id.
  rewrite skipn_app, skipn_all, Nat.sub_diag. cbn [app skipn].
  rewrite firstn_app, firstn_all, Nat.sub_diag. cbn [firstn].
  apply app_nil_r.
Qed.

Lemma decodeString_frame pre post lengthBuffer strBuffer :
  blen strBuffer <= 2 ^ 52 ->
  blen pre + blen lengthBuffer + blen strBuffer <= 2 ^ 53 ->
  encodeInt64 (blen strBuffer) = Ok lengthBuffer ->
  decodeString (pre ++ (lengthBuffer ++ strBuffer) ++ post) (blen pre) =
  Ok (Buffer_toString strBuffer, Fin (blen lengthBuffer + blen strBuffer)).
Proof.
  intros Hlen Hoff Henc.
  pose proof (blen_nonneg strBuffer) as Hs.
  pose proof (blen_nonneg lengthBuffer) as Hl.
  pose proof (blen_nonneg pre) as Hp. pose proof (blen_nonneg post) as Hq.
  assert (Habs : Z.abs (blen strBuffer) <= 2 ^ 52) by lia.
  pose proof (signedToUnsigned_range _ Habs) as Hu.
  unfold encodeInt64 in Henc.
  pose proof (decodeUnsignedInt_encodeUnsignedInt _ _ Hu Henc) as Hdec.
  unfold decodeString, decodeInt64.
  rewrite <- (app_assoc lengthBuffer strBuffer post).
  rewrite (decodeUnsignedInt_frame _ _ _ _ Hdec). cbn [bind].
  rewrite zigzag_inverse by exact Habs.
  unfold jadd. rewrite !fl_exact by lia.
  unfold jgt. rewrite !blen_app.
  destruct (blen pre + (blen lengthBuffer + (blen strBuffer + blen post)) <?
            blen pre + blen lengthBuffer + blen strBuffer) eqn:E;
    to_prop; [lia|].
  rewrite (app_assoc pre lengthBuffer).
  replace (blen pre + blen lengthBuffer) with (blen (pre ++ lengthBuffer))
    by apply blen_app.
  rewrite Buffer_slice_in. reflexivity.
Qed.

(** X11. A string without a lone surrogate is read back from wherever its
    encoding lies in a buffer: decoding at the offset where the encoding
    starts returns the string, and [bytesRead] is the length of the
    encoding, which is the length of the prefix plus the number of UTF-8
    bytes of the string.  (Offset and length together stay below 2^52, where
    the arithmetic on them is exact.) *)
Theorem decodeString_encodeString (s : jsstring) (pre post : Buffer) :
  wellFormed s = true ->
  blen pre + blen (Buffer_fromString s) <= 2 ^ 52 ->
  exists lengthBuffer enc,
    encodeInt64 (blen (Buffer_fromString s)) = Ok lengthBuffer /\
    encodeString s = Ok enc /\
    blen enc = blen lengthBuffer + blen (Buffer_fromString s) /\
    decodeString (pre ++ enc ++ post) (blen pre) = Ok (s, Fin (blen enc)).
Proof.
  intros Hwf Hlen.
  pose proof (blen_nonneg pre) as Hp.
  pose proof (blen_nonneg (Buffer_fromString s)) as Hs.
  destruct (encodeInt64_length_returns (Buffer_fromString s)) as [lb Hlb].
  exists lb, (lb ++ Buffer_fromString s).
  pose proof (encodeUnsignedInt_length _ _ Hlb) as Hl.
  split; [exact Hlb|]. split; [|split].
  - unfold encodeString. rewrite Hlb. reflexivity.
  - apply blen_app.
  - rewrite decodeString_frame by (try assumption; lia).
    rewrite Buffer_toString_fromString by exact Hwf.
    rewrite blen_app. reflexivity.
Qed.

Lemma decodeString_encodeString_witness :
  exists lengthBuffer enc,
    encodeInt64 (blen (Buffer_fromString [104; 233; 108; 108; 111])) = Ok lengthBuffer /\
    encodeString [104; 233; 108; 108; 111] = Ok enc /\
    blen enc = blen lengthBuffer + blen (Buffer_fromString [104; 233; 108; 108; 111]) /\
    decodeString ([x07; x08] ++ enc ++ [xff]) (blen [x07; x08]) =
    Ok ([104; 233; 108; 108; 111], Fin (blen enc)).
Proof.
  apply (decodeString_encodeString [104; 233; 108; 108; 111] [x07; x08] [xff]).
  - reflexivity.
  - vm_compute. discriminate.
Defined.

Lemma firstn_app_le {A} k (a b : list A) :
  (k <= List.length a)%nat -> firstn k (a ++ b) = firstn k a.
Proof.
  intros H. rewrite firstn_app.
  replace (k - List.length a)%nat with 0%nat by lia.
  cbn [firstn]. apply app_nil_r.
Qed.

Lemma firstn_app_ge {A} k (a b : list A) :
  (List.length a <= k)%nat ->
  firstn k (a ++ b) = a ++ firstn (k - List.length a) b.
Proof.
  intros H. rewrite firstn_app. rewrite firstn_all2 by exact H. reflexivity.
Qed.

(** X12. Cutting any number of bytes off the end of an encoded string makes
    [decodeString] raise, whether the cut falls in the length prefix or in
    the text; so [decodeMessage] answers [null] on every truncated
    message. *)
Theorem truncated_string_rejected (s : jsstring) (enc : Buffer) (k : nat) :
  blen (Buffer_fromString s) <= 2 ^ 52 ->
  encodeString s = Ok enc ->
  (k < List.length enc)%nat ->
  raises (decodeString (firstn k enc) 0) /\
  forall tag, decodeMessage (tag :: firstn k enc) (byteVal tag) = Ok None.
Proof.
  intros Hlen Henc Hk.
  unfold encodeString in Henc.
  destruct (encodeInt64 (blen (Buffer_fromString s))) as [lb|] eqn:Hlb;
    [|discriminate]. cbn [bind] in Henc. apply Ok_inj in Henc. subst enc.
  set (sb := Buffer_fromString s) in *.
  pose proof (blen_nonneg sb) as Hs.
  assert (Habs : Z.abs (blen sb) <= 2 ^ 52) by lia.
  pose proof (signedToUnsigned_range _ Habs) as Hu.
  assert (Hcut : forall pre,
             blen pre <= 1 ->
             raises (decodeString (pre ++ firstn k (lb ++ sb)) (blen pre))).
  { intros pre Hpre. pose proof (blen_nonneg pre) as Hp.
    destruct (Nat.lt_ge_cases k (List.length lb)) as [Hin | Hout].
    - rewrite firstn_app_le by lia.
      unfold encodeInt64 in Hlb.
      destruct (decodeUnsignedInt_truncated _ _ _ Hlb Hin) as [e He].
      assert (Hr : raises (decodeUnsignedInt (pre ++ firstn k lb) (blen pre))).
      { apply decodeUnsignedInt_raises_iff. intros [b0 [Hb0 Hfit]].
        assert (Hno : ~ formFits (firstn k lb) 0).
        { apply decodeUnsignedInt_raises_iff. exists e. exact He. }
        apply Hno. exists b0. split.
        - rewrite <- Hb0. rewrite <- (Z.add_0_r (blen pre)) at 1.
          symmetry. apply idx_app_r. lia.
        - rewrite blen_app in Hfit. lia. }
      destruct Hr as [e' He']. exists e'.
      unfold decodeString, decodeInt64. rewrite He'. reflexivity.
    - rewrite firstn_app_ge by exact Hout.
      rewrite length_app in Hk.
      unfold encodeInt64 in Hlb.
      pose proof (decodeUnsignedInt_encodeUnsignedInt _ _ Hu Hlb) as Hdec.
      pose proof (encodeUnsignedInt_length _ _ Hlb) as Hl.
      unfold decodeString, decodeInt64.
      rewrite (decodeUnsignedInt_frame _ _ _ _ Hdec). cbn [bind].
      rewrite zigzag_inverse by exact Habs.
      unfold jadd. rewrite !fl_exact by lia.
      unfold jgt. rewrite !blen_app.
      rewrite blen_firstn by lia.
      assert (Z.of_nat (k - List.length lb) < blen sb) by (unfold blen; lia).
      destruct (blen pre + (blen lb + Z.of_nat (k - List.length lb)) <?
                blen pre + blen lb + blen sb) eqn:E; to_prop; [|lia].
      eexists. reflexivity. }
  split.
  - exact (Hcut [] ltac:(vm_compute; discriminate)).
  - intros tag. apply decodeMessage_string_error.
    exact (Hcut [tag] ltac:(vm_compute; discriminate)).
Qed.

Lemma truncated_string_rejected_witness :
  raises (decodeString (firstn 3 [x0a; x68; xc3; xa9; x6c; x6c]) 0) /\
  forall tag,
    decodeMessage (tag :: firstn 3 [x0a; x68; xc3; xa9; x6c; x6c]) (byteVal tag)
    = Ok None.
Proof.
  apply (truncated_string_rejected [104; 233; 108; 108] [x0a; x68; xc3; xa9; x6c; x6c] 3).
  - vm_compute. discriminate.
  - reflexivity.
  - cbn. lia.
Defined.

(** ** The tag byte *)

(** X13. The tag is stored in one byte, so it is kept modulo 256, and a
    client configured with a tag outside [0, 255] never recognizes a
    message, not even one it encoded itself: decoding with such a tag
    answers [null] on every buffer. *)
Theorem tag_outside_byte_never_matches (k : Z) :
  k < 0 \/ 255 < k ->
  (forall s, encodeMessage s k = encodeMessage s (k mod 256)) /\
  (forall buffer, decodeMessage buffer k = Ok None).
Proof.
  intros Hk. split.
  - intros s. unfold encodeMessage, Buffer_from. cbn [map].
    replace (toUint8 (k mod 256)) with (toUint8 k); [reflexivity|].
    unfold toUint8. rewrite Z.mod_mod by lia. reflexivity.
  - intros buffer. unfold decodeMessage, MIN_BUFFER_LENGTH, readUInt8.
    destruct (blen buffer <? 2) eqn:E; to_prop; [reflexivity|].
    destruct (proj2 (idx_some_iff buffer 0) ltac:(lia)) as [b Hb]. rewrite Hb.
    cbn [bind]. pose proof (idx_range _ _ _ Hb) as Hr.
    destruct (b =? k) eqn:Eb; to_prop; [lia | reflexivity].
Qed.

Lemma tag_outside_byte_never_matches_witness :
  (forall s, encodeMessage s 256 = encodeMessage s (256 mod 256)) /\
  (forall buffer, decodeMessage buffer 256 = Ok None).
Proof. apply (tag_outside_byte_never_matches 256). right. lia. Defined.

(** ** Hex dump *)

Lemma hex_of_byte (b : byte) :
  padStart (Number_toString16 (byteVal b)) 2 (js "0") =
  [hexDigit (byteVal b / 16); hexDigit (byteVal b mod 16)].
Proof. destruct b; vm_compute; reflexivity. Qed.

Lemma hexDigit_injective a b :
  0 <= a < 16 -> 0 <= b < 16 -> hexDigit a = hexDigit b -> a = b.
Proof.
  unfold hexDigit. intros Ha Hb.
  destruct (a <? 10) eqn:E1; destruct (b <? 10) eqn:E2; to_prop; lia.
Qed.

Lemma hexDigit_isHex d : 0 <= d < 16 -> isHex (hexDigit d).
Proof.
  unfold hexDigit, isHex. intros Hd. destruct (d <? 10) eqn:E; to_prop; lia.
Qed.

Lemma byteVal_injective a b : byteVal a = byteVal b -> a = b.
Proof.
  intros H. rewrite <- (toUint8_byteVal a), <- (toUint8_byteVal b), H.
  reflexivity.
Qed.

Lemma bufferToHex_cons b rest :
  bufferToHex (b :: rest) =
  hexDigit (byteVal b / 16) :: hexDigit (byteVal b mod 16) ::
  match rest with
  | [] => []
  | _ => 32 :: bufferToHex rest
  end.
Proof.
  unfold bufferToHex. cbn [map join]. rewrite hex_of_byte.
  destruct rest; reflexivity.
Qed.

(** X14. The hex dump writes every byte as exactly two digits of [0-9a-f],
    separated by single spaces: a buffer of [n >= 1] bytes gives [3n - 1]
    characters, and different buffers give different dumps. *)
Theorem bufferToHex_faithful (buffer : Buffer) :
  List.length (bufferToHex buffer) = (3 * List.length buffer - 1)%nat /\
  Forall (fun c => isHex c \/ c = 32) (bufferToHex buffer) /\
  forall other, bufferToHex other = bufferToHex buffer -> other = buffer.
Proof.
  induction buffer as [|b rest (IHlen & IHchars & IHinj)].
  - split; [reflexivity|]. split; [constructor|].
    intros [|o other]; [reflexivity|]. rewrite bufferToHex_cons. discriminate.
  - pose proof (byteVal_range b) as Hb.
    assert (Hhi : 0 <= byteVal b / 16 < 16) by arith.
    assert (Hlo : 0 <= byteVal b mod 16 < 16) by arith.
    rewrite bufferToHex_cons. split; [|split].
    + destruct rest as [|r rest']; [reflexivity|].
      cbn [List.length] in *. rewrite IHlen. lia.
    + constructor; [left; apply hexDigit_isHex; exact Hhi|].
      constructor; [left; apply hexDigit_isHex; exact Hlo|].
      destruct rest as [|r rest']; [constructor|].
      constructor; [right; reflexivity | exact IHchars].
    + intros [|o other]; [discriminate|].
      rewrite bufferToHex_cons. intros Heq.
      pose proof (byteVal_range o) as Ho.
      assert (Hohi : 0 <= byteVal o / 16 < 16) by arith.
      assert (Holo : 0 <= byteVal o mod 16 < 16) by arith.
      inversion Heq as [[H1 H2 H3]].
      apply hexDigit_injective in H1; [|assumption..].
      apply hexDigit_injective in H2; [|assumption..].
      assert (o = b) by (apply byteVal_injective; arith). subst o.
      f_equal. apply IHinj.
      destruct other as [|o' other']; destruct rest as [|r rest'];
        try discriminate H3; [reflexivity|].
      inversion H3. reflexivity.
Qed.

(** * Transport frames *)

Lemma decodeMessage_encodeMessage s k expected enc :
  wellFormed s = true -> blen (Buffer_fromString s) <= 2 ^ 52 ->
  0 <= k <= 255 -> encodeMessage s k = Ok enc ->
  decodeMessage enc expected = Ok (if k =? expected then Some s else None).
Proof.
  intros Hwf Hlen Hk Henc.
  destruct (encodeMessage_shape s k) as (lb & Hlb & Hshape).
  rewrite Hshape in Henc. apply Ok_inj in Henc. subst enc.
  destruct (k =? expected) eqn:E; to_prop.
  - subst expected.
    pose proof (blen_nonneg (Buffer_fromString s)) as Hs.
    pose proof (encodeUnsignedInt_length _ _ Hlb) as Hl.
    unfold decodeMessage, MIN_BUFFER_LENGTH, readUInt8.
    change (toUint8 k :: lb ++ Buffer_fromString s)
      with ([toUint8 k] ++ lb ++ Buffer_fromString s) at 1.
    rewrite !blen_app. change (blen [toUint8 k]) with 1.
    destruct (1 + (blen lb + blen (Buffer_fromString s)) <? 2) eqn:E; to_prop; [lia|].
    rewrite idx_cons_0. cbn [bind]. rewrite byteVal_toUint8_small by lia.
    rewrite Z.eqb_refl. cbn [negb].
    rewrite decodeString_encoded by (try exact Hlb; lia).
    rewrite Buffer_toString_fromString by exact Hwf. reflexivity.
  - apply decodeMessage_other_tag; assumption.
Qed.

(** X15. How an inbound frame that parsed as JSON is classified: as an
    election exactly when [t] is ["e"], whatever else the frame carries;
    otherwise as a protocol frame when it has no payload, as a message when
    its payload is the encoding of a string under the expected tag, and as
    a protocol frame again when the payload was encoded under another
    tag. *)
Theorem parseTransportMessage_classification (parsed : JsonFrame) (expected : Z) :
  let r := parseTransportMessage (Parsed parsed) expected in
  (frame_t parsed = Some (js "e") <-> r = TElection (frame_l parsed)) /\
  (frame_t parsed <> Some (js "e") -> frame_b parsed = None ->
   r = TProtocol (frame_s parsed) (frame_c parsed)) /\
  (forall s k payload,
      frame_t parsed <> Some (js "e") ->
      wellFormed s = true -> blen (Buffer_fromString s) <= 2 ^ 52 ->
      0 <= k <= 255 -> encodeMessage s k = Ok payload ->
      frame_b parsed = Some payload ->
      r = if k =? expected then TMessage s (frame_s parsed) (frame_c parsed)
          else TProtocol (frame_s parsed) (frame_c parsed)).
Proof.
  intros r. subst r. unfold parseTransportMessage.
  assert (Ht : strictEq (frame_t parsed) (Some (js "e")) = true <->
               frame_t parsed = Some (js "e")).
  { unfold strictEq. destruct (frame_t parsed) as [t|].
    - rewrite jsstring_eqb_eq. split; congruence.
    - split; discriminate. }
  destruct (strictEq (frame_t parsed) (Some (js "e"))) eqn:Et.
  - pose proof (proj1 Ht eq_refl) as Hte.
    split; [tauto|]. split; intros; contradiction.
  - assert (Hne : frame_t parsed <> Some (js "e"))
      by (intros H; apply Ht in H; discriminate H).
    split; [|split].
    + split; [contradiction|].
      destruct (frame_b parsed) as [binaryData|]; [|discriminate].
      destruct (decodeMessage binaryData expected) as [[m|]|]; discriminate.
    + intros _ Hb. rewrite Hb. reflexivity.
    + intros s k payload _ Hwf Hlen Hk Henc Hb. rewrite Hb.
      rewrite (decodeMessage_encodeMessage s k expected payload Hwf Hlen Hk Henc).
      destruct (k =? expected); reflexivity.
Qed.

Lemma parseTransportMessage_classification_witness :
  parseTransportMessage
    (Parsed (mkFrame (Some (js "ToFrontend")) None
                     (Some [x00; x04; x68; x69]) (Some (js "s1")) None)) 0 =
  TMessage (js "hi") (Some (js "s1")) None.
Proof.
  apply (proj2 (proj2
    (parseTransportMessage_classification
       (mkFrame (Some (js "ToFrontend")) None
                (Some [x00; x04; x68; x69]) (Some (js "s1")) None) 0))
    (js "hi") 0 [x00; x04; x68; x69]).
  - vm_compute. discriminate.
  - reflexivity.
  - vm_compute. discriminate.
  - lia.
  - reflexivity.
  - reflexivity.
Defined.

(** * Session cookies *)

Lemma takeUntilSemicolon_clean s :
  ~ In 59 s -> takeUntilSemicolon s = s.
Proof.
  induction s as [|c rest IH]; intros Hno; [reflexivity|].
  cbn [takeUntilSemicolon].
  destruct (c =? 59) eqn:E; to_prop.
  - exfalso. apply Hno. left. exact E.
  - f_equal. apply IH. intros H. apply Hno. right. exact H.
Qed.

Lemma takeUntilSemicolon_no_semicolon s : ~ In 59 (takeUntilSemicolon s).
Proof.
  induction s as [|c rest IH]; [intros []|].
  cbn [takeUntilSemicolon]. destruct (c =? 59) eqn:E; to_prop; [intros []|].
  intros [H | H]; [congruence | exact (IH H)].
Qed.

Lemma extractSessionFromCookie_value cookieString sid :
  extractSessionFromCookie cookieString = Some sid ->
  sid <> [] /\ ~ In 59 sid.
Proof.
  induction cookieString as [|c rest IH]; [discriminate|].
  cbn [extractSessionFromCookie].
  assert (Hhit : forall value,
             match takeUntilSemicolon value with
             | [] => extractSessionFromCookie rest
             | c0 :: s => Some (c0 :: s)
             end = Some sid -> sid <> [] /\ ~ In 59 sid).
  { intros value. pose proof (takeUntilSemicolon_no_semicolon value) as Hno.
    destruct (takeUntilSemicolon value) as [|c0 s]; [exact IH|].
    intros H. injection H as <-. split; [discriminate | exact Hno]. }
  repeat match goal with
  | |- match ?x with _ => _ end = _ -> _ =>
      is_var x; destruct x; try exact IH; try apply Hhit
  end.
Qed.

Lemma generateSessionId_digits draw :
  0 <= draw < SESSION_ID_RANGE ->
  exists digits,
    generateSessionId draw =
      digits ++ firstn (40 - List.length digits) SESSION_ID_PADDING_CHARS /\
    (List.length digits = 5%nat \/ List.length digits = 6%nat) /\
    Forall isDecimal digits /\ decimalValue digits = draw + SESSION_ID_MIN.
Proof.
  intros Hd. unfold SESSION_ID_RANGE in Hd.
  unfold generateSessionId. cbv zeta.
  set (r := draw + SESSION_ID_MIN).
  assert (Hr : 10000 <= r < 1000000) by (unfold r, SESSION_ID_MIN; lia).
  clearbody r.
  unfold Number_toString. destruct (r <? 0) eqn:E; to_prop; [lia|].
  set (fuel := S (Z.to_nat (Z.log2 r))).
  assert (Hfuel : (14 <= fuel)%nat).
  { unfold fuel. assert (13 <= Z.log2 r); [|lia].
    apply Z.log2_le_pow2; lia. }
  set (digits := digitsFuel fuel r).
  assert (Hspec : decimalValue digits = r /\ Forall isDecimal digits /\
                  (List.length digits = 5%nat \/ List.length digits = 6%nat)).
  { destruct (Z_lt_le_dec r 100000) as [Hlt | Hge].
    - destruct (digitsFuel_spec 4 fuel r ltac:(lia) ltac:(cbn; lia)) as (Hv & Hf & Hl).
      split; [exact Hv|]. split; [exact Hf|]. left. apply Hl. cbn. lia.
    - destruct (digitsFuel_spec 5 fuel r ltac:(lia) ltac:(cbn; lia)) as (Hv & Hf & Hl).
      split; [exact Hv|]. split; [exact Hf|]. right. apply Hl. cbn. lia. }
  destruct Hspec as (Hv & Hf & Hl). clearbody digits. clear fuel Hfuel.
  exists digits. split; [|split; [exact Hl | split; [exact Hf | exact Hv]]].
  unfold padEnd, SESSION_ID_PADDING_LENGTH.
  destruct Hl as [Hl | Hl]; rewrite Hl; reflexivity.
Qed.

Lemma isHex_no_semicolon s : Forall isHex s -> ~ In 59 s.
Proof.
  intros H Hin. rewrite Forall_forall in H. specialize (H 59 Hin).
  unfold isHex in H. lia.
Qed.

Lemma generateSessionId_clean draw :
  0 <= draw < SESSION_ID_RANGE ->
  generateSessionId draw <> [] /\ ~ In 59 (generateSessionId draw).
Proof.
  intros Hd.
  destruct (generateSessionId_digits draw Hd) as (digits & Heq & Hl & Hf & _).
  rewrite Heq. split.
  - destruct digits; [cbn in Hl; lia | discriminate].
  - apply isHex_no_semicolon. apply Forall_app. split.
    + eapply Forall_impl; [|exact Hf]. exact isDecimal_isHex.
    + apply Forall_firstn_keep. exact padding_isHex.
Qed.

Lemma extractSessionFromCookie_created sid :
  sid <> [] -> ~ In 59 sid ->
  extractSessionFromCookie (createSessionCookie sid) = Some sid.
Proof.
  intros Hne Hno. unfold createSessionCookie.
  change (js "sid=" ++ sid) with (115 :: 105 :: 100 :: 61 :: sid).
  cbn [extractSessionFromCookie]. rewrite takeUntilSemicolon_clean by exact Hno.
  destruct sid; [contradiction | reflexivity].
Qed.

(** X16. The cookie made from a session id gives the id back: for every
    non-empty id without a semicolon, and so for every generated id,
    [extractSessionFromCookie(createSessionCookie(id)) = id].  Conversely
    whatever [extractSessionFromCookie] returns is non-empty and holds no
    semicolon. *)
Theorem extractSessionFromCookie_createSessionCookie :
  (forall sid, sid <> [] -> ~ In 59 sid ->
     extractSessionFromCookie (createSessionCookie sid) = Some sid) /\
  (forall draw, 0 <= draw < SESSION_ID_RANGE ->
     extractSessionFromCookie (createSessionCookie (generateSessionId draw)) =
     Some (generateSessionId draw)) /\
  (forall cookieString sid,
     extractSessionFromCookie cookieString = Some sid ->
     sid <> [] /\ ~ In 59 sid).
Proof.
  split; [exact extractSessionFromCookie_created|]. split.
  - intros draw Hd. destruct (generateSessionId_clean draw Hd) as [Hne Hno].
    apply extractSessionFromCookie_created; assumption.
  - exact extractSessionFromCookie_value.
Qed.

Lemma extractSessionFromCookie_createSessionCookie_witness :
  extractSessionFromCookie (createSessionCookie (generateSessionId 2345)) =
  Some (generateSessionId 2345).
Proof.
  apply (proj1 (proj2 extractSessionFromCookie_createSessionCookie) 2345).
  unfold SESSION_ID_RANGE. lia.
Defined.

Lemma app_same_length {A} (a b x y : list A) :
  List.length a = List.length b -> a ++ x = b ++ y -> a = b.
Proof.
  revert b. induction a as [|h a IH]; intros [|k b] Hl Heq;
    try discriminate Hl; [reflexivity|].
  cbn [List.length] in Hl. cbn [app] in Heq.
  inversion Heq as [[Hh Ht]]. f_equal. apply (IH b); [lia | exact Ht].
Qed.

Lemma five_digits_then_seed a b x y :
  List.length a = 5%nat -> List.length b = 6%nat ->
  a ++ firstn (40 - 5) SESSION_ID_PADDING_CHARS ++ x = b ++ y ->
  ~ Forall isDecimal b.
Proof.
  intros Ha Hb Heq Hdec.
  assert (Hcut : firstn 6 (a ++ firstn (40 - 5) SESSION_ID_PADDING_CHARS ++ x) =
                 firstn 6 (b ++ y)) by (rewrite Heq; reflexivity).
  rewrite (firstn_app_ge 6 a) in Hcut by lia.
  rewrite (firstn_app_le 6 b) in Hcut by lia.
  rewrite (firstn_all2 (n:=6) b) in Hcut by lia.
  rewrite Ha in Hcut.
  change (firstn (6 - 5) (firstn (40 - 5) SESSION_ID_PADDING_CHARS ++ x))
    with [99] in Hcut.
  rewrite <- Hcut in Hdec. apply Forall_app in Hdec. destruct Hdec as [_ Hc].
  inversion Hc as [|c l Hd _]. unfold isDecimal in Hd. lia.
Qed.

(** X17. Different draws give different session ids: the generated id
    determines the random number it was made from. *)
Theorem generateSessionId_injective (draw1 draw2 : Z) :
  0 <= draw1 < SESSION_ID_RANGE -> 0 <= draw2 < SESSION_ID_RANGE ->
  generateSessionId draw1 = generateSessionId draw2 -> draw1 = draw2.
Proof.
  intros H1 H2 Heq.
  destruct (generateSessionId_digits draw1 H1) as (d1 & E1 & L1 & F1 & V1).
  destruct (generateSessionId_digits draw2 H2) as (d2 & E2 & L2 & F2 & V2).
  rewrite E1, E2 in Heq.
  assert (Hd : d1 = d2).
  { destruct L1 as [L1 | L1]; destruct L2 as [L2 | L2].
    - eapply app_same_length; [|exact Heq]; lia.
    - exfalso. rewrite L1 in Heq.
      rewrite <- (app_nil_r (firstn _ _)) in Heq at 1.
      exact (five_digits_then_seed _ _ _ _ L1 L2 Heq F2).
    - exfalso. rewrite L2 in Heq. symmetry in Heq.
      rewrite <- (app_nil_r (firstn _ _)) in Heq at 1.
      exact (five_digits_then_seed _ _ _ _ L2 L1 Heq F1).
    - eapply app_same_length; [|exact Heq]; lia. }
  subst d2. lia.
Qed.

Lemma generateSessionId_injective_witness : 2345 = 2345.
Proof.
  apply (generateSessionId_injective 2345 2345);
    try reflexivity; unfold SESSION_ID_RANGE; lia.
Defined.

(** * Further invariants of the connection object *)

Lemma run_app events1 events2 w :
  run (events1 ++ events2) w = run events2 (run events1 w).
Proof. unfold run. apply fold_left_app. Qed.

Lemma run_preserves (P : World -> Prop) :
  (forall e w, P w -> P (step e w)) ->
  forall events w, P w -> P (run events w).
Proof.
  intros Hstep events. induction events as [|e events IH]; intros w Hw.
  - exact Hw.
  - cbn [run fold_left]. apply IH. apply Hstep. exact Hw.
Qed.

Lemma reachable_run events w : reachable w -> reachable (run events w).
Proof. apply run_preserves. intros e w'. apply reachable_step. Qed.

Lemma coherence_construct options draw : Coherence (construct options draw).
Proof.
  unfold construct. constructor; cbn; try discriminate; try tauto.
Qed.

Ltac coh_close :=
  constructor; world_simpl; cbn [In app] in *; intros;
  repeat match goal with
  | H : ?x = ?x -> _ |- _ => specialize (H eq_refl)
  | H : _ /\ _ |- _ => destruct H
  end;
  subst; cbn [In app] in *; eauto;
  try discriminate; try tauto; try congruence;
  try solve [intuition (subst; try congruence; try lia; eauto)].

Lemma coherence_handleLeaderDisconnection w :
  Invariant w -> retryCount (_state (self w)) = 0 ->
  Coherence (_handleLeaderDisconnection w).
Proof.
  intros Hinv Hrc. unfold _handleLeaderDisconnection.
  set (w1 := set_readyState CONNECTING (set_retryCount _ w)).
  assert (Hinv1 : Invariant w1).
  { destruct Hinv as [H1 H2 H3 H4 H5]. subst w1. open_world w. world_simpl.
    constructor; world_simpl; try discriminate; assumption. }
  assert (Hrc1 : retryCount (_state (self w1)) = 1)
    by (subst w1; open_world w; world_simpl; lia).
  assert (Hrs1 : readyState (self w1) = CONNECTING) by (subst w1; open_world w; reflexivity).
  clearbody w1. clear Hinv Hrc w.
  pose proof (_disconnectInternal_clears w1 Hinv1) as Hc. cbv zeta in Hc.
  destruct Hc as (Hws & Ht & Hrt & Hrs & Hit & Hsu & Hrc & Hmax & Hcb & Hcl & Hld & Hco & Hq).
  set (w2 := _disconnectInternal w1) in *. clearbody w2.
  rewrite Hrs1 in Hrs. rewrite Hrc1 in Hrc.
  clear Hinv1 Hrs1 Hrc1 w1 Hit Hsu Hmax Hcb.
  destruct (retryCount (_state (self w2)) <=? maxRetries (self w2)) eqn:E; to_prop.
  - open_world w2. world_simpl. subst. coh_close.
  - destruct (onleaderdisconnect _); open_world w2; world_simpl; subst; coh_close.
Qed.

Lemma strictEq_false a b : strictEq a b = false -> a <> b.
Proof.
  intros H Heq. subst b. destruct a as [x|]; cbn in H; [|discriminate].
  rewrite jsstring_eqb_refl in H. discriminate.
Qed.

Lemma truthy_some v : truthy v = true -> exists c s, v = Some (c :: s).
Proof.
  destruct v as [[|c s]|]; try discriminate. intros _. eauto.
Qed.

Lemma socket_no_timers w ws :
  Invariant w -> _ws (self w) = Some ws -> timers w = [].
Proof.
  intros [_ _ H3 _ _] Hws. destruct (timers w) eqn:Et; [reflexivity|].
  rewrite H3 in Hws by discriminate. discriminate.
Qed.

Lemma coherence_step e w :
  Invariant w -> RetryInvariant w -> Coherence w -> Coherence (step e w).
Proof.
  intros Hinv Hretry Hcoh.
  pose proof Hinv as [H1 H2 H3 H4 H5]. pose proof Hretry as [Hr Hc].
  pose proof Hcoh as [C1 C2 C3 C4].
  destruct e; unfold step.
  - (* the initial timer *)
    destruct (initialTimer w) eqn:E; [|exact Hcoh].
    destruct (H5 eq_refl) as (_ & Ht & _).
    unfold _initWebSocket. open_world w. world_simpl. subst. coh_close.
  - (* a retry timer *)
    destruct (hasTimer t w) eqn:E; [|exact Hcoh].
    unfold hasTimer in E. apply existsb_exists in E. destruct E as (t' & Hin & Heq).
    apply Nat.eqb_eq in Heq. subst t'.
    pose proof (H2 t Hin) as Hrt.
    assert (Hf : filter (fun x => negb (Nat.eqb x t)) (timers w) = [])
      by (apply filter_timer_handle; intros t' Ht'; rewrite <- Hrt; apply H2; exact Ht').
    unfold retryTimerCallback, _initWebSocket. open_world w. world_simpl.
    rewrite Hf. subst. coh_close.
  - (* _initWebSocket resumes *)
    destruct (initSuspended w) eqn:E; [|exact Hcoh].
    destruct (H4 eq_refl) as (Hws & Ht).
    unfold _initWebSocket_resume, syncReadyState.
    destruct available; [| destruct (onerror _)];
      open_world w; world_simpl; subst; coh_close.
  - (* the socket opens *)
    destruct (_ws (self w)) as [ws|] eqn:Ews; [|exact Hcoh].
    pose proof (socket_no_timers w ws Hinv Ews) as Ht.
    unfold ws_onopen. rewrite drain_queue.
    open_world w. world_simpl. subst. coh_close.
  - (* a frame arrives *)
    destruct (_ws (self w)) as [ws|] eqn:Ews; [|exact Hcoh].
    pose proof (socket_no_timers w ws Hinv Ews) as Ht.
    unfold ws_onmessage.
    destruct (parseTransportMessage data (duVariant (self w)))
      as [leader | message sid cid | sid cid | raw].
    + (* election *)
      unfold _applyLeaderStatusChange, _evaluateLeaderStatus.
      destruct (truthy leader) eqn:Etl; cbn [negb orb]; [|exact Hcoh].
      destruct (truthy (clientId (self w))) eqn:Etc; cbn [negb]; [|exact Hcoh].
      cbn [actionDisconnect newLeader].
      destruct (strictEq (clientId (self w)) leader) eqn:Eeq; cbn [fst].
      * apply coherence_handleLeaderDisconnection.
        -- open_world w. world_simpl. inv_close.
        -- open_world w. world_simpl. auto.
      * apply strictEq_false in Eeq.
        destruct (truthy_some _ Etl) as (c & s & ->).
        open_world w. world_simpl. subst.
        constructor; world_simpl; auto; try (intros Hn; exfalso; apply Hn; reflexivity).
        intros L HL. injection HL as <-.
        split; [discriminate|]. split; [exact Etc | exact Eeq].
    + (* application message *)
      destruct (onmessage _); [|exact Hcoh].
      open_world w. world_simpl. subst. coh_close.
    + (* protocol *)
      destruct (truthy cid) eqn:Etc; [|exact Hcoh].
      destruct (truthy (connectionId (self w))) eqn:Eco; cbn [negb]; [exact Hcoh|].
      assert (Hld : leaderId (self w) = None).
      { destruct (leaderId (self w)) as [L|] eqn:El; [|reflexivity].
        destruct (C3 L eq_refl) as (_ & Htr & _). rewrite <- C1 in Htr. congruence. }
      open_world w. world_simpl. subst.
      destruct (0 <? retryCount'); world_simpl;
        destruct (onopen callbacks'); world_simpl;
        destruct (onsetup callbacks' && negb setupCalled'); world_simpl;
        (constructor; world_simpl; auto; try discriminate;
         try (intros Hn; exfalso; apply Hn; reflexivity)).
    + exact Hcoh.
  - (* the socket closes *)
    destruct (_ws (self w)) as [ws|] eqn:Ews; [|exact Hcoh].
    pose proof (socket_no_timers w ws Hinv Ews) as Ht.
    unfold ws_onclose. open_world w. world_simpl.
    destruct (onclose callbacks'); world_simpl; subst; coh_close.
  - (* the socket reports an error *)
    destruct (_ws (self w)) as [ws|] eqn:Ews; [|exact Hcoh].
    unfold ws_onerror. destruct (onerror _); [|exact Hcoh].
    open_world w. world_simpl. coh_close.
  - (* the socket changes state *)
    destruct (_ws (self w)) as [ws|] eqn:Ews; [|exact Hcoh].
    open_world w. world_simpl. subst. coh_close.
  - (* the poll *)
    unfold syncReadyState.
    destruct (_ws (self w)) as [ws|] eqn:Ews; [|exact Hcoh].
    pose proof (socket_no_timers w ws Hinv Ews) as Ht.
    open_world w. world_simpl. subst. coh_close.
  - (* callbacks are assigned *)
    open_world w. world_simpl. coh_close.
  - (* send *)
    destruct (send data w) as [w'|err] eqn:Es; [|exact Hcoh].
    unfold send in Es.
    destruct (_ && _); [apply Ok_inj in Es; subst w'; exact Hcoh|].
    destruct (readyState (self w)) eqn:Ers; try discriminate Es;
      destruct (createTransportMessage _ _ _ _) as [tm|]; try discriminate Es;
      cbn [bind] in Es.
    + apply Ok_inj in Es. subst w'.
      open_world w. world_simpl. coh_close.
    + destruct (_ws (self w)) eqn:Ews; [|discriminate Es].
      apply Ok_inj in Es. subst w'.
      open_world w. world_simpl. coh_close.
  - (* close *)
    unfold close. open_world w. world_simpl.
    destruct retryTimeout' as [t0|]; destruct ws' as [ws|]; world_simpl;
      rewrite ?(filter_timer_handle _ _ H2); rewrite ?(no_handle_no_timer _ H2);
      coh_close.
Qed.

Lemma reachable_coherence w : reachable w -> Coherence w.
Proof.
  induction 1 as [options draw | e w Hr IH].
  - apply coherence_construct.
  - apply coherence_step; [apply reachable_invariant | apply reachable_retryCount |];
      assumption.
Qed.

Lemma existsb_sends (f : Effect -> bool) queue :
  (forall m, f (SocketSend m) = false) -> existsb f (map SocketSend queue) = false.
Proof.
  intros Hf. induction queue as [|m queue IH]; [reflexivity|].
  cbn [map existsb]. rewrite Hf, IH. reflexivity.
Qed.

Ltac frame_close :=
  unfold sameSession, firedLeaderDisconnect; world_simpl;
  split; [reflexivity|]; split; [try (left; split; reflexivity)|];
  [.. | intros _ _ Hlog; rewrite ?existsb_app, ?Hlog;
        rewrite ?existsb_sends by reflexivity; reflexivity].

(** What a step leaves alone: the retry limit; the session id and the
    cookie unless a retry timer fires and rotates them; and, while the
    limit is at least 1, the [onleaderdisconnect] callback. *)
Lemma step_frame e w :
  maxRetries (self (step e w)) = maxRetries (self w) /\
  (sameSession (step e w) w \/
   exists draw, sessionId (self (step e w)) = generateSessionId draw /\
                cookie (self (step e w)) =
                createSessionCookie (generateSessionId draw)) /\
  (RetryInvariant w -> 1 <= maxRetries (self w) ->
   firedLeaderDisconnect w = false -> firedLeaderDisconnect (step e w) = false).
Proof.
  assert (Hsame : maxRetries (self w) = maxRetries (self w) /\
    (sameSession w w \/
     exists draw, sessionId (self w) = generateSessionId draw /\
                  cookie (self w) = createSessionCookie (generateSessionId draw)) /\
    (RetryInvariant w -> 1 <= maxRetries (self w) ->
     firedLeaderDisconnect w = false -> firedLeaderDisconnect w = false)).
  { split; [reflexivity|]. split; [left; split; reflexivity | auto]. }
  destruct e; unfold step.
  - destruct (initialTimer w); [|exact Hsame].
    unfold _initWebSocket. open_world w. frame_close.
  - destruct (hasTimer t w); [|exact Hsame].
    unfold retryTimerCallback, _initWebSocket. open_world w. frame_close.
    right. exists draw. split; reflexivity.
  - destruct (initSuspended w); [|exact Hsame].
    unfold _initWebSocket_resume, syncReadyState.
    destruct available; [| destruct (onerror _)]; open_world w; frame_close.
  - destruct (_ws (self w)) as [ws|]; [|exact Hsame].
    unfold ws_onopen. rewrite drain_queue. open_world w. frame_close.
  - destruct (_ws (self w)) as [ws|]; [|exact Hsame].
    unfold ws_onmessage.
    destruct (parseTransportMessage data (duVariant (self w)))
      as [leader | message sid cid | sid cid | raw].
    + unfold _applyLeaderStatusChange, _evaluateLeaderStatus.
      destruct (truthy leader); cbn [negb orb]; [|exact Hsame].
      destruct (truthy (clientId (self w))) eqn:Et; cbn [negb]; [|exact Hsame].
      cbn [actionDisconnect newLeader].
      destruct (strictEq (clientId (self w)) leader); cbn [fst].
      * clear Hsame. unfold _handleLeaderDisconnection, _disconnectInternal.
        open_world w. world_simpl.
        destruct retryTimeout'; destruct ws'; world_simpl;
          destruct (retryCount' + 1 <=? maxRetries') eqn:E; to_prop; world_simpl;
          try destruct (onleaderdisconnect callbacks'); world_simpl;
          unfold sameSession, firedLeaderDisconnect; world_simpl;
          (split; [reflexivity|]; split; [left; split; reflexivity|]);
          intros [Hr Hc] Hmax Hlog; specialize (Hc Et); world_simpl; try lia;
          rewrite ?existsb_app, ?Hlog; reflexivity.
      * open_world w. frame_close.
    + destruct (onmessage _); [|exact Hsame]. open_world w. frame_close.
    + destruct (truthy cid); [|exact Hsame].
      destruct (negb (truthy (connectionId (self w)))); [|exact Hsame].
      open_world w. world_simpl.
      destruct (0 <? retryCount'); world_simpl;
        destruct (onopen callbacks'); world_simpl;
        destruct (onsetup callbacks' && negb setupCalled'); frame_close.
    + exact Hsame.
  - destruct (_ws (self w)) as [ws|]; [|exact Hsame].
    unfold ws_onclose. open_world w. world_simpl.
    destruct (onclose callbacks'); frame_close.
  - destruct (_ws (self w)) as [ws|]; [|exact Hsame].
    unfold ws_onerror. destruct (onerror _); [|exact Hsame].
    open_world w. frame_close.
  - destruct (_ws (self w)) as [ws|]; [|exact Hsame].
    open_world w. frame_close.
  - unfold syncReadyState. destruct (_ws (self w)) as [ws|]; [|exact Hsame].
    open_world w. frame_close.
  - open_world w. frame_close.
  - destruct (send data w) as [w'|err] eqn:Es; [|exact Hsame].
    unfold send in Es.
    destruct (_ && _); [apply Ok_inj in Es; subst w'; exact Hsame|].
    destruct (readyState (self w)); try discriminate Es;
      destruct (createTransportMessage _ _ _ _) as [tm|]; try discriminate Es;
      cbn [bind] in Es.
    + apply Ok_inj in Es. subst w'. open_world w. frame_close.
    + destruct (_ws (self w)); [|discriminate Es].
      apply Ok_inj in Es. subst w'. open_world w. frame_close.
  - unfold close. open_world w. world_simpl.
    destruct retryTimeout'; destruct ws'; frame_close.
Qed.

(** X18. Socket and timers in every state the object can reach, whatever
    the options and whatever the host and the caller do: [readyState] is
    OPEN only while a socket exists; a pending retry timer is the one whose
    handle the object holds; while one is pending there is no socket, the
    object is CONNECTING and the retry counter is 1; and there is neither
    socket nor retry timer before the first connect has started. *)
Theorem run_socket_and_timers (options : Options) (draw : Z) (events : list Event) :
  let w := run events (construct options draw) in
  (readyState (self w) = OPEN -> _ws (self w) <> None) /\
  (forall t, In t (timers w) -> retryTimeout (_state (self w)) = Some t) /\
  (timers w <> [] ->
   _ws (self w) = None /\ readyState (self w) = CONNECTING /\
   retryCount (_state (self w)) = 1) /\
  (initialTimer w = true \/ initSuspended w = true ->
   _ws (self w) = None /\ timers w = []).
Proof.
  intros w.
  assert (Hr : reachable w) by (apply reachable_run; constructor).
  destruct (reachable_invariant w Hr) as [H1 H2 H3 H4 H5].
  destruct (reachable_coherence w Hr) as [_ _ _ C4].
  split; [exact H1|]. split; [exact H2|]. split.
  - intros Ht. destruct (C4 Ht) as (Hrs & Hrc & _). auto.
  - intros [Hi | Hs].
    + destruct (H5 Hi) as (Hws & Ht & _). auto.
    + exact (H4 Hs).
Qed.

(** X19. The retry counter never passes 1: it is 0 or 1 in every state the
    object can reach, and 0 whenever a clientId is stored.  So with a retry
    limit of at least 1 (the default is 10) the limit is never exceeded:
    [onleaderdisconnect] is never called.  The limit itself never
    changes and is never 0 (an option of 0 is replaced by the default). *)
Theorem run_retry_counter (options : Options) (draw : Z) (events : list Event) :
  let w := run events (construct options draw) in
  0 <= retryCount (_state (self w)) <= 1 /\
  (truthy (clientId (self w)) = true -> retryCount (_state (self w)) = 0) /\
  maxRetries (self w) = maxRetries (self (construct options draw)) /\
  maxRetries (self w) <> 0 /\
  (1 <= maxRetries (self (construct options draw)) ->
   firedLeaderDisconnect w = false).
Proof.
  intros w. subst w.
  assert (Hr : reachable (run events (construct options draw)))
    by (apply reachable_run; constructor).
  destruct (reachable_retryCount _ Hr) as [Hrc Hcl].
  split; [exact Hrc|]. split; [exact Hcl|].
  set (m := maxRetries (self (construct options draw))).
  assert (Hcombined :
            (fun w => reachable w /\ maxRetries (self w) = m /\
                      (1 <= m -> firedLeaderDisconnect w = false))
              (run events (construct options draw))).
  { apply run_preserves.
    - intros e w (Hw & Hm & Hq).
      destruct (step_frame e w) as (Hmax & _ & Hfire).
      split; [apply reachable_step; exact Hw|].
      split; [congruence|].
      intros H1. apply Hfire; [apply reachable_retryCount; exact Hw | lia | auto].
    - split; [constructor|]. split; [reflexivity|]. intros _. reflexivity. }
  destruct Hcombined as (_ & Hm & Hq).
  split; [exact Hm|]. split; [|exact Hq].
  rewrite Hm. subst m. unfold construct, numberOr, DEFAULT_MAX_RETRIES.
  cbn [self maxRetries].
  destruct (opt_maxRetries options) as [n|]; [|discriminate].
  destruct (n =? 0) eqn:E; to_prop; [discriminate | exact E].
Qed.

(** X20. Identity in every state the object can reach: [connectionId] and
    [clientId] are always equal; a clientId is stored only while a socket
    exists; and a stored leader id is non-empty, is stored only together
    with a clientId, and is never the client's own id: the object never
    rests in a state where it is the leader. *)
Theorem run_identity (options : Options) (draw : Z) (events : list Event) :
  let w := run events (construct options draw) in
  connectionId (self w) = clientId (self w) /\
  (truthy (clientId (self w)) = true -> _ws (self w) <> None) /\
  (forall L, leaderId (self w) = Some L ->
             L <> [] /\ truthy (clientId (self w)) = true /\
             clientId (self w) <> Some L).
Proof.
  intros w.
  assert (Hr : reachable w) by (apply reachable_run; constructor).
  destruct (reachable_coherence w Hr) as [C1 C2 C3 _].
  auto.
Qed.

(** ** The session of a connection *)

Lemma digitsFuel_nonempty fuel n : digitsFuel (S fuel) n <> [].
Proof.
  cbn [digitsFuel]. destruct (n <? 10); [discriminate|].
  destruct (digitsFuel fuel (n / 10)); discriminate.
Qed.

Lemma generateSessionId_nonempty draw : generateSessionId draw <> [].
Proof.
  unfold generateSessionId. cbv zeta.
  assert (Hn : Number_toString (draw + SESSION_ID_MIN) <> []).
  { unfold Number_toString. destruct (_ <? 0); [discriminate|].
    apply digitsFuel_nonempty. }
  destruct (Number_toString (draw + SESSION_ID_MIN)) as [|c s] eqn:E;
    [contradiction|].
  unfold padEnd. destruct (_ <=? _)%nat; [discriminate|].
  destruct SESSION_ID_PADDING_CHARS; discriminate.
Qed.

(** X21. The session id is never empty, and unless the caller supplied a
    cookie of their own the cookie is always [sid=] followed by the current
    session id, through every rotation of the session. *)
Theorem run_session_cookie (options : Options) (draw : Z) (events : list Event) :
  let w := run events (construct options draw) in
  sessionId (self w) <> [] /\
  (truthy (opt_cookie options) = false ->
   cookie (self w) = createSessionCookie (sessionId (self w))).
Proof.
  intros w. subst w.
  assert (Hcombined :
            (fun w => sessionId (self w) <> [] /\
                      (truthy (opt_cookie options) = false ->
                       cookie (self w) = createSessionCookie (sessionId (self w))))
              (run events (construct options draw))).
  { apply run_preserves.
    - intros e w (Hne & Hck).
      destruct (step_frame e w) as (_ & [[Hs Hc] | (d & Hs & Hc)] & _).
      + rewrite Hs, Hc. auto.
      + rewrite Hs, Hc. split; [apply generateSessionId_nonempty | reflexivity].
    - unfold construct. cbn [self sessionId cookie fst snd].
      destruct (truthy (opt_cookie options)) eqn:Ec.
      + destruct (opt_cookie options) as [c|]; [|discriminate Ec].
        split; [|discriminate]. cbn [fst].
        destruct (extractSessionFromCookie c) as [[|x sid]|];
          try discriminate; apply generateSessionId_nonempty.
      + destruct (truthy (opt_sessionId options)) eqn:Es.
        * destruct (opt_sessionId options) as [[|x sid]|]; try discriminate Es.
          split; [discriminate | reflexivity].
        * cbn [fst snd]. split; [apply generateSessionId_nonempty | reflexivity]. }
  exact Hcombined.
Qed.

(** ** Sending *)

Lemma send_queues data w :
  retryCount (_state (self w)) = 0 -> readyState (self w) = CONNECTING ->
  exists frame,
    createTransportMessage (sessionId (self w)) (connectionId (self w)) data
      (duVariant (self w)) = Ok frame /\
    step (CallSend data) w =
    set_messageQueue (messageQueue (_state (self w)) ++ [frame]) w.
Proof.
  intros Hrc Hrs.
  destruct (createTransportMessage_returns (sessionId (self w))
              (connectionId (self w)) data (duVariant (self w))) as [frame Hf].
  exists frame. split; [exact Hf|].
  unfold step, send. rewrite Hrc, Hrs. cbn [Z.ltb Z.compare andb].
  rewrite Hf. reflexivity.
Qed.

Lemma run_sends_queue datas :
  forall w,
    retryCount (_state (self w)) = 0 -> readyState (self w) = CONNECTING ->
    exists frames,
      Forall2 (fun data frame =>
                 createTransportMessage (sessionId (self w)) (connectionId (self w))
                   data (duVariant (self w)) = Ok frame) datas frames /\
      run (map CallSend datas) w =
      set_messageQueue (messageQueue (_state (self w)) ++ frames) w.
Proof.
  induction datas as [|data datas IH]; intros w Hrc Hrs.
  - exists []. split; [constructor|]. cbn [map run fold_left].
    rewrite app_nil_r. open_world w. reflexivity.
  - destruct (send_queues data w Hrc Hrs) as (frame & Hf & Hstep).
    cbn [map run fold_left]. rewrite Hstep.
    set (w1 := set_messageQueue _ w).
    destruct (IH w1) as (frames & Hall & Hrun).
    + subst w1. open_world w. exact Hrc.
    + subst w1. open_world w. exact Hrs.
    + exists (frame :: frames). split.
      * constructor; [exact Hf|].
        subst w1. open_world w. exact Hall.
      * unfold run in Hrun. rewrite Hrun. subst w1. open_world w. world_simpl.
        rewrite <- app_assoc. reflexivity.
Qed.

(** X22. Messages sent while the socket is still connecting are held back
    and go out in the order of the calls once it opens: after any number of
    [send] calls and then the socket's [open], exactly the frames of those
    calls, after whatever was queued before, have been written to the
    socket, in order, each framed with the session and connection ids of
    the time of the call; the queue is empty and the object is OPEN. *)
Theorem queued_sends_flush_in_order (w : World) (ws : Socket) (datas : list jsstring) :
  retryCount (_state (self w)) = 0 -> readyState (self w) = CONNECTING ->
  _ws (self w) = Some ws ->
  let w' := run (map CallSend datas ++ [SocketOpened]) w in
  exists frames,
    Forall2 (fun data frame =>
               createTransportMessage (sessionId (self w)) (connectionId (self w))
                 data (duVariant (self w)) = Ok frame) datas frames /\
    log w' = log w ++ map SocketSend (messageQueue (_state (self w)) ++ frames) /\
    messageQueue (_state (self w')) = [] /\
    readyState (self w') = OPEN.
Proof.
  intros Hrc Hrs Hws w'. subst w'.
  destruct (run_sends_queue datas w Hrc Hrs) as (frames & Hall & Hrun).
  exists frames. split; [exact Hall|].
  rewrite run_app, Hrun. cbn [run fold_left step].
  replace (_ws (self (set_messageQueue
                        (messageQueue (_state (self w)) ++ frames) w)))
    with (Some ws) by (open_world w; world_simpl; symmetry; exact Hws).
  unfold ws_onopen. rewrite drain_queue.
  open_world w. world_simpl. repeat split; reflexivity.
Qed.

Lemma queued_sends_flush_in_order_witness :
  let w' := run (map CallSend [js "a"; js "b"] ++ [SocketOpened]) connectingWorld in
  exists frames,
    Forall2 (fun data frame =>
               createTransportMessage (sessionId (self connectingWorld))
                 (connectionId (self connectingWorld))
                 data (duVariant (self connectingWorld)) = Ok frame)
            [js "a"; js "b"] frames /\
    log w' = log connectingWorld ++
             map SocketSend (messageQueue (_state (self connectingWorld)) ++ frames) /\
    messageQueue (_state (self w')) = [] /\
    readyState (self w') = OPEN.
Proof.
  apply (queued_sends_flush_in_order connectingWorld (mkSocket CONNECTING 0)
           [js "a"; js "b"]); reflexivity.
Defined.

(** X23. After [close] nothing more is sent: a [send] that follows a
    [close] either returns without effect (while a leader retry is counted)
    or raises the not-open error with the state CLOSING or CLOSED, and the
    object is left exactly as [close] left it. *)
Theorem send_after_close (w : World) (code : option Z) (reason : option jsstring)
    (data : jsstring) :
  let w' := close code reason w in
  ((send data w' = Ok w' /\
    0 < retryCount (_state (self w)) <= maxRetries (self w)) \/
   (exists rs, send data w' = Throw (NotOpen rs) /\ (rs = 2 \/ rs = 3) /\
               rs = readyStateCode (readyState (self w')))) /\
  step (CallSend data) w' = w'.
Proof.
  intros w'. subst w'.
  assert (Hcases :
    (send data (close code reason w) = Ok (close code reason w) /\
     0 < retryCount (_state (self w)) <= maxRetries (self w)) \/
    (exists rs, send data (close code reason w) = Throw (NotOpen rs) /\
                (rs = 2 \/ rs = 3) /\
                rs = readyStateCode (readyState (self (close code reason w))))).
  { unfold send, close. open_world w. world_simpl.
    destruct retryTimeout' as [t0|]; destruct ws' as [ws|]; world_simpl;
      (destruct (0 <? retryCount') eqn:E1;
       destruct (retryCount' <=? maxRetries') eqn:E2; cbn [andb]; to_prop;
       [left; split; [reflexivity | lia] | right .. ]);
      eexists; (split; [reflexivity|]); cbn; auto. }
  split; [exact Hcases|].
  unfold step. destruct Hcases as [[Hs _] | (rs & Hs & _)]; rewrite Hs; reflexivity.
Qed.

(** ** The handshake *)

(** X24. The first handshake of a connection wins.  A protocol frame that
    carries a connection id while none is stored stores it as both
    [connectionId] and [clientId], resets the retry counter, and calls
    [onopen] and then, once per session, [onsetup]; every later protocol
    frame, whatever it carries, changes nothing. *)
Theorem first_handshake_wins (w : World) (data : Inbound)
    (sid : option jsstring) (c : jsstring) :
  parseTransportMessage data (duVariant (self w)) = TProtocol sid (Some c) ->
  c <> [] -> truthy (connectionId (self w)) = false ->
  0 <= retryCount (_state (self w)) ->
  let w1 := ws_onmessage data w in
  connectionId (self w1) = Some c /\ clientId (self w1) = Some c /\
  retryCount (_state (self w1)) = 0 /\
  log w1 =
    log w ++ (if onopen (callbacks (self w)) then [Fire_onopen] else []) ++
    (if onsetup (callbacks (self w)) && negb (setupCalled (_state (self w)))
     then [Fire_onsetup (Some c) (leaderId (self w)) false] else []) /\
  forall data2 sid2 cid2,
    parseTransportMessage data2 (duVariant (self w)) = TProtocol sid2 cid2 ->
    ws_onmessage data2 w1 = w1.
Proof.
  intros Hp Hc Hco Hrc w1.
  destruct c as [|c0 c']; [contradiction|].
  assert (Hfacts :
    duVariant (self w1) = duVariant (self w) /\
    connectionId (self w1) = Some (c0 :: c') /\
    clientId (self w1) = Some (c0 :: c') /\
    retryCount (_state (self w1)) = 0 /\
    log w1 =
      log w ++ (if onopen (callbacks (self w)) then [Fire_onopen] else []) ++
      (if onsetup (callbacks (self w)) && negb (setupCalled (_state (self w)))
       then [Fire_onsetup (Some (c0 :: c')) (leaderId (self w)) false] else [])).
  { subst w1. unfold ws_onmessage. rewrite Hp. cbn [truthy]. rewrite Hco.
    cbn [negb]. clear Hp Hco. open_world w. world_simpl.
    destruct (0 <? retryCount') eqn:E; to_prop; world_simpl;
      destruct (onopen callbacks'); world_simpl;
      destruct (onsetup callbacks' && negb setupCalled'); world_simpl;
      repeat split; rewrite <- ?app_assoc, ?app_nil_r; try reflexivity; lia. }
  destruct Hfacts as (Hdu & H1 & H2 & H3 & H4).
  split; [exact H1|]. split; [exact H2|]. split; [exact H3|]. split; [exact H4|].
  intros data2 sid2 cid2 Hp2. unfold ws_onmessage at 1.
  rewrite Hdu, Hp2, H1. cbn [truthy negb]. destruct (truthy cid2); reflexivity.
Qed.

Lemma first_handshake_wins_witness :
  let w1 := ws_onmessage (handshakeFrame (js "X1")) connectedWorld in
  connectionId (self w1) = Some (js "X1") /\ clientId (self w1) = Some (js "X1") /\
  retryCount (_state (self w1)) = 0 /\
  log w1 =
    log connectedWorld ++
    (if onopen (callbacks (self connectedWorld)) then [Fire_onopen] else []) ++
    (if onsetup (callbacks (self connectedWorld)) &&
        negb (setupCalled (_state (self connectedWorld)))
     then [Fire_onsetup (Some (js "X1")) (leaderId (self connectedWorld)) false]
     else []) /\
  forall data2 sid2 cid2,
    parseTransportMessage data2 (duVariant (self connectedWorld)) =
      TProtocol sid2 cid2 ->
    ws_onmessage data2 w1 = w1.
Proof.
  apply (first_handshake_wins connectedWorld (handshakeFrame (js "X1")) None (js "X1")).
  - reflexivity.
  - vm_compute. discriminate.
  - reflexivity.
  - vm_compute. discriminate.
Defined.

(** ** Closing before the first connect *)

(** X25. [close] does not cancel the first connect.  While the
    initial-delay timer is still pending there is no socket to close, so
    [close] leaves the object CLOSED; but the timer stays armed, and when
    it fires the socket is created all the same: the object is CONNECTING
    again, and OPEN once the socket opens. *)
Theorem close_does_not_cancel_first_connect (options : Options) (draw : Z)
    (events : list Event) (code : option Z) (reason : option jsstring) :
  let w := run events (construct options draw) in
  initialTimer w = true ->
  let closed := step (CallClose code reason) w in
  let w' := run [InitialTimerFired; InitResumed true] closed in
  readyState (self closed) = CLOSED /\ initialTimer closed = true /\
  _ws (self w') = Some (mkSocket CONNECTING 0) /\
  readyState (self w') = CONNECTING /\
  readyState (self (step SocketOpened w')) = OPEN.
Proof.
  intros w Hi closed w'.
  assert (Hr : reachable w) by (apply reachable_run; constructor).
  destruct (reachable_invariant w Hr) as [_ _ _ _ H5].
  destruct (H5 Hi) as (Hws & Ht & Hs).
  subst closed w'. clearbody w. clear Hr H5.
  unfold run. cbn [fold_left]. unfold step, close.
  open_world w. world_simpl. subst.
  destruct retryTimeout' as [t0|]; world_simpl;
    unfold _initWebSocket, _initWebSocket_resume, syncReadyState; world_simpl;
    unfold ws_onopen; rewrite ?drain_queue; world_simpl;
    repeat split; reflexivity.
Qed.

Lemma close_does_not_cancel_first_connect_witness :
  let w := run [] (construct (mkOptions None None None None) 0) in
  let closed := step (CallClose None None) w in
  let w' := run [InitialTimerFired; InitResumed true] closed in
  readyState (self closed) = CLOSED /\ initialTimer closed = true /\
  _ws (self w') = Some (mkSocket CONNECTING 0) /\
  readyState (self w') = CONNECTING /\
  readyState (self (step SocketOpened w')) = OPEN.
Proof.
  apply (close_does_not_cancel_first_connect (mkOptions None None None None) 0 []
           None None).
  reflexivity.
Defined.

(** ** The retry limit is out of reach *)



